(** * Blogify backend: content lifecycle and engagement counters

    A shallow embedding of the Mongoose models [Post] and [Comment]
    (their schema validators and [pre]/[post] save hooks) and of the
    Express handlers of the posts and comments routers, followed by the
    properties of the derived fields (slug, read time, publication date),
    of the like and comment counters and of the two-level comment thread.

    Conventions of the embedding.
    - A JavaScript string is a [string]; every [ascii] stands for the
      UTF-16 code unit of the same number (0..255).
    - An [ObjectId] is a natural number.  Identifiers reaching a handler
      are well-formed, so the [CastError] branches of the handlers are
      not represented.  A fresh identifier is drawn from the counter
      [nextId] of the store.
    - [new Date()] is the argument [now] of a handler.
    - The [auth] middleware has run: a handler receives the user it put in
      [req.user].
    - The fields [updatedAt] of both schemas and the population of user
      references in responses are left out. *)

From Stdlib Require Import Ascii String.
From stdpp Require Import gmap strings list sorting.

Open Scope string_scope.

(** ** JavaScript string primitives used by the models and routers *)

Module JS.

(** The code units matched by [\s] (and removed by [trim]) below 256:
    tab, line feed, vertical tab, form feed, carriage return, space and
    no-break space. *)
Definition is_space (c : ascii) : bool :=
  let n := nat_of_ascii c in
  bool_decide (n = 9 ∨ n = 10 ∨ n = 11 ∨ n = 12 ∨ n = 13 ∨ n = 32 ∨ n = 160).

Definition is_upper (c : ascii) : bool :=
  let n := nat_of_ascii c in bool_decide (65 ≤ n ≤ 90)%nat.

Definition is_lower (c : ascii) : bool :=
  let n := nat_of_ascii c in bool_decide (97 ≤ n ≤ 122)%nat.

Definition is_digit (c : ascii) : bool :=
  let n := nat_of_ascii c in bool_decide (48 ≤ n ≤ 57)%nat.

(** Upper-case code units of the Latin-1 supplement: U+00C0 .. U+00DE
    without the multiplication sign U+00D7. *)
Definition is_upper_latin1 (c : ascii) : bool :=
  let n := nat_of_ascii c in bool_decide (192 ≤ n ≤ 222 ∧ n ≠ 215)%nat.

Definition lower_unit (c : ascii) : ascii :=
  if is_upper c || is_upper_latin1 c
  then ascii_of_nat (nat_of_ascii c + 32) else c.

(** [s.toLowerCase()] *)
Fixpoint toLowerCase (s : string) : string :=
  match s with
  | EmptyString => EmptyString
  | String c r => String (lower_unit c) (toLowerCase r)
  end.

(** [s.replace(/[^a-zA-Z0-9\s]/g, "")] *)
Definition slug_unit (c : ascii) : bool :=
  is_lower c || is_upper c || is_digit c || is_space c.

Fixpoint strip_non_alnum (s : string) : string :=
  match s with
  | EmptyString => EmptyString
  | String c r =>
      if slug_unit c then String c (strip_non_alnum r) else strip_non_alnum r
  end.

(** [s.replace(/\s+/g, "-")]: [in_run] tells that the preceding code
    unit belongs to the whitespace run already replaced. *)
Fixpoint hyphenate_from (in_run : bool) (s : string) : string :=
  match s with
  | EmptyString => EmptyString
  | String c r =>
      if is_space c
      then if in_run then hyphenate_from true r
           else String "-" (hyphenate_from true r)
      else String c (hyphenate_from false r)
  end.

Definition hyphenate (s : string) : string := hyphenate_from false s.

(** [s.substring(0, n)] *)
Definition substring0 (n : nat) (s : string) : string := substring 0 n s.

(** Does [s] contain [">"]? *)
Fixpoint has_gt (s : string) : bool :=
  match s with
  | EmptyString => false
  | String c r => if Ascii.eqb c ">" then true else has_gt r
  end.

(** [s.replace(/<[^>]*>/g, "")].  A ["<"] opens a match when some [">"]
    follows it, and the match ends at the first one; a ["<"] that no
    [">"] follows matches nothing, and nothing after it does.
    [in_tag] tells that the scan is inside a match. *)
Fixpoint strip_tags_from (in_tag : bool) (s : string) : string :=
  match s with
  | EmptyString => EmptyString
  | String c r =>
      if in_tag
      then if Ascii.eqb c ">" then strip_tags_from false r
           else strip_tags_from true r
      else if Ascii.eqb c "<"
           then if has_gt r then strip_tags_from true r else s
           else String c (strip_tags_from false r)
  end.

Definition strip_tags (s : string) : string := strip_tags_from false s.

(** [s.split(/\s+/)]: [field] is the piece being read and [in_run]
    tells that the preceding code unit is whitespace.  The piece before
    a leading run and the piece after a trailing run are empty strings,
    and they are pieces of the result. *)
Fixpoint split_from (field : string) (in_run : bool) (s : string)
  : list string :=
  match s with
  | EmptyString => [field]
  | String c r =>
      if is_space c
      then if in_run then split_from "" true r
           else field :: split_from "" true r
      else split_from (field ++ String c "") false r
  end.

Definition split_ws (s : string) : list string := split_from "" false s.

(** [s.trim()] *)
Fixpoint trimStart (s : string) : string :=
  match s with
  | EmptyString => EmptyString
  | String c r => if is_space c then trimStart r else s
  end.

Fixpoint trimEnd (s : string) : string :=
  match s with
  | EmptyString => EmptyString
  | String c r =>
      match trimEnd r with
      | EmptyString => if is_space c then EmptyString else String c ""
      | r' => String c r'
      end
  end.

Definition trim (s : string) : string := trimEnd (trimStart s).

(** [Math.ceil(n / d)] on non-negative integers *)
Definition ceil_div (n d : nat) : nat :=
  if (n mod d =? 0)%nat then (n / d)%nat else S (n / d)%nat.

(** ["word ".repeat(n)] and the like *)
Fixpoint repeat_string (s : string) (n : nat) : string :=
  match n with
  | 0 => ""
  | S k => s ++ repeat_string s k
  end.

(** Truth value of a string: the empty string is falsy. *)
Definition truthy (s : string) : bool := negb (String.eqb s "").

(** Truth value of a possibly undefined string. *)
Definition truthy_opt (o : option string) : bool :=
  match o with Some s => truthy s | None => false end.

(** [o || d] on a possibly undefined string *)
Definition or_default (o : option string) (d : string) : string :=
  match o with
  | Some s => if truthy s then s else d
  | None => d
  end.

End JS.

(** ** Identifiers, dates, users and like entries *)

Definition ObjectId : Type := nat.
Definition Date : Type := nat.

(** [req.user] as the [auth] middleware leaves it. *)
Record User : Type := mkUser { id : ObjectId; role : string }.

(** An entry of the [likes] array of a post or of a comment. *)
Module Like.
Record t : Type := mk { user : ObjectId; createdAt : Date }.

#[global] Instance eq_dec : EqDecision t.
Proof. solve_decision. Defined.
End Like.

(** [likes.find((like) => like.user.toString() === req.user.id)] *)
Definition find_like (u : ObjectId) (ls : list Like.t) : option Like.t :=
  List.find (fun l => bool_decide (Like.user l = u)) ls.

(** [likes.filter((like) => like.user.toString() !== req.user.id)] *)
Definition remove_like (u : ObjectId) (ls : list Like.t) : list Like.t :=
  List.filter (fun l => negb (bool_decide (Like.user l = u))) ls.

(** [likes.push({ user: req.user.id })]; [createdAt] defaults to
    [Date.now]. *)
Definition push_like (u : ObjectId) (now : Date) (ls : list Like.t)
  : list Like.t :=
  ls ++ [Like.mk u now].

(** The like toggle shared by both routers. *)
Definition toggle_likes (u : ObjectId) (now : Date) (ls : list Like.t)
  : list Like.t :=
  match find_like u ls with
  | Some _ => remove_like u ls
  | None => push_like u now ls
  end.

(** ** models/Post *)

Module Post.
Record t : Type := mk {
  title : string;
  content : string;
  excerpt : option string;
  coverImage : string;
  author : ObjectId;
  tags : list string;
  category : string;
  status : string;
  views : nat;
  likes : list Like.t;
  likesCount : nat;
  commentsCount : nat;
  readTime : nat;
  slug : option string;
  publishedAt : option Date;
  featured : bool;
  seoTitle : string;
  seoDescription : string;
  createdAt : Date
}.

#[global] Instance eq_dec : EqDecision t.
Proof. solve_decision. Defined.

Definition set_title (v : string) (d : t) : t :=
  mk v (content d) (excerpt d) (coverImage d) (author d) (tags d)
     (category d) (status d) (views d) (likes d) (likesCount d)
     (commentsCount d) (readTime d) (slug d) (publishedAt d) (featured d)
     (seoTitle d) (seoDescription d) (createdAt d).

Definition set_content (v : string) (d : t) : t :=
  mk (title d) v (excerpt d) (coverImage d) (author d) (tags d)
     (category d) (status d) (views d) (likes d) (likesCount d)
     (commentsCount d) (readTime d) (slug d) (publishedAt d) (featured d)
     (seoTitle d) (seoDescription d) (createdAt d).

Definition set_excerpt (v : option string) (d : t) : t :=
  mk (title d) (content d) v (coverImage d) (author d) (tags d)
     (category d) (status d) (views d) (likes d) (likesCount d)
     (commentsCount d) (readTime d) (slug d) (publishedAt d) (featured d)
     (seoTitle d) (seoDescription d) (createdAt d).

Definition set_coverImage (v : string) (d : t) : t :=
  mk (title d) (content d) (excerpt d) v (author d) (tags d) (category d)
     (status d) (views d) (likes d) (likesCount d) (commentsCount d)
     (readTime d) (slug d) (publishedAt d) (featured d) (seoTitle d)
     (seoDescription d) (createdAt d).

Definition set_tags (v : list string) (d : t) : t :=
  mk (title d) (content d) (excerpt d) (coverImage d) (author d) v
     (category d) (status d) (views d) (likes d) (likesCount d)
     (commentsCount d) (readTime d) (slug d) (publishedAt d) (featured d)
     (seoTitle d) (seoDescription d) (createdAt d).

Definition set_category (v : string) (d : t) : t :=
  mk (title d) (content d) (excerpt d) (coverImage d) (author d) (tags d)
     v (status d) (views d) (likes d) (likesCount d) (commentsCount d)
     (readTime d) (slug d) (publishedAt d) (featured d) (seoTitle d)
     (seoDescription d) (createdAt d).

Definition set_status (v : string) (d : t) : t :=
  mk (title d) (content d) (excerpt d) (coverImage d) (author d) (tags d)
     (category d) v (views d) (likes d) (likesCount d) (commentsCount d)
     (readTime d) (slug d) (publishedAt d) (featured d) (seoTitle d)
     (seoDescription d) (createdAt d).

Definition set_views (v : nat) (d : t) : t :=
  mk (title d) (content d) (excerpt d) (coverImage d) (author d) (tags d)
     (category d) (status d) v (likes d) (likesCount d) (commentsCount d)
     (readTime d) (slug d) (publishedAt d) (featured d) (seoTitle d)
     (seoDescription d) (createdAt d).

Definition set_likes (v : list Like.t) (d : t) : t :=
  mk (title d) (content d) (excerpt d) (coverImage d) (author d) (tags d)
     (category d) (status d) (views d) v (likesCount d) (commentsCount d)
     (readTime d) (slug d) (publishedAt d) (featured d) (seoTitle d)
     (seoDescription d) (createdAt d).

Definition set_likesCount (v : nat) (d : t) : t :=
  mk (title d) (content d) (excerpt d) (coverImage d) (author d) (tags d)
     (category d) (status d) (views d) (likes d) v (commentsCount d)
     (readTime d) (slug d) (publishedAt d) (featured d) (seoTitle d)
     (seoDescription d) (createdAt d).

Definition set_commentsCount (v : nat) (d : t) : t :=
  mk (title d) (content d) (excerpt d) (coverImage d) (author d) (tags d)
     (category d) (status d) (views d) (likes d) (likesCount d) v
     (readTime d) (slug d) (publishedAt d) (featured d) (seoTitle d)
     (seoDescription d) (createdAt d).

Definition set_readTime (v : nat) (d : t) : t :=
  mk (title d) (content d) (excerpt d) (coverImage d) (author d) (tags d)
     (category d) (status d) (views d) (likes d) (likesCount d)
     (commentsCount d) v (slug d) (publishedAt d) (featured d)
     (seoTitle d) (seoDescription d) (createdAt d).

Definition set_slug (v : option string) (d : t) : t :=
  mk (title d) (content d) (excerpt d) (coverImage d) (author d) (tags d)
     (category d) (status d) (views d) (likes d) (likesCount d)
     (commentsCount d) (readTime d) v (publishedAt d) (featured d)
     (seoTitle d) (seoDescription d) (createdAt d).

Definition set_publishedAt (v : option Date) (d : t) : t :=
  mk (title d) (content d) (excerpt d) (coverImage d) (author d) (tags d)
     (category d) (status d) (views d) (likes d) (likesCount d)
     (commentsCount d) (readTime d) (slug d) v (featured d) (seoTitle d)
     (seoDescription d) (createdAt d).

Definition set_seoTitle (v : string) (d : t) : t :=
  mk (title d) (content d) (excerpt d) (coverImage d) (author d) (tags d)
     (category d) (status d) (views d) (likes d) (likesCount d)
     (commentsCount d) (readTime d) (slug d) (publishedAt d) (featured d)
     v (seoDescription d) (createdAt d).

Definition set_seoDescription (v : string) (d : t) : t :=
  mk (title d) (content d) (excerpt d) (coverImage d) (author d) (tags d)
     (category d) (status d) (views d) (likes d) (likesCount d)
     (commentsCount d) (readTime d) (slug d) (publishedAt d) (featured d)
     (seoTitle d) v (createdAt d).

(** [this.isModified(path)]: a path of a stored document is modified when
    its value differs from the stored one ([orig]); in a new document
    ([orig = None]) the paths given to the constructor are. *)
Definition isModified {A} `{EqDecision A} (f : t -> A) (given : bool)
    (orig : option t) (d : t) : bool :=
  match orig with
  | None => given
  | Some o => negb (bool_decide (f o = f d))
  end.

(** The slug of a title. *)
Definition slugify (title : string) : string :=
  JS.substring0 50 (JS.hyphenate (JS.strip_non_alnum (JS.toLowerCase title))).

Definition wordsPerMinute : nat := 200.

(** The read time of a content, in minutes. *)
Definition computeReadTime (content : string) : nat :=
  let words := length (JS.split_ws (JS.strip_tags content)) in
  JS.ceil_div words wordsPerMinute.

Definition makeExcerpt (content : string) : string :=
  JS.substring0 150 (JS.strip_tags content) ++ "...".

(** First [pre("save")] hook: slug, read time, excerpt, publication
    date. *)
Definition pre_save_derived (orig : option t) (now : Date) (d : t) : t :=
  let d1 :=
    if isModified title true orig d && negb (JS.truthy_opt (slug d))
    then set_slug (Some (slugify (title d))) d
    else d in
  let d2 :=
    if isModified content true orig d1
    then
      let d' := set_readTime (computeReadTime (content d1)) d1 in
      if negb (JS.truthy_opt (excerpt d'))
      then set_excerpt (Some (makeExcerpt (content d'))) d'
      else d'
    else d1 in
  if isModified status true orig d2
     && bool_decide (status d2 = "Published")
     && negb (bool_decide (is_Some (publishedAt d2)))
  then set_publishedAt (Some now) d2
  else d2.

(** Second [pre("save")] hook: the like counter. *)
Definition pre_save_likes (orig : option t) (d : t) : t :=
  if isModified likes false orig d
  then set_likesCount (length (likes d)) d
  else d.

Definition statuses : list string := ["Draft"; "Published"; "Archived"].

(** The messages of the schema validators that fail on a document, in the
    order of the schema. *)
Definition validate (d : t) : list string :=
  (if bool_decide (title d = "") then ["Title is required"]
   else if bool_decide (200 < String.length (title d))%nat
        then ["Title cannot exceed 200 characters"] else [])
  ++ (if bool_decide (content d = "") then ["Content is required"]
      else if bool_decide (String.length (content d) < 10)%nat
           then ["Content must be at least 10 characters"] else [])
  ++ (match excerpt d with
      | Some e => if bool_decide (300 < String.length e)%nat
                  then ["Excerpt cannot exceed 300 characters"] else []
      | None => []
      end)
  ++ (if bool_decide (status d ∈ statuses) then []
      else ["`" ++ status d ++ "` is not a valid enum value for path `status`."])
  ++ (if bool_decide (60 < String.length (seoTitle d))%nat
      then ["SEO title cannot exceed 60 characters"] else [])
  ++ (if bool_decide (160 < String.length (seoDescription d))%nat
      then ["SEO description cannot exceed 160 characters"] else []).
End Post.

(** ** models/Comment *)

Module Comment.
Record t : Type := mk {
  comment : string;
  post : ObjectId;
  userId : ObjectId;
  parentComment : option ObjectId;
  replies : list ObjectId;
  likes : list Like.t;
  likesCount : nat;
  isEdited : bool;
  editedAt : option Date;
  isDeleted : bool;
  deletedAt : option Date;
  createdAt : Date
}.

#[global] Instance eq_dec : EqDecision t.
Proof. solve_decision. Defined.

Definition set_comment (v : string) (d : t) : t :=
  mk v (post d) (userId d) (parentComment d) (replies d) (likes d)
     (likesCount d) (isEdited d) (editedAt d) (isDeleted d) (deletedAt d)
     (createdAt d).

Definition set_replies (v : list ObjectId) (d : t) : t :=
  mk (comment d) (post d) (userId d) (parentComment d) v (likes d)
     (likesCount d) (isEdited d) (editedAt d) (isDeleted d) (deletedAt d)
     (createdAt d).

Definition set_likes (v : list Like.t) (d : t) : t :=
  mk (comment d) (post d) (userId d) (parentComment d) (replies d) v
     (likesCount d) (isEdited d) (editedAt d) (isDeleted d) (deletedAt d)
     (createdAt d).

Definition set_likesCount (v : nat) (d : t) : t :=
  mk (comment d) (post d) (userId d) (parentComment d) (replies d)
     (likes d) v (isEdited d) (editedAt d) (isDeleted d) (deletedAt d)
     (createdAt d).

Definition set_isEdited (v : bool) (d : t) : t :=
  mk (comment d) (post d) (userId d) (parentComment d) (replies d)
     (likes d) (likesCount d) v (editedAt d) (isDeleted d) (deletedAt d)
     (createdAt d).

Definition set_editedAt (v : option Date) (d : t) : t :=
  mk (comment d) (post d) (userId d) (parentComment d) (replies d)
     (likes d) (likesCount d) (isEdited d) v (isDeleted d) (deletedAt d)
     (createdAt d).

Definition set_isDeleted (v : bool) (d : t) : t :=
  mk (comment d) (post d) (userId d) (parentComment d) (replies d)
     (likes d) (likesCount d) (isEdited d) (editedAt d) v (deletedAt d)
     (createdAt d).

Definition set_deletedAt (v : option Date) (d : t) : t :=
  mk (comment d) (post d) (userId d) (parentComment d) (replies d)
     (likes d) (likesCount d) (isEdited d) (editedAt d) (isDeleted d) v
     (createdAt d).

Definition isModified {A} `{EqDecision A} (f : t -> A) (given : bool)
    (orig : option t) (d : t) : bool :=
  match orig with
  | None => given
  | Some o => negb (bool_decide (f o = f d))
  end.

(** [this.isNew] *)
Definition isNew (orig : option t) : bool :=
  match orig with None => true | Some _ => false end.

(** [pre("save")] hook: the like counter and the edit mark. *)
Definition pre_save (orig : option t) (now : Date) (d : t) : t :=
  let d1 :=
    if isModified likes false orig d
    then set_likesCount (length (likes d)) d
    else d in
  if isModified comment true orig d1 && negb (isNew orig)
  then set_editedAt (Some now) (set_isEdited true d1)
  else d1.

Definition validate (d : t) : list string :=
  if bool_decide (comment d = "") then ["Comment content is required"]
  else if bool_decide (1000 < String.length (comment d))%nat
       then ["Comment cannot exceed 1000 characters"] else [].
End Comment.

(** ** The record stores *)

Record DB : Type := mkDB {
  posts : gmap ObjectId Post.t;
  comments : gmap ObjectId Comment.t;
  nextId : ObjectId
}.

Definition emptyDB : DB := mkDB ∅ ∅ 0.

Definition set_posts (ps : gmap ObjectId Post.t) (db : DB) : DB :=
  mkDB ps (comments db) (nextId db).

Definition set_comments (cs : gmap ObjectId Comment.t) (db : DB) : DB :=
  mkDB (posts db) cs (nextId db).

(** What [doc.save()] comes to: the stored document and the new store, the
    messages of a [ValidationError], or a duplicate key error of the
    store. *)
Inductive SaveResult (A : Type) : Type :=
| Saved (d : A) (db : DB)
| Invalid (errors : list string)
| DuplicateKey.

Arguments Saved {A} d db.
Arguments Invalid {A} errors.
Arguments DuplicateKey {A}.

(** The filter [{ post: pid, isDeleted: false }]. *)
Definition live_on (pid : ObjectId) (kc : ObjectId * Comment.t) : Prop :=
  Comment.post kc.2 = pid ∧ Comment.isDeleted kc.2 = false.

#[global] Instance live_on_dec pid kc : Decision (live_on pid kc).
Proof. unfold live_on. apply _. Defined.

(** [Comment.countDocuments({ post: pid, isDeleted: false })] *)
Definition countLive (pid : ObjectId) (cs : gmap ObjectId Comment.t) : nat :=
  size (filter (live_on pid) cs).

(** [commentSchema.post("save")]: the comment counter of the post is
    counted again and written back;
    [Post.findByIdAndUpdate(this.post, { commentsCount })] does nothing when
    the post is missing. *)
Definition syncCommentsCount (pid : ObjectId) (db : DB) : DB :=
  set_posts
    (alter (Post.set_commentsCount (countLive pid (comments db))) pid (posts db))
    db.

(** The unique sparse index on [slug]: another post holds the slug. *)
Definition slug_taken (id : ObjectId) (s : option string)
    (ps : gmap ObjectId Post.t) : bool :=
  match s with
  | None => false
  | Some v => bool_decide (map_Exists (fun i p => i ≠ id ∧ Post.slug p = Some v) ps)
  end.

(** [post.save()]: schema validation, the two [pre("save")] hooks, then
    the write.  [orig] is the document as it was loaded, [None] for a new
    one, which is inserted under the identifier [id]. *)
Definition Post_save (orig : option Post.t) (id : ObjectId) (d : Post.t)
    (now : Date) (db : DB) : SaveResult Post.t :=
  match Post.validate d with
  | [] =>
      let d' := Post.pre_save_likes orig (Post.pre_save_derived orig now d) in
      match orig with
      | None =>
          if bool_decide (is_Some (posts db !! id)) || slug_taken id (Post.slug d') (posts db)
          then DuplicateKey
          else Saved d' (mkDB (<[id:=d']> (posts db)) (comments db) (S (nextId db)))
      | Some o =>
          if negb (bool_decide (Post.slug o = Post.slug d'))
             && slug_taken id (Post.slug d') (posts db)
          then DuplicateKey
          else Saved d' (set_posts (<[id:=d']> (posts db)) db)
      end
  | errors => Invalid errors
  end.

(** [comment.save()]: schema validation, the [pre("save")] hook, the
    write, then the [post("save")] hook. *)
Definition Comment_save (orig : option Comment.t) (id : ObjectId)
    (d : Comment.t) (now : Date) (db : DB) : SaveResult Comment.t :=
  match Comment.validate d with
  | [] =>
      let d' := Comment.pre_save orig now d in
      match orig with
      | None =>
          if bool_decide (is_Some (comments db !! id)) then DuplicateKey
          else
            Saved d'
              (syncCommentsCount (Comment.post d')
                 (mkDB (posts db) (<[id:=d']> (comments db)) (S (nextId db))))
      | Some _ =>
          Saved d'
            (syncCommentsCount (Comment.post d')
               (set_comments (<[id:=d']> (comments db)) db))
      end
  | errors => Invalid errors
  end.

(** ** Responses *)

Inductive Payload : Type :=
| Info (message : string)
| PostDoc (id : ObjectId) (post : Post.t)
| CommentDoc (id : ObjectId) (comment : Comment.t)
| LikeResult (message : string) (likesCount : nat) (liked : bool)
| CommentPage
    (comments : list (ObjectId * Comment.t * list (ObjectId * Comment.t)))
    (totalComments : nat).

(** [res.status(status).json(body)] *)
Inductive Response : Type :=
| Json (status : nat) (body : Payload).

(** [errors.join(", ")] *)
Definition join_errors (errors : list string) : string :=
  String.concat ", " errors.

(** The failure kinds of the specification. *)
Inductive ErrorKind : Type :=
| NotFound | Forbidden | ValidationError | InvalidState | InvalidParent
| Fatal.

#[global] Instance ErrorKind_eq_dec : EqDecision ErrorKind.
Proof. solve_decision. Defined.

Definition invalid_state_messages : list string :=
  ["Cannot comment on unpublished posts"; "Cannot edit deleted comment";
   "Cannot like deleted comment"].

(** The failure kind a response stands for: by status, and among the
    responses of status 400 by message. *)
Definition kind_of (r : Response) : option ErrorKind :=
  match r with
  | Json 404 _ => Some NotFound
  | Json 403 _ => Some Forbidden
  | Json 400 (Info m) =>
      if bool_decide (m ∈ invalid_state_messages) then Some InvalidState
      else if bool_decide (m = "Invalid parent comment") then Some InvalidParent
      else Some ValidationError
  | Json 500 _ => Some Fatal
  | _ => None
  end.

Definition succeeds (r : Response) : Prop := kind_of r = None.

(** ** routes/posts *)

(** [req.body] of the post routes; [None] is [undefined]. *)
Record PostBody : Type := mkPostBody {
  b_title : option string;
  b_content : option string;
  b_tags : option (list string);
  b_category : option string;
  b_coverImage : option string;
  b_status : option string;
  b_seoTitle : option string;
  b_seoDescription : option string
}.

(** The setters [trim] and [lowercase] of the schema path [tags]. *)
Definition cast_tags (tags : list string) : list string :=
  List.map (fun s => JS.toLowerCase (JS.trim s)) tags.

(** [new Post({ ... })] of the create route, with the schema defaults. *)
Definition newPost (user : User) (b : PostBody) (now : Date) : Post.t :=
  Post.mk
    (JS.trim (default "" (b_title b)))
    (default "" (b_content b))
    None
    (JS.or_default (b_coverImage b) "")
    (id user)
    (cast_tags (default [] (b_tags b)))
    (JS.trim (JS.or_default (b_category b) "Other"))
    (JS.or_default (b_status b) "Draft")
    0 [] 0 0 1 None None false
    (JS.or_default (b_seoTitle b) "")
    (JS.or_default (b_seoDescription b) "")
    now.

(** [POST /api/posts] *)
Definition createPost (user : User) (b : PostBody) (now : Date) (db : DB)
  : Response * DB :=
  if negb (JS.truthy_opt (b_title b)) || negb (JS.truthy_opt (b_content b))
  then (Json 400 (Info "Title and content are required"), db)
  else
    match Post_save None (nextId db) (newPost user b now) now db with
    | Saved post db' => (Json 201 (PostDoc (nextId db) post), db')
    | Invalid errors => (Json 400 (Info (join_errors errors)), db)
    | DuplicateKey => (Json 500 (Info "Server error creating post"), db)
    end.

(** The assignments of the update route. *)
Definition applyPostBody (b : PostBody) (post : Post.t) : Post.t :=
  let p1 := match b_title b with
            | Some v => if JS.truthy v then Post.set_title (JS.trim v) post else post
            | None => post end in
  let p2 := match b_content b with
            | Some v => if JS.truthy v then Post.set_content v p1 else p1
            | None => p1 end in
  let p3 := match b_tags b with
            | Some v => Post.set_tags (cast_tags v) p2
            | None => p2 end in
  let p4 := match b_category b with
            | Some v => if JS.truthy v then Post.set_category (JS.trim v) p3 else p3
            | None => p3 end in
  let p5 := match b_coverImage b with
            | Some v => Post.set_coverImage v p4
            | None => p4 end in
  let p6 := match b_status b with
            | Some v => if JS.truthy v then Post.set_status v p5 else p5
            | None => p5 end in
  let p7 := match b_seoTitle b with
            | Some v => Post.set_seoTitle v p6
            | None => p6 end in
  match b_seoDescription b with
  | Some v => Post.set_seoDescription v p7
  | None => p7
  end.

(** [post.author.toString() !== req.user.id && req.user.role !== "admin"] *)
Definition denied (owner : ObjectId) (user : User) : bool :=
  negb (bool_decide (owner = id user)) && negb (bool_decide (role user = "admin")).

(** [PUT /api/posts/:id] *)
Definition updatePost (user : User) (pid : ObjectId) (b : PostBody)
    (now : Date) (db : DB) : Response * DB :=
  match posts db !! pid with
  | None => (Json 404 (Info "Post not found"), db)
  | Some post =>
      if denied (Post.author post) user
      then (Json 403 (Info "Access denied"), db)
      else
        match Post_save (Some post) pid (applyPostBody b post) now db with
        | Saved post' db' => (Json 200 (PostDoc pid post'), db')
        | Invalid errors => (Json 400 (Info (join_errors errors)), db)
        | DuplicateKey => (Json 500 (Info "Server error updating post"), db)
        end
  end.

(** [Comment.deleteMany({ post: pid })] *)
Definition Comment_deleteMany_post (pid : ObjectId) (db : DB) : DB :=
  set_comments (filter (fun kc => Comment.post kc.2 ≠ pid) (comments db)) db.

(** [Post.findByIdAndDelete(pid)] *)
Definition Post_findByIdAndDelete (pid : ObjectId) (db : DB) : DB :=
  set_posts (delete pid (posts db)) db.

(** [DELETE /api/posts/:id] *)
Definition deletePost (user : User) (pid : ObjectId) (db : DB)
  : Response * DB :=
  match posts db !! pid with
  | None => (Json 404 (Info "Post not found"), db)
  | Some post =>
      if denied (Post.author post) user
      then (Json 403 (Info "Access denied"), db)
      else
        let db1 := Comment_deleteMany_post pid db in
        let db2 := Post_findByIdAndDelete pid db1 in
        (Json 200 (Info "Post deleted successfully"), db2)
  end.

(** The stores that [DELETE /api/posts/:id] goes through: the store after
    each write that the handler awaits, in the order of the writes
    ([Comment.deleteMany], then [Post.findByIdAndDelete]); a request that
    is refused writes nothing. *)
Definition deletePost_stores (user : User) (pid : ObjectId) (db : DB)
  : list DB :=
  match posts db !! pid with
  | None => []
  | Some post =>
      if denied (Post.author post) user
      then []
      else
        let db1 := Comment_deleteMany_post pid db in
        let db2 := Post_findByIdAndDelete pid db1 in
        [db1; db2]
  end.

(** [POST /api/posts/:id/like] *)
Definition togglePostLike (user : User) (pid : ObjectId) (now : Date)
    (db : DB) : Response * DB :=
  match posts db !! pid with
  | None => (Json 404 (Info "Post not found"), db)
  | Some post =>
      let existingLike := find_like (id user) (Post.likes post) in
      let post1 := Post.set_likes (toggle_likes (id user) now (Post.likes post)) post in
      match Post_save (Some post) pid post1 now db with
      | Saved post' db' =>
          (Json 200
             (LikeResult
                (match existingLike with
                 | Some _ => "Post unliked"
                 | None => "Post liked"
                 end)
                (Post.likesCount post')
                (negb (bool_decide (is_Some existingLike)))),
           db')
      | _ => (Json 500 (Info "Server error liking post"), db)
      end
  end.

(** [GET /api/posts/:id]; [user] is what [optionalAuth] found. *)
Definition getPost (user : option User) (pid : ObjectId) (now : Date)
    (db : DB) : Response * DB :=
  match posts db !! pid with
  | None => (Json 404 (Info "Post not found"), db)
  | Some post =>
      let published := bool_decide (Post.status post = "Published") in
      let hidden :=
        negb published
        && match user with
           | None => true
           | Some u => denied (Post.author post) u
           end in
      if hidden then (Json 404 (Info "Post not found"), db)
      else
        let counted :=
          published
          && match user with
             | None => true
             | Some u => negb (bool_decide (id u = Post.author post))
             end in
        if counted
        then
          match Post_save (Some post) pid (Post.set_views (Post.views post + 1) post) now db with
          | Saved post' db' => (Json 200 (PostDoc pid post'), db')
          | _ => (Json 500 (Info "Server error fetching post"), db)
          end
        else (Json 200 (PostDoc pid post), db)
  end.

(** ** routes/comments *)

(** [!comment || comment.trim().length === 0] *)
Definition blank (comment : option string) : bool :=
  match comment with
  | None => true
  | Some v => negb (JS.truthy v) || (String.length (JS.trim v) =? 0)%nat
  end.

(** The replies of a comment that [populate] keeps:
    [match: { isDeleted: false }]. *)
Definition populateReplies (cs : gmap ObjectId Comment.t) (c : Comment.t)
  : list (ObjectId * Comment.t) :=
  omap
    (fun rid =>
       match cs !! rid with
       | Some r => if Comment.isDeleted r then None else Some (rid, r)
       | None => None
       end)
    (Comment.replies c).

(** The filter [{ post: pid, isDeleted: false, parentComment: null }]. *)
Definition top_level_on (pid : ObjectId) (kc : ObjectId * Comment.t) : Prop :=
  live_on pid kc ∧ Comment.parentComment kc.2 = None.

#[global] Instance top_level_on_dec pid kc : Decision (top_level_on pid kc).
Proof. unfold top_level_on. apply _. Defined.

(** [sort({ createdAt: -1 })] *)
Definition newer_first (a b : ObjectId * Comment.t) : Prop :=
  (Comment.createdAt b.2 ≤ Comment.createdAt a.2)%nat.

#[global] Instance newer_first_dec a b : Decision (newer_first a b).
Proof. unfold newer_first. apply _. Defined.

(** The natural numbers that a JavaScript number holds exactly: those up
    to [Number.MAX_SAFE_INTEGER], that is 2^53 - 1. *)
Definition safe_integer (n : nat) : Prop := (N.of_nat n ≤ 9007199254740991)%N.

#[global] Instance safe_integer_dec n : Decision (safe_integer n).
Proof. unfold safe_integer. apply _. Defined.

(** [Number.parseInt(req.query.page) || 1]; [0] stands for a missing
    value too.  The value read from the query is a natural number, given
    as it is written: it is the number the code computes with as long as
    it is a [safe_integer]; beyond that the code's number is the nearest
    double, which this function does not follow. *)
Definition or_nat (n d : nat) : nat := if (n =? 0)%nat then d else n.

(** [GET /api/comments/:postId] *)
Definition listComments (pid : ObjectId) (q_page q_limit : nat) (db : DB)
  : Response :=
  let page := or_nat q_page 1 in
  let limit := or_nat q_limit 20 in
  let skip := (page - 1) * limit in
  match posts db !! pid with
  | None => Json 404 (Info "Post not found")
  | Some _ =>
      let found := map_to_list (filter (top_level_on pid) (comments db)) in
      let shown := take limit (drop skip (merge_sort newer_first found)) in
      Json 200
        (CommentPage
           (List.map (fun kc => (kc, populateReplies (comments db) kc.2)) shown)
           (length found))
  end.

(** [new Comment({ ... })] of the create route, with the schema
    defaults. *)
Definition newComment (user : User) (pid : ObjectId) (comment : string)
    (parentComment : option ObjectId) (now : Date) : Comment.t :=
  Comment.mk (JS.trim comment) pid (id user) parentComment [] [] 0 false None
    false None now.

(** [Comment.findByIdAndUpdate(parent, { $push: { replies: cid } })] *)
Definition pushReply (parent cid : ObjectId) (db : DB) : DB :=
  set_comments
    (alter (fun p => Comment.set_replies (Comment.replies p ++ [cid]) p) parent
       (comments db))
    db.

(** The check of the parent comment of a reply:
    [!parentCommentDoc || parentCommentDoc.post.toString() !== postId]. *)
Definition invalidParent (pid parent : ObjectId) (db : DB) : bool :=
  match comments db !! parent with
  | None => true
  | Some parentCommentDoc => negb (bool_decide (Comment.post parentCommentDoc = pid))
  end.

(** [POST /api/comments/:postId] *)
Definition createComment (user : User) (pid : ObjectId)
    (comment : option string) (parentComment : option ObjectId) (now : Date)
    (db : DB) : Response * DB :=
  if blank comment
  then (Json 400 (Info "Comment content is required"), db)
  else
    match posts db !! pid with
    | None => (Json 404 (Info "Post not found"), db)
    | Some post =>
        if negb (bool_decide (Post.status post = "Published"))
        then (Json 400 (Info "Cannot comment on unpublished posts"), db)
        else
          if match parentComment with
             | Some parent => invalidParent pid parent db
             | None => false
             end
          then (Json 400 (Info "Invalid parent comment"), db)
          else
            let doc := newComment user pid (default "" comment) parentComment now in
            match Comment_save None (nextId db) doc now db with
            | Saved c db1 =>
                (Json 201 (CommentDoc (nextId db) c),
                 match parentComment with
                 | Some parent => pushReply parent (nextId db) db1
                 | None => db1
                 end)
            | Invalid errors => (Json 400 (Info (join_errors errors)), db)
            | DuplicateKey => (Json 500 (Info "Server error adding comment"), db)
            end
    end.

(** [PUT /api/comments/:commentId] *)
Definition updateComment (user : User) (cid : ObjectId)
    (comment : option string) (now : Date) (db : DB) : Response * DB :=
  if blank comment
  then (Json 400 (Info "Comment content is required"), db)
  else
    match comments db !! cid with
    | None => (Json 404 (Info "Comment not found"), db)
    | Some existingComment =>
        if Comment.isDeleted existingComment
        then (Json 400 (Info "Cannot edit deleted comment"), db)
        else
          if negb (bool_decide (Comment.userId existingComment = id user))
          then (Json 403 (Info "Access denied"), db)
          else
            let doc := Comment.set_comment (JS.trim (default "" comment)) existingComment in
            match Comment_save (Some existingComment) cid doc now db with
            | Saved c db' => (Json 200 (CommentDoc cid c), db')
            | Invalid errors => (Json 400 (Info (join_errors errors)), db)
            | DuplicateKey => (Json 500 (Info "Server error updating comment"), db)
            end
    end.

Definition deletedPlaceholder : string := "[This comment has been deleted]".

(** [DELETE /api/comments/:commentId] *)
Definition deleteComment (user : User) (cid : ObjectId) (now : Date)
    (db : DB) : Response * DB :=
  match comments db !! cid with
  | None => (Json 404 (Info "Comment not found"), db)
  | Some comment =>
      if denied (Comment.userId comment) user
      then (Json 403 (Info "Access denied"), db)
      else
        let doc :=
          Comment.set_comment deletedPlaceholder
            (Comment.set_deletedAt (Some now)
               (Comment.set_isDeleted true comment)) in
        match Comment_save (Some comment) cid doc now db with
        | Saved _ db' => (Json 200 (Info "Comment deleted successfully"), db')
        | _ => (Json 500 (Info "Server error deleting comment"), db)
        end
  end.

(** [POST /api/comments/:commentId/like] *)
Definition toggleCommentLike (user : User) (cid : ObjectId) (now : Date)
    (db : DB) : Response * DB :=
  match comments db !! cid with
  | None => (Json 404 (Info "Comment not found"), db)
  | Some comment =>
      if Comment.isDeleted comment
      then (Json 400 (Info "Cannot like deleted comment"), db)
      else
        let existingLike := find_like (id user) (Comment.likes comment) in
        let doc :=
          Comment.set_likes (toggle_likes (id user) now (Comment.likes comment))
            comment in
        match Comment_save (Some comment) cid doc now db with
        | Saved c db' =>
            (Json 200
               (LikeResult
                  (match existingLike with
                   | Some _ => "Comment unliked"
                   | None => "Comment liked"
                   end)
                  (Comment.likesCount c)
                  (negb (bool_decide (is_Some existingLike)))),
             db')
        | _ => (Json 500 (Info "Server error liking comment"), db)
        end
  end.

(** ** The read time as the specification words it *)

(** The number of whitespace-separated words of a text: the maximal runs
    of code units that are not whitespace.  [in_word] tells that the
    preceding code unit belongs to a word. *)
Fixpoint count_words_from (in_word : bool) (s : string) : nat :=
  match s with
  | EmptyString => 0
  | String c r =>
      if JS.is_space c then count_words_from false r
      else (if in_word then 0 else 1) + count_words_from true r
  end.

Definition count_words (s : string) : nat := count_words_from false s.

(** Strip the tags, count the words, divide by 200 words a minute, round
    up, at least 1. *)
Definition readTime_spec (content : string) : nat :=
  Nat.max 1 (JS.ceil_div (count_words (JS.strip_tags content)) 200).

(** The empty pieces that [split(/\s+/)] returns besides the words: one
    when the text is empty or starts with whitespace, one when it ends
    with whitespace. *)
Fixpoint ends_with_space (s : string) : bool :=
  match s with
  | EmptyString => false
  | String c EmptyString => JS.is_space c
  | String _ r => ends_with_space r
  end.

Definition starts_with_space (s : string) : bool :=
  match s with
  | EmptyString => true
  | String c _ => JS.is_space c
  end.

Definition edge_pieces (s : string) : nat :=
  (if starts_with_space s then 1 else 0) + (if ends_with_space s then 1 else 0).

(** ** Observations on responses and stores *)

(** The comment [cid] occurs in the page of a list response, as a
    top-level comment or among the populated replies of one. *)
Definition listed (cid : ObjectId) (r : Response) : Prop :=
  match r with
  | Json _ (CommentPage cs _) =>
      ∃ e, e ∈ cs ∧ (e.1.1 = cid ∨ cid ∈ (List.map fst e.2))
  | _ => False
  end.

(** The users that have a like entry. *)
Definition likers (ls : list Like.t) : list ObjectId := List.map Like.user ls.

(** The share of one comment in the count of the post [q]. *)
Definition share (q : ObjectId) (c : Comment.t) : nat :=
  if decide (Comment.post c = q ∧ Comment.isDeleted c = false) then 1 else 0.

(** ** Runs of the service *)

(** One request to a handler that writes. *)
Inductive step (db : DB) : DB -> Prop :=
| step_createPost user b now :
    step db (createPost user b now db).2
| step_updatePost user pid b now :
    step db (updatePost user pid b now db).2
| step_deletePost user pid :
    step db (deletePost user pid db).2
| step_togglePostLike user pid now :
    step db (togglePostLike user pid now db).2
| step_getPost user pid now :
    step db (getPost user pid now db).2
| step_createComment user pid comment parent now :
    step db (createComment user pid comment parent now db).2
| step_updateComment user cid comment now :
    step db (updateComment user cid comment now db).2
| step_deleteComment user cid now :
    step db (deleteComment user cid now db).2
| step_toggleCommentLike user cid now :
    step db (toggleCommentLike user cid now db).2.

(** The stores that the handlers can produce from the empty one. *)
Definition reachable (db : DB) : Prop := rtc step emptyDB db.

(** ** Consistency of a store *)

(** What the validators of the post schema ask for. *)
Definition valid_post (d : Post.t) : Prop :=
  Post.title d ≠ "" ∧ (String.length (Post.title d) ≤ 200)%nat
  ∧ Post.content d ≠ "" ∧ (10 ≤ String.length (Post.content d))%nat
  ∧ (∀ e, Post.excerpt d = Some e → (String.length e ≤ 300)%nat)
  ∧ Post.status d ∈ Post.statuses
  ∧ (String.length (Post.seoTitle d) ≤ 60)%nat
  ∧ (String.length (Post.seoDescription d) ≤ 160)%nat.

Definition post_ok (p : Post.t) : Prop :=
  Post.likesCount p = length (Post.likes p)
  ∧ (Post.status p = "Published" → is_Some (Post.publishedAt p))
  ∧ Post.validate p = [].

Definition comment_ok (c : Comment.t) : Prop :=
  Comment.likesCount c = length (Comment.likes c)
  ∧ Comment.validate c = [].

(** A reply is linked to a stored parent on the same post, which lists
    it. *)
Definition linked (cs : gmap ObjectId Comment.t) (cid : ObjectId)
    (c : Comment.t) : Prop :=
  ∀ q, Comment.parentComment c = Some q →
    ∃ pc, cs !! q = Some pc ∧ Comment.post pc = Comment.post c
          ∧ cid ∈ Comment.replies pc.

Record consistent (db : DB) : Prop := mkConsistent {
  posts_ok : map_Forall (fun _ p => post_ok p) (posts db);
  comments_ok : map_Forall (fun _ c => comment_ok c) (comments db);
  counts_ok :
    map_Forall (fun pid p => Post.commentsCount p = countLive pid (comments db))
      (posts db);
  refs_ok :
    map_Forall (fun _ c => is_Some (posts db !! Comment.post c)) (comments db);
  links_ok : map_Forall (linked (comments db)) (comments db);
  posts_fresh : ∀ i, is_Some (posts db !! i) → (i < nextId db)%nat;
  comments_fresh : ∀ i, is_Some (comments db !! i) → (i < nextId db)%nat
}.

(** What a post keeps from one store to a later one: its author, its
    creation date, its publication date once it has one, and its slug once
    it has one that is not empty. *)
Definition post_evolves (p p' : Post.t) : Prop :=
  Post.author p' = Post.author p
  ∧ Post.createdAt p' = Post.createdAt p
  ∧ (is_Some (Post.publishedAt p) → Post.publishedAt p' = Post.publishedAt p)
  ∧ (JS.truthy_opt (Post.slug p) = true → Post.slug p' = Post.slug p).

(** ** Sample users and request bodies *)

Definition alice : User := mkUser 100 "user".
Definition bob : User := mkUser 101 "user".
Definition root : User := mkUser 102 "admin".

(** A create request that gives a title, a content and maybe a status. *)
Definition post_body (title content : string) (status : option string)
  : PostBody :=
  mkPostBody (Some title) (Some content) None None None status None None.

(** An update request that gives a title only. *)
Definition patch_title (title : string) : PostBody :=
  mkPostBody (Some title) None None None None None None None.

(** An update request that gives a status only. *)
Definition patch_status (status : string) : PostBody :=
  mkPostBody None None None None None (Some status) None None.

(** A store with one draft post of [alice], and that post. *)
Definition draft_db : DB :=
  (createPost alice (post_body "Title" "some content" None) 1 emptyDB).2.

Definition draft_post : Post.t :=
  Post.mk "Title" "some content" (Some "some content...") "" 100 [] "Other"
    "Draft" 0 [] 0 0 1 (Some "title") None false "" "" 1.

(** A store with one published post of [alice]. *)
Definition published_db : DB :=
  (createPost alice (post_body "Title" "some content" (Some "Published")) 1 emptyDB).2.


(** ** The writes of one request *)

(** Both [pre("save")] hooks of the post schema, in their order. *)
Definition Post_hooks (orig : option Post.t) (now : Date) (d : Post.t) : Post.t :=
  Post.pre_save_likes orig (Post.pre_save_derived orig now d).

(** The documents that the handlers hand to [post.save()] for a stored
    post: the update route, the like route and the view of the read
    route. *)
Inductive post_edit (o : Post.t) : Post.t -> Prop :=
| edit_body b : post_edit o (applyPostBody b o)
| edit_likes u now :
    post_edit o (Post.set_likes (toggle_likes u now (Post.likes o)) o)
| edit_views : post_edit o (Post.set_views (Post.views o + 1) o).

(** What one request does to the post collection. *)
Inductive posts_write (db : DB) : gmap ObjectId Post.t -> Prop :=
| pw_none : posts_write db (posts db)
| pw_create user b now :
    JS.truthy_opt (b_title b) = true -> JS.truthy_opt (b_content b) = true ->
    Post.validate (newPost user b now) = [] ->
    posts db !! nextId db = None ->
    posts_write db
      (<[nextId db:=Post_hooks None now (newPost user b now)]> (posts db))
| pw_save pid o d now :
    posts db !! pid = Some o -> post_edit o d -> Post.validate d = [] ->
    posts_write db (<[pid:=Post_hooks (Some o) now d]> (posts db))
| pw_delete pid : posts_write db (delete pid (posts db))
| pw_count pid n :
    posts_write db (alter (Post.set_commentsCount n) pid (posts db)).

(** The documents that the handlers hand to [comment.save()] for a stored
    comment: the update route (the author, on a comment that is not
    deleted), the delete route and the like route (on a comment that is
    not deleted). *)
Inductive comment_edit (o : Comment.t) (now : Date) : Comment.t -> Prop :=
| cedit_text user v :
    Comment.isDeleted o = false -> Comment.userId o = id user ->
    blank (Some v) = false ->
    comment_edit o now (Comment.set_comment (JS.trim v) o)
| cedit_delete user :
    denied (Comment.userId o) user = false ->
    comment_edit o now
      (Comment.set_comment deletedPlaceholder
         (Comment.set_deletedAt (Some now) (Comment.set_isDeleted true o)))
| cedit_likes u :
    Comment.isDeleted o = false ->
    comment_edit o now
      (Comment.set_likes (toggle_likes u now (Comment.likes o)) o).

(** [$push: { replies: cid }] on one comment *)
Definition push_reply (cid : ObjectId) (p : Comment.t) : Comment.t :=
  Comment.set_replies (Comment.replies p ++ [cid]) p.

(** What one request does to the comment collection; [ps] is the post
    collection after the request. *)
Inductive comments_write (db : DB) (ps : gmap ObjectId Post.t)
  : gmap ObjectId Comment.t -> Prop :=
| cw_none : comments_write db ps (comments db)
| cw_create user pid v now post :
    blank (Some v) = false -> posts db !! pid = Some post ->
    Post.status post = "Published" ->
    Comment.validate (newComment user pid v None now) = [] ->
    comments db !! nextId db = None ->
    comments_write db ps
      (<[nextId db:=newComment user pid v None now]> (comments db))
| cw_reply user pid v parent pc now post :
    blank (Some v) = false -> posts db !! pid = Some post ->
    Post.status post = "Published" ->
    comments db !! parent = Some pc -> Comment.post pc = pid ->
    Comment.validate (newComment user pid v (Some parent) now) = [] ->
    comments db !! nextId db = None ->
    comments_write db ps
      (<[parent:=push_reply (nextId db) pc]>
         (<[nextId db:=newComment user pid v (Some parent) now]> (comments db)))
| cw_save cid o d now :
    comments db !! cid = Some o -> comment_edit o now d ->
    Comment.validate d = [] ->
    comments_write db ps
      (<[cid:=Comment.pre_save (Some o) now d]> (comments db))
| cw_cascade pid post :
    posts db !! pid = Some post -> ps = delete pid (posts db) ->
    comments_write db ps
      (filter (fun kc : ObjectId * Comment.t => Comment.post kc.2 ≠ pid)
         (comments db)).

(** A store with a published post, a comment on it and a reply to the
    comment. *)
Definition thread_db : DB :=
  (createComment alice 0 (Some "second") (Some 1) 3
     (createComment bob 0 (Some "first") None 2 published_db).2).2.

(** The post of [published_db]. *)
Definition published_post : Post.t :=
  Post.mk "Title" "some content" (Some "some content...") "" 100 [] "Other"
    "Published" 0 [] 0 0 1 (Some "title") (Some 1) false "" "" 1.

(** Every code unit of a string satisfies a test. *)
Fixpoint all_units (P : ascii -> bool) (s : string) : bool :=
  match s with
  | EmptyString => true
  | String c r => P c && all_units P r
  end.

(** The code units of a slug: lower-case letters, digits and the
    hyphen. *)
Definition is_slug_unit (c : ascii) : bool :=
  JS.is_lower c || JS.is_digit c || Ascii.eqb c "-".

(** No two hyphens in a row. *)
Fixpoint single_hyphens (s : string) : bool :=
  match s with
  | EmptyString => true
  | String c r =>
      match r with
      | String c' _ => negb (Ascii.eqb c "-" && Ascii.eqb c' "-")
      | EmptyString => true
      end && single_hyphens r
  end.

(** [sort({ publishedAt: -1 })]; a missing date sorts last. *)
Definition later_published (a b : ObjectId * Post.t) : Prop :=
  match Post.publishedAt a.2, Post.publishedAt b.2 with
  | Some x, Some y => (y ≤ x)%nat
  | Some _, None => True
  | None, Some _ => False
  | None, None => True
  end.

#[global] Instance later_published_dec a b : Decision (later_published a b).
Proof.
  unfold later_published.
  destruct (Post.publishedAt a.2), (Post.publishedAt b.2); apply _.
Defined.

(** The filter [{ status: "Published", featured: true }]. *)
Definition featured_on (kp : ObjectId * Post.t) : Prop :=
  Post.status kp.2 = "Published" ∧ Post.featured kp.2 = true.

#[global] Instance featured_on_dec kp : Decision (featured_on kp).
Proof. unfold featured_on. apply _. Defined.

(** [GET /api/posts/featured]: the posts of the response. *)
Definition featuredPosts (db : DB) : list (ObjectId * Post.t) :=
  take 5 (merge_sort later_published (map_to_list (filter featured_on (posts db)))).

(** What a comment keeps from one store to a later one: its post, author,
    parent and creation date; the replies it has, at the front of its
    replies; and, once it is deleted and shows the placeholder, everything
    but the date of the deletion. *)
Definition comment_evolves (c c' : Comment.t) : Prop :=
  Comment.post c' = Comment.post c
  ∧ Comment.userId c' = Comment.userId c
  ∧ Comment.parentComment c' = Comment.parentComment c
  ∧ Comment.createdAt c' = Comment.createdAt c
  ∧ Comment.replies c `prefix_of` Comment.replies c'
  ∧ (Comment.isDeleted c = true → Comment.comment c = deletedPlaceholder →
     Comment.isDeleted c' = true
     ∧ Comment.comment c' = deletedPlaceholder
     ∧ Comment.likes c' = Comment.likes c
     ∧ Comment.likesCount c' = Comment.likesCount c
     ∧ Comment.isEdited c' = Comment.isEdited c
     ∧ Comment.editedAt c' = Comment.editedAt c).

(** A text does not start with whitespace. *)
Definition no_leading_space (s : string) : bool :=
  match s with
  | EmptyString => true
  | String c _ => negb (JS.is_space c)
  end.

(** No ["<"] of the text has a [">"] after it: the text has no tag. *)
Fixpoint no_tag (s : string) : bool :=
  match s with
  | EmptyString => true
  | String c r =>
      (if Ascii.eqb c "<" then negb (JS.has_gt r) else true) && no_tag r
  end.

(** The [pagination] object of the list responses. *)
Record Pagination : Type := mkPagination {
  currentPage : nat;
  totalPages : nat;
  totalItems : nat;
  hasNext : bool;
  hasPrev : bool
}.

Definition pagination (page limit total : nat) : Pagination :=
  mkPagination page (JS.ceil_div total limit) total
    (page <? JS.ceil_div total limit)%nat (1 <? page)%nat.

(** The [pagination] object of [GET /api/comments/:postId], for a page,
    a limit and a count that are [safe_integer]s. *)
Definition listComments_pagination (pid : ObjectId) (q_page q_limit : nat)
    (db : DB) : option Pagination :=
  match posts db !! pid with
  | None => None
  | Some _ =>
      Some (pagination (or_nat q_page 1) (or_nat q_limit 20)
              (length (map_to_list (filter (top_level_on pid) (comments db)))))
  end.

(** ** routes/user *)

(** The filter [{ author: userId }]. *)
Definition by_author (u : ObjectId) (kp : ObjectId * Post.t) : Prop :=
  Post.author kp.2 = u.

#[global] Instance by_author_dec u kp : Decision (by_author u kp).
Proof. unfold by_author. apply _. Defined.

(** The filter [{ author: userId, status }]. *)
Definition by_author_status (u : ObjectId) (s : string)
    (kp : ObjectId * Post.t) : Prop :=
  Post.author kp.2 = u ∧ Post.status kp.2 = s.

#[global] Instance by_author_status_dec u s kp :
  Decision (by_author_status u s kp).
Proof. unfold by_author_status. apply _. Defined.

(** The filter [{ userId, isDeleted: false }]. *)
Definition live_by (u : ObjectId) (kc : ObjectId * Comment.t) : Prop :=
  Comment.userId kc.2 = u ∧ Comment.isDeleted kc.2 = false.

#[global] Instance live_by_dec u kc : Decision (live_by u kc).
Proof. unfold live_by. apply _. Defined.

(** The counts of [GET /api/user/stats]; the sum of the views, which the
    route takes from an aggregation pipeline, is left out. *)
Record UserStats : Type := mkUserStats {
  stats_total : nat;
  stats_published : nat;
  stats_drafts : nat;
  stats_comments : nat
}.

(** [GET /api/user/stats]: the four [countDocuments]. *)
Definition userStats (user : User) (db : DB) : UserStats :=
  let userId := id user in
  mkUserStats
    (size (filter (by_author userId) (posts db)))
    (size (filter (by_author_status userId "Published") (posts db)))
    (size (filter (by_author_status userId "Draft") (posts db)))
    (size (filter (live_by userId) (comments db))).

(** * Properties *)

(** ** The save hooks *)

Ltac split_ifs :=
  repeat match goal with
         | |- context [if ?b then _ else _] =>
             lazymatch b with
             | context [if _ then _ else _] => fail
             | _ => destruct b eqn:?; simpl
             end
         end.

Section Hooks.
Variables (orig : option Post.t) (now : Date) (d : Post.t).

Lemma pre_save_derived_frame :
  let d' := Post.pre_save_derived orig now d in
  Post.title d' = Post.title d ∧ Post.content d' = Post.content d
  ∧ Post.status d' = Post.status d ∧ Post.likes d' = Post.likes d
  ∧ Post.likesCount d' = Post.likesCount d
  ∧ Post.commentsCount d' = Post.commentsCount d
  ∧ Post.author d' = Post.author d ∧ Post.views d' = Post.views d
  ∧ Post.seoTitle d' = Post.seoTitle d
  ∧ Post.seoDescription d' = Post.seoDescription d.
Proof. unfold Post.pre_save_derived. split_ifs; simpl; done. Qed.

Lemma pre_save_likes_frame :
  let d' := Post.pre_save_likes orig d in
  Post.title d' = Post.title d ∧ Post.content d' = Post.content d
  ∧ Post.status d' = Post.status d ∧ Post.likes d' = Post.likes d
  ∧ Post.commentsCount d' = Post.commentsCount d
  ∧ Post.author d' = Post.author d ∧ Post.views d' = Post.views d
  ∧ Post.slug d' = Post.slug d ∧ Post.excerpt d' = Post.excerpt d
  ∧ Post.publishedAt d' = Post.publishedAt d
  ∧ Post.readTime d' = Post.readTime d
  ∧ Post.seoTitle d' = Post.seoTitle d
  ∧ Post.seoDescription d' = Post.seoDescription d.
Proof. unfold Post.pre_save_likes. split_ifs; simpl; done. Qed.

(** The slug after the first hook. *)
Lemma pre_save_derived_slug :
  Post.slug (Post.pre_save_derived orig now d) =
  if Post.isModified Post.title true orig d && negb (JS.truthy_opt (Post.slug d))
  then Some (Post.slugify (Post.title d))
  else Post.slug d.
Proof. unfold Post.pre_save_derived. split_ifs; simpl; done. Qed.

(** The publication date after the first hook. *)
Lemma pre_save_derived_publishedAt :
  Post.publishedAt (Post.pre_save_derived orig now d) =
  if Post.isModified Post.status true orig d
     && bool_decide (Post.status d = "Published")
     && negb (bool_decide (is_Some (Post.publishedAt d)))
  then Some now
  else Post.publishedAt d.
Proof.
  unfold Post.pre_save_derived, Post.isModified.
  destruct orig; simpl; split_ifs; simpl in *; congruence.
Qed.

End Hooks.

(** ** Responses and failure kinds *)

Lemma fails_400 m : ¬ succeeds (Json 400 (Info m)).
Proof. unfold succeeds. simpl. repeat case_bool_decide; done. Qed.

Lemma fails_403 body : ¬ succeeds (Json 403 body).
Proof. done. Qed.

Lemma fails_404 body : ¬ succeeds (Json 404 body).
Proof. done. Qed.

Lemma fails_500 body : ¬ succeeds (Json 500 body).
Proof. done. Qed.

(** Closes a goal that has a failing response among the successes. *)
Ltac absurd_success :=
  match goal with
  | H : succeeds (Json 400 (Info _)) |- _ => destruct (fails_400 _ H)
  | H : succeeds (Json 403 _) |- _ => destruct (fails_403 _ H)
  | H : succeeds (Json 404 _) |- _ => destruct (fails_404 _ H)
  | H : succeeds (Json 500 _) |- _ => destruct (fails_500 _ H)
  end.

Ltac each_ascii c :=
  destruct c as [[] [] [] [] [] [] [] []]; vm_compute; try reflexivity;
  try discriminate.

(** ** What a save writes *)

Lemma Post_save_Saved orig pid d now db d' db' :
  Post_save orig pid d now db = Saved d' db' →
  Post.validate d = []
  ∧ d' = Post.pre_save_likes orig (Post.pre_save_derived orig now d)
  ∧ posts db' = <[pid:=d']> (posts db)
  ∧ comments db' = comments db
  ∧ match orig with
    | None => posts db !! pid = None ∧ nextId db' = S (nextId db)
              ∧ slug_taken pid (Post.slug d') (posts db) = false
    | Some o => nextId db' = nextId db
    end.
Proof.
  unfold Post_save. destruct (Post.validate d); [|done].
  destruct orig as [o|].
  - destruct (_ && _); [done|]. intros [= <- <-]. done.
  - destruct (bool_decide (is_Some (posts db !! pid))) eqn:Hid; [done|].
    destruct (slug_taken _ _ _) eqn:Hslug; [done|]. simpl.
    intros [= <- <-]. simpl.
    apply bool_decide_eq_false in Hid. rewrite <- eq_None_not_Some in Hid.
    done.
Qed.

Lemma Comment_save_Saved orig cid d now db d' db' :
  Comment_save orig cid d now db = Saved d' db' →
  Comment.validate d = []
  ∧ d' = Comment.pre_save orig now d
  ∧ comments db' = <[cid:=d']> (comments db)
  ∧ posts db' =
      alter (Post.set_commentsCount (countLive (Comment.post d') (<[cid:=d']> (comments db))))
        (Comment.post d') (posts db)
  ∧ match orig with
    | None => comments db !! cid = None ∧ nextId db' = S (nextId db)
    | Some o => nextId db' = nextId db
    end.
Proof.
  unfold Comment_save. destruct (Comment.validate d); [|done].
  destruct orig as [o|].
  - intros [= <- <-]. done.
  - destruct (bool_decide (is_Some (comments db !! cid))) eqn:Hid; [done|].
    intros [= <- <-]. simpl.
    apply bool_decide_eq_false in Hid. rewrite <- eq_None_not_Some in Hid.
    done.
Qed.

Lemma Comment_pre_save_frame orig now d :
  let d' := Comment.pre_save orig now d in
  Comment.comment d' = Comment.comment d ∧ Comment.post d' = Comment.post d
  ∧ Comment.userId d' = Comment.userId d
  ∧ Comment.parentComment d' = Comment.parentComment d
  ∧ Comment.replies d' = Comment.replies d ∧ Comment.likes d' = Comment.likes d
  ∧ Comment.isDeleted d' = Comment.isDeleted d
  ∧ Comment.deletedAt d' = Comment.deletedAt d
  ∧ Comment.createdAt d' = Comment.createdAt d.
Proof. unfold Comment.pre_save. split_ifs; simpl; done. Qed.

Lemma applyPostBody_frame b p :
  let p' := applyPostBody b p in
  Post.slug p' = Post.slug p ∧ Post.likes p' = Post.likes p
  ∧ Post.likesCount p' = Post.likesCount p
  ∧ Post.commentsCount p' = Post.commentsCount p
  ∧ Post.publishedAt p' = Post.publishedAt p
  ∧ Post.author p' = Post.author p ∧ Post.excerpt p' = Post.excerpt p
  ∧ Post.views p' = Post.views p.
Proof.
  unfold applyPostBody.
  destruct (b_title b), (b_content b), (b_tags b), (b_category b),
    (b_coverImage b), (b_status b), (b_seoTitle b), (b_seoDescription b);
    split_ifs; simpl; done.
Qed.

(** ** What a successful request went through *)

Lemma createPost_success user b now db r db' :
  createPost user b now db = (r, db') → succeeds r →
  ∃ post,
    Post_save None (nextId db) (newPost user b now) now db = Saved post db'
    ∧ r = Json 201 (PostDoc (nextId db) post)
    ∧ JS.truthy_opt (b_title b) = true ∧ JS.truthy_opt (b_content b) = true.
Proof.
  unfold createPost. intros Hrun Hok.
  destruct (JS.truthy_opt (b_title b)), (JS.truthy_opt (b_content b));
    simpl in Hrun; simplify_eq; try absurd_success.
  destruct (Post_save _ _ _ _ _) eqn:Hsave; simplify_eq; try absurd_success.
  eauto.
Qed.

Lemma updatePost_success user pid b now db r db' :
  updatePost user pid b now db = (r, db') → succeeds r →
  ∃ post post',
    posts db !! pid = Some post
    ∧ denied (Post.author post) user = false
    ∧ Post_save (Some post) pid (applyPostBody b post) now db = Saved post' db'
    ∧ r = Json 200 (PostDoc pid post').
Proof.
  unfold updatePost. intros Hrun Hok.
  destruct (posts db !! pid) as [post|]; simplify_eq; try absurd_success.
  destruct (denied _ _) eqn:Hden; simplify_eq; try absurd_success.
  destruct (Post_save _ _ _ _ _) eqn:Hsave; simplify_eq; try absurd_success.
  eauto 10.
Qed.

(** ** The slug *)

Example slugify_hello_world : Post.slugify "Hello World!" = "hello-world".
Proof. reflexivity. Qed.











(** ** The read time *)

(** [split] never returns an empty array: the read time is at least 1
    without any explicit bound in the hook. *)
Lemma split_from_length_pos field in_run s :
  (0 < length (JS.split_from field in_run s))%nat.
Proof.
  revert field in_run.
  induction s as [|c r IH]; intros field in_run; simpl; [lia|].
  destruct (JS.is_space c); [destruct in_run|]; simpl; auto with lia.
Qed.

Lemma computeReadTime_pos content : (1 ≤ Post.computeReadTime content)%nat.
Proof.
  unfold Post.computeReadTime, JS.split_ws, JS.ceil_div, Post.wordsPerMinute.
  pose proof (split_from_length_pos "" false (JS.strip_tags content)) as Hpos.
  set (n := length _) in *.
  destruct (Nat.eqb_spec (n mod 200) 0) as [Hmod|Hmod]; [|lia].
  pose proof (Nat.div_mod_eq n 200). lia.
Qed.

Lemma split_from_length s :
  (∀ field, length (JS.split_from field true s)
            = count_words_from false s
              + (if bool_decide (s = "") || ends_with_space s then 1 else 0))%nat
  ∧ (∀ field, length (JS.split_from field false s)
              = count_words_from true s + 1
                + (if ends_with_space s then 1 else 0))%nat.
Proof.
  induction s as [|c r [IHt IHf]]; [done|].
  assert (Hend : ends_with_space (String c r)
                 = if bool_decide (r = "") then JS.is_space c
                   else ends_with_space r).
  { destruct r; done. }
  rewrite Hend. simpl.
  split; intros field; destruct (JS.is_space c) eqn:Hc; simpl;
    rewrite ?IHt, ?IHf; destruct r; simpl; lia.
Qed.

Lemma split_ws_length s :
  length (JS.split_ws s) = (count_words s + edge_pieces s)%nat.
Proof.
  unfold JS.split_ws, count_words, edge_pieces.
  destruct s as [|c r]; [done|].
  destruct (split_from_length r) as [IHt IHf].
  assert (Hend : ends_with_space (String c r)
                 = if bool_decide (r = "") then JS.is_space c
                   else ends_with_space r).
  { destruct r; done. }
  rewrite Hend. simpl.
  destruct (JS.is_space c) eqn:Hc; simpl; rewrite ?IHt, ?IHf;
    destruct r; simpl; lia.
Qed.

(** C4.  The hook divides the number of pieces of [split(/\s+/)] by 200
    and rounds up; the pieces are the words and the empty pieces at the
    ends of a text that is empty or starts or ends with whitespace.  On
    200 words followed by a space the hook stores 2 where the words give
    1; on the 450 words of the specification both give 3. *)
Theorem readTime_counts_empty_pieces :
  (∀ content,
      Post.computeReadTime content
      = JS.ceil_div
          (count_words (JS.strip_tags content)
           + edge_pieces (JS.strip_tags content)) 200)
  ∧ (let content := JS.repeat_string "word " 200 in
     Post.validate (newPost alice (post_body "t" content None) 0) = []
     ∧ count_words (JS.strip_tags content) = 200
     ∧ readTime_spec content = 1
     ∧ Post.computeReadTime content = 2
     ∧ Post.readTime
         <$> posts (createPost alice (post_body "t" content None) 0 emptyDB).2 !! 0
         = Some 2)
  ∧ (let content := "<p>" ++ JS.repeat_string "word " 450 ++ "</p>" in
     readTime_spec content = 3 ∧ Post.computeReadTime content = 3).
Proof.
  split.
  - intros content. unfold Post.computeReadTime. by rewrite split_ws_length.
  - vm_compute. done.
Qed.

(** ** The like toggle *)

Section Toggle.
Variables (u : ObjectId).

Lemma remove_like_absent ls :
  find_like u ls = None → remove_like u ls = ls.
Proof.
  unfold find_like, remove_like.
  induction ls as [|l ls IH]; simpl; [done|].
  destruct (bool_decide (Like.user l = u)); simpl; [done|].
  intros H. by rewrite IH.
Qed.

Lemma find_like_remove ls : find_like u (remove_like u ls) = None.
Proof.
  unfold find_like, remove_like.
  induction ls as [|l ls IH]; simpl; [done|].
  destruct (bool_decide (Like.user l = u)) eqn:Hl; simpl; [done|].
  by rewrite Hl.
Qed.

Lemma find_like_push now ls :
  is_Some (find_like u (push_like u now ls)).
Proof.
  unfold find_like, push_like.
  induction ls as [|l ls IH]; simpl.
  - rewrite bool_decide_eq_true_2; [eauto|done].
  - destruct (bool_decide (Like.user l = u)); eauto.
Qed.

Lemma remove_like_push now ls :
  remove_like u (push_like u now ls) = remove_like u ls.
Proof.
  unfold remove_like, push_like. rewrite List.filter_app. simpl.
  rewrite bool_decide_eq_true_2; [|done]. simpl. apply app_nil_r.
Qed.

Lemma push_like_changes now ls : ls ≠ push_like u now ls.
Proof.
  unfold push_like. intros H. apply (f_equal length) in H.
  rewrite length_app in H. simpl in H. lia.
Qed.

Lemma remove_like_changes ls :
  is_Some (find_like u ls) → ls ≠ remove_like u ls.
Proof.
  intros [l Hl] Heq. rewrite Heq, find_like_remove in Hl. done.
Qed.

Lemma toggle_likes_changes now ls : ls ≠ toggle_likes u now ls.
Proof.
  unfold toggle_likes. destruct (find_like u ls) eqn:Hf.
  - apply remove_like_changes. rewrite Hf. eauto.
  - apply push_like_changes.
Qed.

(** Like, then unlike. *)
Lemma toggle_likes_twice_absent t1 t2 ls :
  find_like u ls = None →
  toggle_likes u t2 (toggle_likes u t1 ls) = ls.
Proof.
  intros Hf. unfold toggle_likes at 2. rewrite Hf.
  unfold toggle_likes. destruct (find_like_push t1 ls) as [l ->].
  rewrite remove_like_push. by apply remove_like_absent.
Qed.

(** Unlike, then like again. *)
Lemma toggle_likes_twice_present t1 t2 ls :
  is_Some (find_like u ls) →
  toggle_likes u t2 (toggle_likes u t1 ls)
  = (remove_like u ls ++ [Like.mk u t2])%list.
Proof.
  intros [l Hf]. unfold toggle_likes at 2. rewrite Hf.
  unfold toggle_likes. by rewrite find_like_remove.
Qed.

End Toggle.

(** The first hook leaves a stored post alone when its title, content and
    status are the stored ones. *)
Lemma pre_save_derived_untouched o now d :
  Post.title d = Post.title o → Post.content d = Post.content o →
  Post.status d = Post.status o →
  Post.pre_save_derived (Some o) now d = d.
Proof.
  intros Ht Hc Hs. unfold Post.pre_save_derived, Post.isModified.
  rewrite (bool_decide_eq_true_2 (Post.title o = Post.title d)) by done.
  simpl.
  rewrite (bool_decide_eq_true_2 (Post.content o = Post.content d)) by done.
  simpl.
  rewrite (bool_decide_eq_true_2 (Post.status o = Post.status d)) by done.
  done.
Qed.

Lemma DB_eq (a b : DB) :
  posts a = posts b → comments a = comments b → nextId a = nextId b → a = b.
Proof. destruct a, b; simpl; congruence. Qed.

(** The hooks on a stored post of which only the likes were changed. *)
Lemma Post_hooks_likes post now ls :
  ls ≠ Post.likes post →
  Post.pre_save_likes (Some post)
    (Post.pre_save_derived (Some post) now (Post.set_likes ls post))
  = Post.set_likesCount (length ls) (Post.set_likes ls post).
Proof.
  intros Hne. rewrite pre_save_derived_untouched by done.
  unfold Post.pre_save_likes, Post.isModified. simpl.
  rewrite bool_decide_eq_false_2 by done. done.
Qed.

Lemma togglePostLike_success user pid now db r db' :
  togglePostLike user pid now db = (r, db') → succeeds r →
  ∃ post,
    posts db !! pid = Some post
    ∧ Post.validate post = []
    ∧ db' = set_posts
              (<[pid := Post.set_likesCount
                          (length (toggle_likes (id user) now (Post.likes post)))
                          (Post.set_likes (toggle_likes (id user) now (Post.likes post)) post)]>
                 (posts db)) db.
Proof.
  unfold togglePostLike. intros Hrun Hok.
  destruct (posts db !! pid) as [post|] eqn:Hpost; simplify_eq;
    try absurd_success.
  destruct (Post_save _ _ _ _ _) eqn:Hsave; simplify_eq; try absurd_success.
  exists post. split; [done|].
  apply Post_save_Saved in Hsave as (Hval & -> & Hposts & Hcomments & Hnext).
  split; [done|].
  rewrite Post_hooks_likes in Hposts
    by (apply not_eq_sym, toggle_likes_changes).
  by apply DB_eq.
Qed.

(** The hook on a stored comment of which only the likes were changed. *)
Lemma Comment_hooks_likes c now ls :
  ls ≠ Comment.likes c →
  Comment.pre_save (Some c) now (Comment.set_likes ls c)
  = Comment.set_likesCount (length ls) (Comment.set_likes ls c).
Proof.
  intros Hne. unfold Comment.pre_save, Comment.isModified. simpl.
  rewrite (bool_decide_eq_false_2 (Comment.likes c = ls)) by done. simpl.
  rewrite bool_decide_eq_true_2 by done. done.
Qed.

Lemma toggleCommentLike_success user cid now db r db' :
  toggleCommentLike user cid now db = (r, db') → succeeds r →
  ∃ c,
    comments db !! cid = Some c
    ∧ Comment.isDeleted c = false
    ∧ Comment.validate c = []
    ∧ Comment_save (Some c) cid
        (Comment.set_likes (toggle_likes (id user) now (Comment.likes c)) c)
        now db
      = Saved
          (Comment.set_likesCount
             (length (toggle_likes (id user) now (Comment.likes c)))
             (Comment.set_likes (toggle_likes (id user) now (Comment.likes c)) c))
          db'.
Proof.
  unfold toggleCommentLike. intros Hrun Hok.
  destruct (comments db !! cid) as [c|] eqn:Hc; simplify_eq;
    try absurd_success.
  destruct (Comment.isDeleted c) eqn:Hdel; simplify_eq; try absurd_success.
  destruct (Comment_save _ _ _ _ _) eqn:Hsave; simplify_eq; try absurd_success.
  exists c. repeat split; try done.
  - by apply Comment_save_Saved in Hsave as (Hval & _).
  - pose proof Hsave as Hsave'.
    apply Comment_save_Saved in Hsave' as (_ & -> & _).
    rewrite Hsave. f_equal. apply Comment_hooks_likes.
    apply not_eq_sym, toggle_likes_changes.
Qed.

(** An actor who has liked the entity has a like entry again after two
    toggles: the claim that none remains fails (against C5). *)
Lemma toggle_twice_relikes :
  let post_run := createPost alice (post_body "Title" "some content" None) 1 emptyDB in
  let liked := (togglePostLike bob 0 2 post_run.2).2 in
  let run1 := togglePostLike bob 0 3 liked in
  let run2 := togglePostLike bob 0 4 run1.2 in
  succeeds run1.1 ∧ succeeds run2.1
  ∧ Post.likes <$> posts liked !! 0 = Some [Like.mk 101 2]
  ∧ Post.likes <$> posts run2.2 !! 0 = Some [Like.mk 101 4].
Proof. vm_compute. done. Qed.

(** C5, amended.  On a post or a comment whose [likesCount] is the size
    of its [likes], two toggles in a row by a user without a like entry
    bring [likes] and [likesCount] back to what they were, and the user has
    no like entry; two toggles in a row by a user with a like entry replace
    the entries of the user by one new entry at the end. *)
Theorem toggle_twice :
  (∀ user pid t1 t2 db post r1 db1 r2 db2,
      posts db !! pid = Some post →
      Post.likesCount post = length (Post.likes post) →
      togglePostLike user pid t1 db = (r1, db1) → succeeds r1 →
      togglePostLike user pid t2 db1 = (r2, db2) → succeeds r2 →
      ∃ post2,
        posts db2 !! pid = Some post2
        ∧ (find_like (id user) (Post.likes post) = None →
           post2 = post ∧ find_like (id user) (Post.likes post2) = None)
        ∧ (is_Some (find_like (id user) (Post.likes post)) →
           Post.likes post2
           = (remove_like (id user) (Post.likes post) ++ [Like.mk (id user) t2])%list
           ∧ Post.likesCount post2 = length (Post.likes post2)))
  ∧ (∀ user cid t1 t2 db c r1 db1 r2 db2,
        comments db !! cid = Some c →
        Comment.likesCount c = length (Comment.likes c) →
        toggleCommentLike user cid t1 db = (r1, db1) → succeeds r1 →
        toggleCommentLike user cid t2 db1 = (r2, db2) → succeeds r2 →
        ∃ c2,
          comments db2 !! cid = Some c2
          ∧ (find_like (id user) (Comment.likes c) = None →
             c2 = c ∧ find_like (id user) (Comment.likes c2) = None)
          ∧ (is_Some (find_like (id user) (Comment.likes c)) →
             Comment.likes c2
             = (remove_like (id user) (Comment.likes c) ++ [Like.mk (id user) t2])%list
             ∧ Comment.likesCount c2 = length (Comment.likes c2))).
Proof.
  split.
  - intros user pid t1 t2 db post r1 db1 r2 db2 Hpost Hcount Hrun1 Hok1 Hrun2 Hok2.
    destruct (togglePostLike_success _ _ _ _ _ _ Hrun1 Hok1)
      as (post0 & Hpost0 & _ & ->).
    rewrite Hpost in Hpost0. injection Hpost0 as <-.
    destruct (togglePostLike_success _ _ _ _ _ _ Hrun2 Hok2)
      as (post1 & Hpost1 & _ & ->).
    simpl in Hpost1. rewrite lookup_insert_eq in Hpost1.
    injection Hpost1 as <-. simpl.
    eexists. split; [apply lookup_insert_eq|]. split.
    + intros Habs. rewrite toggle_likes_twice_absent by done.
      split; [|done]. destruct post; simpl in *. by subst.
    + intros Hpres. by rewrite toggle_likes_twice_present by done.
  - intros user cid t1 t2 db c r1 db1 r2 db2 Hc Hcount Hrun1 Hok1 Hrun2 Hok2.
    destruct (toggleCommentLike_success _ _ _ _ _ _ Hrun1 Hok1)
      as (c0 & Hc0 & _ & _ & Hsave1).
    rewrite Hc in Hc0. injection Hc0 as <-.
    apply Comment_save_Saved in Hsave1 as (_ & _ & Hcs1 & _).
    destruct (toggleCommentLike_success _ _ _ _ _ _ Hrun2 Hok2)
      as (c1 & Hc1 & _ & _ & Hsave2).
    rewrite Hcs1, lookup_insert_eq in Hc1. injection Hc1 as <-.
    apply Comment_save_Saved in Hsave2 as (_ & _ & Hcs2 & _).
    simpl in Hcs2.
    eexists. split; [rewrite Hcs2; apply lookup_insert_eq|]. split.
    + intros Habs. rewrite toggle_likes_twice_absent by done.
      split; [|done]. destruct c; simpl in *. by subst.
    + intros Hpres. by rewrite toggle_likes_twice_present by done.
Qed.

Lemma toggle_twice_witness :
  let run1 := togglePostLike bob 0 2 draft_db in
  let run2 := togglePostLike bob 0 3 run1.2 in
  ∃ post2, posts run2.2 !! 0 = Some post2 ∧ Post.likes post2 = [].
Proof.
  intros run1 run2.
  assert (H0 : posts draft_db !! 0 = Some draft_post)
    by (vm_compute; reflexivity).
  assert (H1 : Post.likesCount draft_post = length (Post.likes draft_post))
    by reflexivity.
  assert (H2 : togglePostLike bob 0 2 draft_db = (run1.1, run1.2))
    by apply surjective_pairing.
  assert (H3 : succeeds run1.1) by (vm_compute; reflexivity).
  assert (H4 : togglePostLike bob 0 3 run1.2 = (run2.1, run2.2))
    by apply surjective_pairing.
  assert (H5 : succeeds run2.1) by (vm_compute; reflexivity).
  destruct (proj1 toggle_twice _ _ _ _ _ _ _ _ _ _ H0 H1 H2 H3 H4 H5)
    as (post2 & Hpost2 & Habs & _).
  exists post2. split; [exact Hpost2|].
  destruct (Habs eq_refl) as [-> _]. reflexivity.
Defined.

(** ** Counting the comments of a post *)

Section CountLive.
Variables (q : ObjectId).

Lemma countLive_insert cid c (cs : gmap ObjectId Comment.t) :
  countLive q (<[cid:=c]> cs) = (share q c + countLive q (delete cid cs))%nat.
Proof.
  unfold countLive, share. rewrite <- (insert_delete_eq cs).
  destruct (decide (Comment.post c = q ∧ Comment.isDeleted c = false)) as [Hl|Hl].
  - rewrite map_filter_insert_True by done.
    rewrite map_size_insert_None; [done|].
    apply map_lookup_filter_None_2. left. apply lookup_delete_eq.
  - rewrite map_filter_insert_False by done. by rewrite delete_delete_eq.
Qed.

Lemma countLive_lookup cid c (cs : gmap ObjectId Comment.t) :
  cs !! cid = Some c →
  countLive q cs = (share q c + countLive q (delete cid cs))%nat.
Proof.
  intros Hc. rewrite <- (insert_id cs cid c) at 1 by done.
  apply countLive_insert.
Qed.

Lemma countLive_delete_None cid (cs : gmap ObjectId Comment.t) :
  cs !! cid = None → countLive q (delete cid cs) = countLive q cs.
Proof. intros Hc. by rewrite delete_id. Qed.

(** No comment on the post, no count. *)
Lemma countLive_unreferenced (cs : gmap ObjectId Comment.t) :
  (∀ i c, cs !! i = Some c → Comment.post c ≠ q) → countLive q cs = 0.
Proof.
  intros Hno. unfold countLive. apply map_size_empty_iff, map_empty.
  intros i. apply map_lookup_filter_None_2.
  destruct (cs !! i) as [c|] eqn:Hc; [right|by left].
  intros c' [= <-] [Hq _]. by eapply Hno.
Qed.

(** Replacing a comment by one with the same [post] and [isDeleted]
    changes no count. *)
Lemma countLive_same_share cid c c' (cs : gmap ObjectId Comment.t) :
  cs !! cid = Some c → share q c' = share q c →
  countLive q (<[cid:=c']> cs) = countLive q cs.
Proof.
  intros Hc Hshare.
  rewrite countLive_insert, Hshare. symmetry. by apply countLive_lookup.
Qed.

End CountLive.

Lemma share_other q c : Comment.post c ≠ q → share q c = 0.
Proof. unfold share. intros Hne. case_decide; naive_solver. Qed.

Lemma share_eq q c c' :
  Comment.post c' = Comment.post c → Comment.isDeleted c' = Comment.isDeleted c →
  share q c' = share q c.
Proof. unfold share. by intros -> ->. Qed.

(** The deletion filter of [Comment.deleteMany] leaves the counts of the
    other posts alone. *)
Lemma countLive_deleteMany pid q (cs : gmap ObjectId Comment.t) :
  q ≠ pid →
  countLive q (filter (fun kc => Comment.post kc.2 ≠ pid) cs) = countLive q cs.
Proof.
  intros Hne. unfold countLive. rewrite map_filter_filter. f_equal.
  apply map_filter_ext. intros i c Hc. unfold live_on. simpl. naive_solver.
Qed.

(** ** Documents that pass validation and the hooks *)

Lemma length_append (a b : string) :
  String.length (a ++ b) = (String.length a + String.length b)%nat.
Proof. induction a as [|c a IH]; simpl; [done|]. by rewrite IH. Qed.

Lemma length_substring0 n s : (String.length (JS.substring0 n s) ≤ n)%nat.
Proof.
  unfold JS.substring0. revert s.
  induction n as [|n IH]; intros [|c s]; simpl; try lia.
  specialize (IH s). lia.
Qed.

Lemma length_makeExcerpt content :
  (String.length (Post.makeExcerpt content) ≤ 300)%nat.
Proof.
  unfold Post.makeExcerpt. rewrite length_append. simpl.
  pose proof (length_substring0 150 (JS.strip_tags content)). lia.
Qed.

Lemma error_if_nil {A} (P : Prop) `{Decision P} (x : A) :
  (if bool_decide P then [x] else []) = [] ↔ ¬ P.
Proof. case_bool_decide; naive_solver. Qed.

Lemma error_unless_nil {A} (P : Prop) `{Decision P} (x : A) :
  (if bool_decide P then [] else [x]) = [] ↔ P.
Proof. case_bool_decide; naive_solver. Qed.

Lemma error_if2_nil {A} (P Q : Prop) `{Decision P} `{Decision Q} (x y : A) :
  (if bool_decide P then [x] else if bool_decide Q then [y] else []) = []
  ↔ ¬ P ∧ ¬ Q.
Proof. repeat case_bool_decide; naive_solver. Qed.

Lemma validate_nil d : Post.validate d = [] ↔ valid_post d.
Proof.
  unfold Post.validate, valid_post.
  rewrite !app_nil, !error_if2_nil, !error_if_nil, error_unless_nil.
  assert ((match Post.excerpt d with
           | Some e => if bool_decide (300 < String.length e)%nat
                       then ["Excerpt cannot exceed 300 characters"] else []
           | None => []
           end = [])
          ↔ ∀ e, Post.excerpt d = Some e → (String.length e ≤ 300)%nat) as ->.
  { destruct (Post.excerpt d) as [e|]; [|naive_solver].
    rewrite error_if_nil. split.
    - intros Hle e' [= <-]. lia.
    - intros Hle. specialize (Hle e eq_refl). lia. }
  intuition lia.
Qed.

Lemma pre_save_derived_excerpt orig now d :
  Post.excerpt (Post.pre_save_derived orig now d) = Post.excerpt d
  ∨ Post.excerpt (Post.pre_save_derived orig now d)
    = Some (Post.makeExcerpt (Post.content d)).
Proof.
  unfold Post.pre_save_derived, Post.isModified.
  destruct orig; simpl; split_ifs; simpl in *; auto.
Qed.

Lemma hooks_valid orig now d :
  valid_post d →
  valid_post (Post.pre_save_likes orig (Post.pre_save_derived orig now d)).
Proof.
  intros (Ht & Ht' & Hc & Hc' & He & Hs & Hseo & Hseo').
  destruct (pre_save_likes_frame orig (Post.pre_save_derived orig now d))
    as (Et & Ec & Es & _ & _ & _ & _ & _ & Ee & _ & _ & Eseo & Eseo').
  destruct (pre_save_derived_frame orig now d)
    as (Ft & Fc & Fs & _ & _ & _ & _ & _ & Fseo & Fseo').
  unfold valid_post. rewrite Et, Ec, Es, Ee, Eseo, Eseo', Ft, Fc, Fs, Fseo, Fseo'.
  repeat split; try done.
  intros e. destruct (pre_save_derived_excerpt orig now d) as [-> | ->].
  - apply He.
  - intros [= <-]. apply length_makeExcerpt.
Qed.

(** The hooks on a new post, which has no like. *)
Lemma hooks_post_ok_new now d :
  Post.validate d = [] → Post.likes d = [] → Post.likesCount d = 0 →
  Post.publishedAt d = None →
  post_ok (Post.pre_save_likes None (Post.pre_save_derived None now d)).
Proof.
  intros Hval Hl Hn Hp. unfold post_ok.
  rewrite validate_nil. split; [|split].
  - unfold Post.pre_save_likes. simpl.
    destruct (pre_save_derived_frame None now d)
      as (_ & _ & _ & -> & -> & _). by rewrite Hl, Hn.
  - destruct (pre_save_likes_frame None (Post.pre_save_derived None now d))
      as (_ & _ & -> & _ & _ & _ & _ & _ & _ & -> & _).
    destruct (pre_save_derived_frame None now d) as (_ & _ & -> & _).
    rewrite pre_save_derived_publishedAt. simpl. rewrite Hp. simpl.
    intros ->. simpl. eauto.
  - apply hooks_valid. by apply validate_nil.
Qed.

(** The hooks on a stored post whose counters and publication date the
    handler has not touched. *)
Lemma hooks_post_ok_stored o now d :
  post_ok o → Post.validate d = [] →
  Post.likesCount d = Post.likesCount o →
  Post.publishedAt d = Post.publishedAt o →
  post_ok (Post.pre_save_likes (Some o) (Post.pre_save_derived (Some o) now d)).
Proof.
  intros (Hlikes & Hpub & _) Hval Hn Hp. unfold post_ok.
  rewrite validate_nil. split; [|split].
  - unfold Post.pre_save_likes, Post.isModified.
    destruct (pre_save_derived_frame (Some o) now d)
      as (_ & _ & _ & El & En & _).
    case_bool_decide as Hmod; simpl; [|done].
    by rewrite En, <- Hmod, Hn.
  - destruct (pre_save_likes_frame (Some o) (Post.pre_save_derived (Some o) now d))
      as (_ & _ & -> & _ & _ & _ & _ & _ & _ & -> & _).
    destruct (pre_save_derived_frame (Some o) now d) as (_ & _ & -> & _).
    rewrite pre_save_derived_publishedAt. unfold Post.isModified.
    intros Hs. rewrite Hs, Hp. simpl.
    case_bool_decide as Ho; simpl.
    + apply Hpub. done.
    + case_bool_decide; simpl; eauto.
  - apply hooks_valid. by apply validate_nil.
Qed.

Lemma hooks_commentsCount orig now d :
  Post.commentsCount (Post.pre_save_likes orig (Post.pre_save_derived orig now d))
  = Post.commentsCount d.
Proof.
  destruct (pre_save_likes_frame orig (Post.pre_save_derived orig now d))
    as (_ & _ & _ & _ & -> & _).
  by destruct (pre_save_derived_frame orig now d) as (_ & _ & _ & _ & _ & -> & _).
Qed.

(** ** Writes that keep a store consistent *)

Lemma set_commentsCount_ok n p : post_ok p → post_ok (Post.set_commentsCount n p).
Proof. done. Qed.

(** A stored post is replaced; its comment counter is kept. *)
Lemma consistent_set_post db pid o d' :
  consistent db → posts db !! pid = Some o → post_ok d' →
  Post.commentsCount d' = Post.commentsCount o →
  consistent (set_posts (<[pid:=d']> (posts db)) db).
Proof.
  intros [Hp Hc Hn Hr Hl Hfp Hfc] Ho Hok Hcount.
  split; simpl; try done.
  - by apply map_Forall_insert_2.
  - apply map_Forall_insert_2; [|done].
    rewrite Hcount. by apply (Hn pid o).
  - intros i c Hi. rewrite lookup_insert_is_Some'. right. by eapply Hr.
  - intros i. rewrite lookup_insert_is_Some'. intros [<-|Hi]; eauto.
Qed.

(** A post is inserted under the next identifier. *)
Lemma consistent_new_post db d' :
  consistent db → posts db !! nextId db = None → post_ok d' →
  Post.commentsCount d' = 0 →
  consistent (mkDB (<[nextId db:=d']> (posts db)) (comments db) (S (nextId db))).
Proof.
  intros [Hp Hc Hn Hr Hl Hfp Hfc] Hnone Hok Hcount.
  split; simpl; try done.
  - by apply map_Forall_insert_2.
  - apply map_Forall_insert_2; [|done].
    rewrite Hcount. symmetry. apply countLive_unreferenced.
    intros i c Hi Hpost. specialize (Hr i c Hi). simpl in Hr.
    rewrite Hpost, Hnone in Hr. by destruct Hr.
  - intros i c Hi. rewrite lookup_insert_is_Some'. right. by eapply Hr.
  - intros i. rewrite lookup_insert_is_Some'. intros [<-|Hi]; [lia|].
    specialize (Hfp i Hi). lia.
  - intros i Hi. specialize (Hfc i Hi). lia.
Qed.

(** The [post("save")] hook restores the counter of the post it is run
    for, whatever the counter was. *)
Lemma counts_after_sync pid (ps : gmap ObjectId Post.t)
    (cs cs' : gmap ObjectId Comment.t) :
  map_Forall (fun q p => Post.commentsCount p = countLive q cs) ps →
  (∀ q, q ≠ pid → countLive q cs' = countLive q cs) →
  map_Forall (fun q p => Post.commentsCount p = countLive q cs')
    (alter (Post.set_commentsCount (countLive pid cs')) pid ps).
Proof.
  intros Hn Hother q p. destruct (decide (q = pid)) as [->|Hne].
  - rewrite lookup_alter_eq. intros (p0 & Hp0 & ->)%fmap_Some. done.
  - rewrite lookup_alter_ne by done. intros Hq.
    rewrite Hother by done. by apply Hn.
Qed.

Lemma links_set_comment (cs : gmap ObjectId Comment.t) cid o d' :
  map_Forall (linked cs) cs → cs !! cid = Some o →
  Comment.post d' = Comment.post o →
  Comment.parentComment d' = Comment.parentComment o →
  (∀ i, i ∈ Comment.replies o → i ∈ Comment.replies d') →
  map_Forall (linked (<[cid:=d']> cs)) (<[cid:=d']> cs).
Proof.
  intros Hl Ho Hpost Hparent Hreplies i c Hi q Hq.
  assert (∃ c0, cs !! i = Some c0 ∧ Comment.parentComment c0 = Some q
                ∧ Comment.post c0 = Comment.post c) as (c0 & Hc0 & Hq0 & Hp0).
  { apply lookup_insert_Some in Hi as [[<- <-]|[Hne Hi]].
    - exists o. by rewrite <- Hparent, <- Hpost.
    - by exists c. }
  destruct (Hl i c0 Hc0 q Hq0) as (pc & Hpc & Hpp & Hin).
  destruct (decide (q = cid)) as [->|Hne].
  - exists d'. rewrite lookup_insert_eq. rewrite Hpc in Ho.
    injection Ho as ->. split; [done|]. split; [congruence|auto].
  - exists pc. rewrite lookup_insert_ne by done. split; [done|].
    split; [congruence|done].
Qed.

(** A stored comment is replaced by one on the same post, with the same
    parent and replies, and the hook runs. *)
Lemma consistent_set_comment db cid o d' :
  consistent db → comments db !! cid = Some o → comment_ok d' →
  Comment.post d' = Comment.post o →
  Comment.parentComment d' = Comment.parentComment o →
  Comment.replies d' = Comment.replies o →
  consistent
    (syncCommentsCount (Comment.post d')
       (set_comments (<[cid:=d']> (comments db)) db)).
Proof.
  intros [Hp Hc Hn Hr Hl Hfp Hfc] Ho Hok Hpost Hparent Hreplies.
  split; simpl.
  - intros q p. rewrite lookup_alter_Some.
    intros [(_ & p0 & Hp0 & ->)|[_ Hq]]; [|by eapply Hp].
    apply set_commentsCount_ok. by eapply Hp.
  - by apply map_Forall_insert_2.
  - apply (counts_after_sync _ _ (comments db)); [done|].
    intros q Hq. apply (countLive_same_share q cid o); [done|].
    rewrite !share_other; congruence.
  - intros i c Hi. rewrite lookup_alter_is_Some.
    apply lookup_insert_Some in Hi as [[<- <-]|[Hne Hi]].
    + rewrite Hpost. by eapply Hr.
    + by eapply Hr.
  - eapply links_set_comment; eauto. by rewrite Hreplies.
  - intros i. rewrite lookup_alter_is_Some. apply Hfp.
  - intros i. rewrite lookup_insert_is_Some'. intros [<-|Hi]; eauto.
Qed.

Lemma countLive_alter q f i (cs : gmap ObjectId Comment.t) :
  (∀ c, share q (f c) = share q c) →
  countLive q (alter f i cs) = countLive q cs.
Proof.
  intros Hf. destruct (cs !! i) as [c|] eqn:Hc.
  - rewrite (alter_alt_Some _ _ _ c) by done.
    by apply (countLive_same_share q i c).
  - by rewrite alter_id' by (by rewrite Hc).
Qed.

(** Links survive when every comment keeps its post and its replies. *)
Lemma linked_mono (cs cs' : gmap ObjectId Comment.t) i c :
  (∀ q pc, cs !! q = Some pc →
     ∃ pc', cs' !! q = Some pc' ∧ Comment.post pc' = Comment.post pc
            ∧ ∀ j, j ∈ Comment.replies pc → j ∈ Comment.replies pc') →
  linked cs i c → linked cs' i c.
Proof.
  intros Hext Hl q Hq. destruct (Hl q Hq) as (pc & Hpc & Hpost & Hin).
  destruct (Hext q pc Hpc) as (pc' & Hpc' & Hpost' & Hsub).
  exists pc'. split; [done|]. split; [congruence|auto].
Qed.

Lemma linked_same_parent cs i c c' :
  Comment.parentComment c' = Comment.parentComment c →
  Comment.post c' = Comment.post c →
  linked cs i c → linked cs i c'.
Proof. unfold linked. intros -> ->. done. Qed.

(** A comment is inserted under the next identifier, the hook runs, and
    the parent, if there is one, gets the reply. *)
Lemma consistent_new_comment db d' :
  consistent db → comments db !! nextId db = None → comment_ok d' →
  is_Some (posts db !! Comment.post d') →
  (∀ q, Comment.parentComment d' = Some q →
     ∃ pc, comments db !! q = Some pc ∧ Comment.post pc = Comment.post d') →
  let db1 :=
    syncCommentsCount (Comment.post d')
      (mkDB (posts db) (<[nextId db:=d']> (comments db)) (S (nextId db))) in
  consistent
    match Comment.parentComment d' with
    | Some parent => pushReply parent (nextId db) db1
    | None => db1
    end.
Proof.
  intros [Hp Hc Hn Hr Hl Hfp Hfc] Hnone Hok Hpost Hparent db1.
  set (cid := nextId db) in *.
  set (push := fun p : Comment.t =>
                 Comment.set_replies (Comment.replies p ++ [cid]) p).
  set (cs1 := <[cid:=d']> (comments db)).
  set (cs2 := match Comment.parentComment d' with
              | Some parent => alter push parent cs1
              | None => cs1
              end).
  set (ps2 := alter (Post.set_commentsCount (countLive (Comment.post d') cs1))
                (Comment.post d') (posts db)).
  assert (Hfinal :
    match Comment.parentComment d' with
    | Some parent => pushReply parent cid db1
    | None => db1
    end = mkDB ps2 cs2 (S cid)).
  { unfold cs2. by destruct (Comment.parentComment d'). }
  rewrite Hfinal. clear Hfinal.
  assert (Hcount : ∀ q, countLive q cs2 = countLive q cs1).
  { intros q. unfold cs2. destruct (Comment.parentComment d'); [|done].
    by apply countLive_alter. }
  assert (Hget : ∀ i c, cs2 !! i = Some c →
            (i = cid ∧ Comment.post c = Comment.post d'
             ∧ Comment.parentComment c = Comment.parentComment d'
             ∧ (comment_ok d' → comment_ok c))
            ∨ (i ≠ cid ∧ ∃ c0, comments db !! i = Some c0
               ∧ Comment.post c = Comment.post c0
               ∧ Comment.parentComment c = Comment.parentComment c0
               ∧ (comment_ok c0 → comment_ok c))).
  { assert (Hins : ∀ i c, cs1 !! i = Some c →
              (i = cid ∧ c = d') ∨ (i ≠ cid ∧ comments db !! i = Some c)).
    { intros i c Hi. unfold cs1 in Hi.
      apply lookup_insert_Some in Hi as [[<- <-]|[Hne Hi]]; auto. }
    assert (Hpush : ∀ c, comment_ok c → comment_ok (push c)) by done.
    intros i c. unfold cs2.
    destruct (Comment.parentComment d') as [parent|] eqn:Hpar.
    - rewrite lookup_alter_Some.
      intros [(Heq & c0 & Hc0 & ->)|[Hne Hc0]].
      + destruct (Hins i c0 Hc0) as [[Hi ->]|[Hi Hc0']].
        * left. split_and!; auto.
        * right. split; [done|]. exists c0. split_and!; auto.
      + destruct (Hins i c Hc0) as [[Hi ->]|[Hi Hc0']].
        * left. split_and!; auto.
        * right. split; [done|]. exists c. split_and!; auto.
    - intros Hc0. destruct (Hins i c Hc0) as [[Hi ->]|[Hi Hc0']].
      + left. split_and!; auto.
      + right. split; [done|]. exists c. split_and!; auto. }
  assert (Hext : ∀ q pc, comments db !! q = Some pc →
            ∃ pc', cs2 !! q = Some pc' ∧ Comment.post pc' = Comment.post pc
                   ∧ ∀ j, j ∈ Comment.replies pc → j ∈ Comment.replies pc').
  { intros q pc Hpc.
    assert (cs1 !! q = Some pc) as Hpc1.
    { unfold cs1. rewrite lookup_insert_ne; [done|]. congruence. }
    unfold cs2. destruct (Comment.parentComment d') as [parent|]; [|eauto].
    destruct (decide (q = parent)) as [->|Hne].
    - exists (push pc). rewrite lookup_alter_eq, Hpc1. split; [done|].
      split; [done|]. intros j Hj. simpl. apply elem_of_app. by left.
    - exists pc. by rewrite lookup_alter_ne. }
  split; simpl.
  - intros q p. unfold ps2. rewrite lookup_alter_Some.
    intros [(_ & p0 & Hp0 & ->)|[_ Hq]]; [|by eapply Hp].
    apply set_commentsCount_ok. by eapply Hp.
  - intros i c Hi. destruct (Hget i c Hi) as [(_ & _ & _ & Hk)|(_ & c0 & Hc0 & _ & _ & Hk)].
    + by apply Hk.
    + apply Hk. by eapply Hc.
  - unfold ps2. rewrite <- (Hcount (Comment.post d')).
    apply (counts_after_sync _ _ (comments db)); [done|].
    intros q Hq. rewrite Hcount. unfold cs1.
    rewrite countLive_insert, countLive_delete_None by done.
    rewrite share_other; done.
  - intros i c Hi. unfold ps2. rewrite lookup_alter_is_Some.
    destruct (Hget i c Hi) as [(_ & -> & _)|(_ & c0 & Hc0 & -> & _)]; [done|].
    by eapply Hr.
  - intros i c Hi.
    destruct (Hget i c Hi) as [(-> & Ep & Eq & _)|(Hne & c0 & Hc0 & Ep & Eq & _)].
    + intros q Hq. rewrite Eq in Hq. destruct (Hparent q Hq) as (pc & Hpc & Hpp).
      exists (push pc). unfold cs2, cs1. rewrite Hq, lookup_alter_eq.
      rewrite lookup_insert_ne by congruence. rewrite Hpc. split; [done|].
      split; [simpl; congruence|]. simpl. apply elem_of_app. right.
      by apply list_elem_of_singleton.
    + apply (linked_same_parent _ _ c0); [done..|].
      apply (linked_mono (comments db)); [done|]. by eapply Hl.
  - intros i. unfold ps2. rewrite lookup_alter_is_Some. intros Hi.
    specialize (Hfp i Hi). unfold cid. lia.
  - intros i [c Hi].
    destruct (Hget i c Hi) as [(-> & _)|(_ & c0 & Hc0 & _)]; [lia|].
    assert (i < nextId db)%nat by eauto. unfold cid. lia.
Qed.

(** The comments of a post are removed, then the post. *)
Lemma consistent_deletePost db pid :
  consistent db →
  consistent (Post_findByIdAndDelete pid (Comment_deleteMany_post pid db)).
Proof.
  intros [Hp Hc Hn Hr Hl Hfp Hfc].
  split; simpl.
  - by apply map_Forall_delete.
  - intros i c [Hi _]%map_lookup_filter_Some. by eapply Hc.
  - intros q p [Hne Hq]%lookup_delete_Some.
    rewrite countLive_deleteMany by done. by apply Hn.
  - intros i c [Hi Hne]%map_lookup_filter_Some. simpl in *.
    rewrite lookup_delete_is_Some. split; [done|]. by eapply Hr.
  - intros i c [Hi Hne]%map_lookup_filter_Some q Hq. simpl in *.
    destruct (Hl i c Hi q Hq) as (pc & Hpc & Hpost & Hin).
    exists pc. split; [|done].
    apply map_lookup_filter_Some. split; [done|]. simpl. congruence.
  - intros i [_ Hi]%lookup_delete_is_Some. by apply Hfp.
  - intros i [c [Hi _]%map_lookup_filter_Some]. eauto.
Qed.

(** ** Every handler keeps the store consistent *)

Lemma Post_save_stored_consistent db pid o d now d' db' :
  consistent db → posts db !! pid = Some o →
  Post.likesCount d = Post.likesCount o →
  Post.commentsCount d = Post.commentsCount o →
  Post.publishedAt d = Post.publishedAt o →
  Post_save (Some o) pid d now db = Saved d' db' →
  consistent db'.
Proof.
  intros Hdb Ho Hl Hc Hp Hsave.
  apply Post_save_Saved in Hsave as (Hval & -> & Hposts & Hcomments & Hnext).
  assert (db' = set_posts
                  (<[pid:=Post.pre_save_likes (Some o)
                            (Post.pre_save_derived (Some o) now d)]> (posts db))
                  db) as -> by by apply DB_eq.
  apply (consistent_set_post db pid o); [done..| |].
  - apply hooks_post_ok_stored; [|done..]. by apply (posts_ok db Hdb pid).
  - by rewrite hooks_commentsCount.
Qed.

Lemma Post_save_new_consistent db d now d' db' :
  consistent db →
  Post.likes d = [] → Post.likesCount d = 0 → Post.commentsCount d = 0 →
  Post.publishedAt d = None →
  Post_save None (nextId db) d now db = Saved d' db' →
  consistent db'.
Proof.
  intros Hdb Hl Hn Hc Hp Hsave.
  apply Post_save_Saved in Hsave
    as (Hval & -> & Hposts & Hcomments & Hnone & Hnext & _).
  assert (db' = mkDB
                  (<[nextId db:=Post.pre_save_likes None
                                  (Post.pre_save_derived None now d)]> (posts db))
                  (comments db) (S (nextId db))) as -> by by apply DB_eq.
  apply consistent_new_post; [done..| |].
  - by apply hooks_post_ok_new.
  - by rewrite hooks_commentsCount.
Qed.

(** The hook changes nothing in a new comment. *)
Lemma Comment_pre_save_new now d : Comment.pre_save None now d = d.
Proof. reflexivity. Qed.

Lemma Comment_pre_save_ok o now d :
  comment_ok o → Comment.validate d = [] →
  Comment.likesCount d = Comment.likesCount o →
  comment_ok (Comment.pre_save (Some o) now d).
Proof.
  intros [Hlikes _] Hval Hn. split.
  - unfold Comment.pre_save, Comment.isModified.
    destruct (bool_decide (Comment.likes o = Comment.likes d)) eqn:Hmod;
      simpl; split_ifs; simpl; try done;
      apply bool_decide_eq_true in Hmod; by rewrite Hn, Hlikes, Hmod.
  - destruct (Comment_pre_save_frame (Some o) now d) as (Hc & _).
    unfold Comment.validate in *. by rewrite Hc.
Qed.

Lemma Comment_save_stored_consistent db cid o d now d' db' :
  consistent db → comments db !! cid = Some o →
  Comment.post d = Comment.post o →
  Comment.parentComment d = Comment.parentComment o →
  Comment.replies d = Comment.replies o →
  Comment.likesCount d = Comment.likesCount o →
  Comment_save (Some o) cid d now db = Saved d' db' →
  consistent db'.
Proof.
  intros Hdb Ho Hpost Hparent Hreplies Hn Hsave.
  apply Comment_save_Saved in Hsave as (Hval & -> & Hcomments & Hposts & Hnext).
  destruct (Comment_pre_save_frame (Some o) now d)
    as (_ & Ep & _ & Eq & Er & _).
  assert (db' = syncCommentsCount (Comment.post (Comment.pre_save (Some o) now d))
                  (set_comments (<[cid:=Comment.pre_save (Some o) now d]> (comments db)) db))
    as -> by by apply DB_eq.
  apply (consistent_set_comment db cid o _ Hdb Ho); [|congruence..].
  apply Comment_pre_save_ok; [|done..]. by apply (comments_ok db Hdb cid).
Qed.

Lemma createPost_consistent user b now db :
  consistent db → consistent (createPost user b now db).2.
Proof.
  intros Hdb. unfold createPost. split_ifs; [done|].
  destruct (Post_save _ _ _ _ _) eqn:Hsave; simpl; [|done..].
  by apply (Post_save_new_consistent db (newPost user b now) now d db0).
Qed.

Lemma updatePost_consistent user pid b now db :
  consistent db → consistent (updatePost user pid b now db).2.
Proof.
  intros Hdb. unfold updatePost.
  destruct (posts db !! pid) as [post|] eqn:Hpost; [|done].
  destruct (denied _ _); [done|].
  destruct (Post_save _ _ _ _ _) eqn:Hsave; simpl; [|done..].
  destruct (applyPostBody_frame b post) as (_ & _ & Hl & Hc & Hp & _).
  by eapply Post_save_stored_consistent.
Qed.

Lemma deletePost_consistent user pid db :
  consistent db → consistent (deletePost user pid db).2.
Proof.
  intros Hdb. unfold deletePost.
  destruct (posts db !! pid) as [post|] eqn:Hpost; [|done].
  destruct (denied _ _); [done|]. simpl. by apply consistent_deletePost.
Qed.

Lemma togglePostLike_consistent user pid now db :
  consistent db → consistent (togglePostLike user pid now db).2.
Proof.
  intros Hdb. unfold togglePostLike.
  destruct (posts db !! pid) as [post|] eqn:Hpost; [|done].
  destruct (Post_save _ _ _ _ _) eqn:Hsave; simpl; [|done..].
  eapply Post_save_stored_consistent; [| | | | |exact Hsave]; done.
Qed.

Lemma getPost_consistent user pid now db :
  consistent db → consistent (getPost user pid now db).2.
Proof.
  intros Hdb. unfold getPost.
  destruct (posts db !! pid) as [post|] eqn:Hpost; [|done].
  split_ifs; try done.
  destruct (Post_save _ _ _ _ _) eqn:Hsave; simpl; [|done..].
  eapply Post_save_stored_consistent; [| | | | |exact Hsave]; done.
Qed.

Lemma createComment_consistent user pid comment parent now db :
  consistent db → consistent (createComment user pid comment parent now db).2.
Proof.
  intros Hdb. unfold createComment.
  destruct (blank comment); [done|].
  destruct (posts db !! pid) as [post|] eqn:Hpost; [|done].
  destruct (negb _); [done|].
  destruct (match parent with Some _ => _ | None => _ end) eqn:Hparent; [done|].
  destruct (Comment_save _ _ _ _ _) eqn:Hsave; simpl; [|done..].
  apply Comment_save_Saved in Hsave as (Hval & -> & Hcomments & Hposts & Hnone & Hnext).
  rewrite Comment_pre_save_new in *.
  set (doc := newComment user pid (default "" comment) parent now) in *.
  assert (db0 = syncCommentsCount (Comment.post doc)
                  (mkDB (posts db) (<[nextId db:=doc]> (comments db)) (S (nextId db))))
    as -> by by apply DB_eq.
  apply (consistent_new_comment db doc Hdb Hnone).
  - done.
  - simpl. by rewrite Hpost.
  - simpl. intros q ->. unfold invalidParent in Hparent.
    destruct (comments db !! q) as [pc|]; [|done].
    apply negb_false_iff, bool_decide_eq_true in Hparent. eauto.
Qed.

Lemma updateComment_consistent user cid comment now db :
  consistent db → consistent (updateComment user cid comment now db).2.
Proof.
  intros Hdb. unfold updateComment.
  destruct (blank comment); [done|].
  destruct (comments db !! cid) as [c|] eqn:Hc; [|done].
  destruct (Comment.isDeleted c); [done|].
  destruct (negb _); [done|].
  destruct (Comment_save _ _ _ _ _) eqn:Hsave; simpl; [|done..].
  eapply Comment_save_stored_consistent; [| | | | | |exact Hsave]; done.
Qed.

Lemma deleteComment_consistent user cid now db :
  consistent db → consistent (deleteComment user cid now db).2.
Proof.
  intros Hdb. unfold deleteComment.
  destruct (comments db !! cid) as [c|] eqn:Hc; [|done].
  destruct (denied _ _); [done|].
  destruct (Comment_save _ _ _ _ _) eqn:Hsave; simpl; [|done..].
  eapply Comment_save_stored_consistent; [| | | | | |exact Hsave]; done.
Qed.

Lemma toggleCommentLike_consistent user cid now db :
  consistent db → consistent (toggleCommentLike user cid now db).2.
Proof.
  intros Hdb. unfold toggleCommentLike.
  destruct (comments db !! cid) as [c|] eqn:Hc; [|done].
  destruct (Comment.isDeleted c); [done|].
  destruct (Comment_save _ _ _ _ _) eqn:Hsave; simpl; [|done..].
  eapply Comment_save_stored_consistent; [| | | | | |exact Hsave]; done.
Qed.

Lemma step_consistent db db' : step db db' → consistent db → consistent db'.
Proof.
  destruct 1;
    auto using createPost_consistent, updatePost_consistent,
      deletePost_consistent, togglePostLike_consistent, getPost_consistent,
      createComment_consistent, updateComment_consistent,
      deleteComment_consistent, toggleCommentLike_consistent.
Qed.

Lemma emptyDB_consistent : consistent emptyDB.
Proof.
  split; simpl; try apply map_Forall_empty;
    intros i; rewrite lookup_empty; by intros [? ?].
Qed.

Lemma steps_consistent db db' : rtc step db db' → consistent db → consistent db'.
Proof. induction 1; eauto using step_consistent. Qed.

Lemma reachable_consistent db : reachable db → consistent db.
Proof. intros Hrun. eapply steps_consistent; [done|]. apply emptyDB_consistent. Qed.

(** ** The sample stores *)

Lemma draft_db_reachable : reachable draft_db.
Proof. apply rtc_once. apply step_createPost. Qed.

Lemma draft_db_post : posts draft_db !! 0 = Some draft_post.
Proof. vm_compute. reflexivity. Qed.

Lemma published_db_reachable : reachable published_db.
Proof. apply rtc_once. apply step_createPost. Qed.

Lemma published_db_post : posts published_db !! 0 = Some published_post.
Proof. vm_compute. reflexivity. Qed.

Lemma thread_db_reachable : reachable thread_db.
Proof.
  eapply rtc_l; [apply step_createPost|].
  eapply rtc_l; [apply step_createComment|].
  apply rtc_once. apply step_createComment.
Qed.

Lemma thread_db_reply :
  comments thread_db !! 2
  = Some (Comment.mk "second" 0 100 (Some 1) [] [] 0 false None false None 3).
Proof. vm_compute. reflexivity. Qed.

(** ** Deleting a post *)

(** The store that the delete route leaves is the last of the stores it
    goes through, or the store it started from when it wrote nothing. *)
Lemma deletePost_stores_last user pid db :
  (deletePost user pid db).2 = default db (last (deletePost_stores user pid db)).
Proof.
  unfold deletePost, deletePost_stores.
  destruct (posts db !! pid) as [post|]; [|done].
  by destruct (denied (Post.author post) user).
Qed.

(** C8.  When the author of a post or an admin deletes it, the request
    succeeds and the handler goes through two stores: in the first the
    comments on the post are gone and the post is still stored, in the
    second, which is the store the request leaves, the post is gone as
    well.  Starting from a store that the handlers produce, no store on
    the way holds a comment whose post is missing.  Afterwards the post
    and every comment that was on it are not found: the update, delete and
    like routes of such a comment answer 404. *)
Theorem deletePost_cascades :
  ∀ user pid db post,
    posts db !! pid = Some post →
    Post.author post = id user ∨ role user = "admin" →
    let run := deletePost user pid db in
    succeeds run.1
    ∧ (∃ mid,
         deletePost_stores user pid db = [mid; run.2]
         ∧ mid = Comment_deleteMany_post pid db
         ∧ run.2 = Post_findByIdAndDelete pid mid
         ∧ posts mid !! pid = Some post
         ∧ (∀ cid c, comments db !! cid = Some c → Comment.post c = pid →
              comments mid !! cid = None)
         ∧ (∀ cid c, comments db !! cid = Some c → Comment.post c ≠ pid →
              comments mid !! cid = Some c))
    ∧ (reachable db →
       ∀ db', db' ∈ deletePost_stores user pid db →
         ∀ cid c, comments db' !! cid = Some c →
           is_Some (posts db' !! Comment.post c))
    ∧ posts run.2 !! pid = None
    ∧ (∀ cid c, comments db !! cid = Some c → Comment.post c = pid →
         comments run.2 !! cid = None
         ∧ (∀ u body now, blank body = false →
              kind_of (updateComment u cid body now run.2).1 = Some NotFound)
         ∧ (∀ u now, kind_of (deleteComment u cid now run.2).1 = Some NotFound)
         ∧ (∀ u now, kind_of (toggleCommentLike u cid now run.2).1 = Some NotFound)).
Proof.
  intros user pid db post Hpost Hright run.
  set (db1 := Comment_deleteMany_post pid db).
  assert (Hden : denied (Post.author post) user = false).
  { unfold denied. destruct Hright as [-> | ->].
    - by rewrite bool_decide_eq_true_2.
    - rewrite (bool_decide_eq_true_2 ("admin" = "admin")) by done.
      apply andb_false_r. }
  assert (Hrun : run = (Json 200 (Info "Post deleted successfully"),
                        Post_findByIdAndDelete pid db1)).
  { unfold run, deletePost. by rewrite Hpost, Hden. }
  assert (Hstores : deletePost_stores user pid db
                    = [db1; Post_findByIdAndDelete pid db1]).
  { unfold deletePost_stores. by rewrite Hpost, Hden. }
  assert (Hgone : ∀ cid c, comments db !! cid = Some c → Comment.post c = pid →
            comments db1 !! cid = None).
  { intros cid c Hc Hon. simpl. apply map_lookup_filter_None_2. right.
    intros c' Hc' Hne. simpl in Hne. congruence. }
  rewrite Hrun, Hstores. simpl. split_and!; try done.
  - exists db1. split_and!; try done.
    intros cid c Hc Hne. simpl. by apply map_lookup_filter_Some_2.
  - intros Hdb db' Hin cid c Hc.
    pose proof (reachable_consistent db Hdb) as Hcons.
    apply elem_of_cons in Hin as [->|Hin].
    + simpl in *. apply map_lookup_filter_Some_1_1 in Hc.
      exact (refs_ok db Hcons cid c Hc).
    + apply list_elem_of_singleton in Hin as ->.
      exact (refs_ok _ (consistent_deletePost db pid Hcons) cid c Hc).
  - apply lookup_delete_eq.
  - intros cid c Hc Hon. specialize (Hgone cid c Hc Hon). simpl in Hgone.
    split; [done|]. split_and!.
    + intros u body now Hbody. unfold updateComment. rewrite Hbody. simpl.
      by rewrite Hgone.
    + intros u now. unfold deleteComment. simpl. by rewrite Hgone.
    + intros u now. unfold toggleCommentLike. simpl. by rewrite Hgone.
Qed.

Lemma deletePost_cascades_witness :
  let run := deletePost alice 0 thread_db in
  succeeds run.1
  ∧ is_Some (comments thread_db !! 1) ∧ is_Some (comments thread_db !! 2)
  ∧ comments run.2 !! 1 = None ∧ comments run.2 !! 2 = None
  ∧ posts run.2 !! 0 = None
  ∧ kind_of (updateComment bob 1 (Some "again") 5 run.2).1 = Some NotFound.
Proof.
  intros run.
  assert (Hpost : posts thread_db !! 0
                  = Some (Post.set_commentsCount 2 published_post))
    by (vm_compute; reflexivity).
  assert (Hc1 : comments thread_db !! 1
                = Some (Comment.mk "first" 0 101 None [2] [] 0 false None false
                          None 2))
    by (vm_compute; reflexivity).
  destruct (deletePost_cascades alice 0 thread_db _ Hpost (or_introl eq_refl))
    as (Hok & _ & _ & Hgone & Hcomments).
  destruct (Hcomments 1 _ Hc1 eq_refl) as (Hgone1 & Hupdate & _).
  destruct (Hcomments 2 _ thread_db_reply eq_refl) as (Hgone2 & _).
  split_and!.
  - exact Hok.
  - rewrite Hc1. eexists. reflexivity.
  - rewrite thread_db_reply. eexists. reflexivity.
  - exact Hgone1.
  - exact Hgone2.
  - exact Hgone.
  - exact (Hupdate bob (Some "again") 5 eq_refl).
Defined.

(** ** Creating a comment *)

(** A comment that fails validation gives a response of the validation
    kind. *)
Lemma Comment_save_Invalid orig cid d now db errors :
  Comment_save orig cid d now db = Invalid errors →
  kind_of (Json 400 (Info (join_errors errors))) = Some ValidationError.
Proof.
  unfold Comment_save, Comment.validate.
  repeat case_bool_decide; destruct orig; try case_bool_decide;
    intros [= <-]; reflexivity.
Qed.

(** The response of the create route once the body, the post and the
    parent are accepted. *)
Lemma createComment_accepted user pid comment parent now db post :
  blank comment = false → posts db !! pid = Some post →
  Post.status post = "Published" →
  match parent with
  | Some q => invalidParent pid q db = false
  | None => True
  end →
  kind_of (createComment user pid comment parent now db).1 = None
  ∨ kind_of (createComment user pid comment parent now db).1 = Some ValidationError
  ∨ kind_of (createComment user pid comment parent now db).1 = Some Fatal.
Proof.
  intros Hbody Hpost Hstatus Hparent. unfold createComment.
  rewrite Hbody, Hpost, Hstatus. simpl.
  assert (match parent with
          | Some q => invalidParent pid q db
          | None => false
          end = false) as ->.
  { by destruct parent. }
  destruct (Comment_save _ _ _ _ _) eqn:Hsave; simpl; auto.
  right. left. by eapply Comment_save_Invalid.
Qed.

(** The three checks that come before the parent is looked at. *)
Lemma createComment_blank user pid comment parent now db :
  blank comment = true →
  createComment user pid comment parent now db
  = (Json 400 (Info "Comment content is required"), db).
Proof. intros Hbody. unfold createComment. by rewrite Hbody. Qed.

Lemma createComment_missing_post user pid comment parent now db :
  blank comment = false → posts db !! pid = None →
  createComment user pid comment parent now db
  = (Json 404 (Info "Post not found"), db).
Proof. intros Hbody Hpost. unfold createComment. by rewrite Hbody, Hpost. Qed.

Lemma createComment_unpublished user pid comment parent now db post :
  blank comment = false → posts db !! pid = Some post →
  Post.status post ≠ "Published" →
  createComment user pid comment parent now db
  = (Json 400 (Info "Cannot comment on unpublished posts"), db).
Proof.
  intros Hbody Hpost Hstatus. unfold createComment. rewrite Hbody, Hpost.
  by rewrite bool_decide_eq_false_2.
Qed.

(** A body that is too long is refused by the validator once the parent is
    accepted. *)
Lemma createComment_too_long user pid v parent now db post :
  blank (Some v) = false → (1000 < String.length (JS.trim v))%nat →
  posts db !! pid = Some post → Post.status post = "Published" →
  match parent with
  | Some q => ∃ pc, comments db !! q = Some pc ∧ Comment.post pc = pid
  | None => True
  end →
  createComment user pid (Some v) parent now db
  = (Json 400 (Info "Comment cannot exceed 1000 characters"), db).
Proof.
  intros Hbody Hlen Hpost Hstatus Hparent.
  assert (Hne : JS.trim v ≠ "").
  { intros Hempty. rewrite Hempty in Hlen. simpl in Hlen. lia. }
  assert (Hinv : match parent with
                 | Some q => invalidParent pid q db
                 | None => false
                 end = false).
  { destruct parent as [q|]; [|done]. destruct Hparent as (pc & Hpc & Hon).
    unfold invalidParent. rewrite Hpc. by rewrite bool_decide_eq_true_2. }
  unfold createComment. rewrite Hbody, Hpost, Hstatus. simpl. rewrite Hinv.
  unfold Comment_save, Comment.validate. simpl.
  rewrite bool_decide_eq_false_2 by done.
  by rewrite bool_decide_eq_true_2 by lia.
Qed.

(** What the create route stores once the body, the post and the parent
    are accepted. *)
Lemma createComment_stores user pid v parent now db post :
  consistent db → blank (Some v) = false →
  (String.length (JS.trim v) ≤ 1000)%nat →
  posts db !! pid = Some post → Post.status post = "Published" →
  match parent with
  | Some q => ∃ pc, comments db !! q = Some pc ∧ Comment.post pc = pid
  | None => True
  end →
  let run := createComment user pid (Some v) parent now db in
  let cid := nextId db in
  let doc := Comment.mk (JS.trim v) pid (id user) parent [] [] 0 false None
               false None now in
  run.1 = Json 201 (CommentDoc cid doc)
  ∧ comments db !! cid = None
  ∧ comments run.2 !! cid = Some doc
  ∧ posts run.2 !! pid
    = Some (Post.set_commentsCount (S (Post.commentsCount post)) post)
  ∧ (∀ q pc, parent = Some q → comments db !! q = Some pc →
       comments run.2 !! q
       = Some (Comment.set_replies (Comment.replies pc ++ [cid]) pc)).
Proof.
  intros Hcons Hbody Hlen Hpost Hstatus Hparent run cid doc.
  assert (Hfree : comments db !! cid = None).
  { destruct (comments db !! cid) as [c|] eqn:Hc; [|done].
    assert (cid < nextId db)%nat; [|unfold cid in *; lia].
    apply (comments_fresh db Hcons). eauto. }
  assert (Hne : JS.trim v ≠ "").
  { intros Hempty. unfold blank in Hbody. rewrite Hempty in Hbody.
    simpl in Hbody. by rewrite orb_true_r in Hbody. }
  assert (Hsave : Comment_save None cid doc now db
                  = Saved doc
                      (syncCommentsCount pid
                         (mkDB (posts db) (<[cid:=doc]> (comments db)) (S (nextId db))))).
  { unfold Comment_save, Comment.validate. simpl.
    rewrite bool_decide_eq_false_2 by done.
    rewrite bool_decide_eq_false_2 by lia.
    rewrite Hfree. by rewrite bool_decide_eq_false_2 by (by intros [? ?]). }
  assert (Hinv : match parent with
                 | Some q => invalidParent pid q db
                 | None => false
                 end = false).
  { destruct parent as [q|]; [|done]. destruct Hparent as (pc & Hpc & Hon).
    unfold invalidParent. rewrite Hpc. by rewrite bool_decide_eq_true_2. }
  assert (Hrun : run = (Json 201 (CommentDoc cid doc),
                        match parent with
                        | Some q =>
                            pushReply q cid
                              (syncCommentsCount pid
                                 (mkDB (posts db) (<[cid:=doc]> (comments db))
                                    (S (nextId db))))
                        | None =>
                            syncCommentsCount pid
                              (mkDB (posts db) (<[cid:=doc]> (comments db))
                                 (S (nextId db)))
                        end)).
  { unfold run, createComment. rewrite Hbody, Hpost, Hstatus. simpl.
    rewrite Hinv. fold cid. simpl.
    change (newComment user pid v parent now) with doc. by rewrite Hsave. }
  rewrite Hrun. simpl. split_and!; try done.
  - destruct parent as [q|]; simpl; [|apply lookup_insert_eq].
    destruct Hparent as (pc & Hpc & _).
    rewrite lookup_alter_ne by congruence. apply lookup_insert_eq.
  - assert (posts (match parent with
                   | Some q =>
                       pushReply q cid
                         (syncCommentsCount pid
                            (mkDB (posts db) (<[cid:=doc]> (comments db))
                               (S (nextId db))))
                   | None =>
                       syncCommentsCount pid
                         (mkDB (posts db) (<[cid:=doc]> (comments db))
                            (S (nextId db)))
                   end)
            = alter (Post.set_commentsCount (countLive pid (<[cid:=doc]> (comments db))))
                pid (posts db)) as -> by by destruct parent.
    rewrite lookup_alter_eq, Hpost. simpl. do 2 f_equal.
    rewrite countLive_insert, countLive_delete_None by done.
    rewrite (counts_ok db Hcons pid post Hpost).
    unfold share. by rewrite decide_True.
  - intros q pc -> Hpc. simpl. rewrite lookup_alter_eq.
    rewrite lookup_insert_ne by congruence. by rewrite Hpc.
Qed.

(** A reply to a reply on the same post is stored, and a request with a
    missing parent on a missing post is answered "not found", not "invalid
    parent" (against C1). *)
Lemma reply_to_reply_accepted :
  let db0 := (createPost alice (post_body "Title" "some content" (Some "Published")) 1 emptyDB).2 in
  let db1 := (createComment bob 0 (Some "first") None 2 db0).2 in
  let db2 := (createComment alice 0 (Some "second") (Some 1) 3 db1).2 in
  let run := createComment bob 0 (Some "third") (Some 2) 4 db2 in
  Comment.parentComment <$> comments db2 !! 2 = Some (Some 1)
  ∧ succeeds run.1
  ∧ Comment.parentComment <$> comments run.2 !! 3 = Some (Some 2)
  ∧ Comment.replies <$> comments run.2 !! 2 = Some [3]
  ∧ kind_of (createComment bob 7 (Some "third") (Some 9) 4 db2).1 = Some NotFound.
Proof. vm_compute. done. Qed.

(** C1, amended.  A create request with a parent comment is checked in
    this order, and a check that fails leaves the store as it is: a blank
    body fails as a validation error, a missing post as "not found", a
    post that is not published as "invalid state"; then the request fails
    as "invalid parent" exactly when no comment is stored under the parent
    identifier with the target post as its [post].  Whether the parent is
    itself a reply is not looked at: in a store that the handlers
    produce, with any stored comment on the target post as the parent, a
    body of at most 1000 code units once trimmed is answered 201, stored
    under a new identifier with that parent, and added at the end of the
    replies of the parent; a longer body fails as a validation error. *)
Theorem reply_parent_check :
  (∀ user pid comment parent now db,
      blank comment = true →
      let run := createComment user pid comment (Some parent) now db in
      kind_of run.1 = Some ValidationError ∧ run.2 = db)
  ∧ (∀ user pid comment parent now db,
        blank comment = false → posts db !! pid = None →
        let run := createComment user pid comment (Some parent) now db in
        kind_of run.1 = Some NotFound ∧ run.2 = db)
  ∧ (∀ user pid comment parent now db post,
        blank comment = false → posts db !! pid = Some post →
        Post.status post ≠ "Published" →
        let run := createComment user pid comment (Some parent) now db in
        kind_of run.1 = Some InvalidState ∧ run.2 = db)
  ∧ (∀ user pid comment parent now db post,
        blank comment = false → posts db !! pid = Some post →
        Post.status post = "Published" →
        let run := createComment user pid comment (Some parent) now db in
        (kind_of run.1 = Some InvalidParent
         ↔ ¬ ∃ pc, comments db !! parent = Some pc ∧ Comment.post pc = pid)
        ∧ (kind_of run.1 = Some InvalidParent → run.2 = db))
  ∧ (∀ user pid v parent now db post pc,
        reachable db → blank (Some v) = false →
        posts db !! pid = Some post → Post.status post = "Published" →
        comments db !! parent = Some pc → Comment.post pc = pid →
        let run := createComment user pid (Some v) (Some parent) now db in
        let cid := nextId db in
        let doc := Comment.mk (JS.trim v) pid (id user) (Some parent) [] [] 0
                     false None false None now in
        if bool_decide (String.length (JS.trim v) ≤ 1000)%nat
        then run.1 = Json 201 (CommentDoc cid doc)
             ∧ comments db !! cid = None
             ∧ comments run.2 !! cid = Some doc
             ∧ comments run.2 !! parent
               = Some (Comment.set_replies (Comment.replies pc ++ [cid]) pc)
        else kind_of run.1 = Some ValidationError ∧ run.2 = db).
Proof.
  split_and!.
  - intros user pid comment parent now db Hbody run. unfold run.
    by rewrite createComment_blank.
  - intros user pid comment parent now db Hbody Hpost run. unfold run.
    by rewrite createComment_missing_post.
  - intros user pid comment parent now db post Hbody Hpost Hstatus run.
    unfold run. by rewrite (createComment_unpublished _ _ _ _ _ _ post).
  - intros user pid comment parent now db post Hbody Hpost Hstatus run.
    assert (Hcases :
      (invalidParent pid parent db = true
       ∧ run = (Json 400 (Info "Invalid parent comment"), db)
       ∧ ¬ ∃ pc, comments db !! parent = Some pc ∧ Comment.post pc = pid)
      ∨ (kind_of run.1 ≠ Some InvalidParent
         ∧ ∃ pc, comments db !! parent = Some pc ∧ Comment.post pc = pid)).
    { destruct (invalidParent pid parent db) eqn:Hinv.
      - left. split; [done|]. split.
        + unfold run, createComment. rewrite Hbody, Hpost, Hstatus. simpl.
          by rewrite Hinv.
        + intros (pc & Hpc & Hon). unfold invalidParent in Hinv.
          rewrite Hpc in Hinv. by rewrite bool_decide_eq_true_2 in Hinv.
      - right. split.
        + destruct (createComment_accepted user pid comment (Some parent) now db
                      post Hbody Hpost Hstatus Hinv) as [H|[H|H]];
            unfold run; rewrite H; done.
        + unfold invalidParent in Hinv.
          destruct (comments db !! parent) as [pc|]; [|done].
          apply negb_false_iff, bool_decide_eq_true in Hinv. eauto. }
    destruct Hcases as [(_ & -> & Hno)|(Hkind & Hsome)]; simpl.
    + done.
    + split; [|done]. split; [done|]. intros Hno. by destruct Hno.
  - intros user pid v parent now db post pc Hdb Hbody Hpost Hstatus Hpc Hon
      run cid doc.
    assert (Hparent : ∃ pc, comments db !! parent = Some pc ∧ Comment.post pc = pid)
      by eauto.
    case_bool_decide as Hlen.
    + destruct (createComment_stores user pid v (Some parent) now db post
                  (reachable_consistent db Hdb) Hbody Hlen Hpost Hstatus Hparent)
        as (Hr & Hfree & Hnew & _ & Hlink).
      split_and!; try done. by apply Hlink.
    + unfold run.
      rewrite (createComment_too_long user pid v (Some parent) now db post)
        by (done || lia).
      done.
Qed.

Lemma reply_parent_check_witness :
  let run := createComment bob 0 (Some "third") (Some 2) 4 thread_db in
  Comment.parentComment <$> comments thread_db !! 2 = Some (Some 1)
  ∧ succeeds run.1
  ∧ Comment.parentComment <$> comments run.2 !! 3 = Some (Some 2)
  ∧ Comment.replies <$> comments run.2 !! 2 = Some [3]
  ∧ kind_of (createComment bob 0 (Some "reply") (Some 5) 4 thread_db).1
    = Some InvalidParent.
Proof.
  intros run. subst run.
  pose proof reply_parent_check as (_ & _ & _ & Hcheck & Hreply).
  assert (Hsome : ∃ p, posts thread_db !! 0 = Some p
                       ∧ Post.status p = "Published")
    by (vm_compute; eexists; split; reflexivity).
  destruct Hsome as (post & Hpost & Hstatus).
  assert (Hnext : nextId thread_db = 3) by (vm_compute; reflexivity).
  pose proof (Hreply bob 0 "third" 2 4 thread_db post _ thread_db_reachable
                eq_refl Hpost Hstatus thread_db_reply eq_refl) as Hrun.
  rewrite bool_decide_eq_true_2 in Hrun by (vm_compute; lia).
  destruct Hrun as (Hr & _ & Hnew & Hparent).
  rewrite Hnext in Hr, Hnew, Hparent.
  assert (Hr' : ∃ c, (createComment bob 0 (Some "third") (Some 2) 4 thread_db).1
                     = Json 201 (CommentDoc 3 c))
    by (eexists; exact Hr).
  assert (Hnew' : ∃ c, comments (createComment bob 0 (Some "third") (Some 2) 4
                                   thread_db).2 !! 3 = Some c
                       ∧ Comment.parentComment c = Some 2)
    by (eexists; split; [exact Hnew|reflexivity]).
  assert (Hparent' : ∃ c, comments (createComment bob 0 (Some "third") (Some 2) 4
                                      thread_db).2 !! 2 = Some c
                          ∧ Comment.replies c = [3])
    by (eexists; split; [exact Hparent|reflexivity]).
  destruct Hr' as [c0 Hr'], Hnew' as (c1 & Hnew' & Hp1),
    Hparent' as (c2 & Hparent' & Hp2).
  split_and!.
  - rewrite thread_db_reply. reflexivity.
  - rewrite Hr'. done.
  - rewrite Hnew'. simpl. by rewrite Hp1.
  - rewrite Hparent'. simpl. by rewrite Hp2.
  - destruct (Hcheck bob 0 (Some "reply") 5 4 thread_db post eq_refl Hpost Hstatus)
      as ([_ Hinv] & _).
    apply Hinv. intros (pc & Hpc & _). vm_compute in Hpc. discriminate Hpc.
Defined.

(** A stored post that is saved with its title and slug untouched passes
    the unique index. *)
Lemma Post_save_stored_Saved o pid d now db :
  Post.validate d = [] → Post.title d = Post.title o →
  Post.slug d = Post.slug o →
  let d' := Post.pre_save_likes (Some o) (Post.pre_save_derived (Some o) now d) in
  Post_save (Some o) pid d now db
  = Saved d' (set_posts (<[pid:=d']> (posts db)) db).
Proof.
  intros Hval Ht Hs d'. unfold Post_save. rewrite Hval. fold d'.
  assert (Post.slug d' = Post.slug o) as ->.
  { unfold d'.
    destruct (pre_save_likes_frame (Some o) (Post.pre_save_derived (Some o) now d))
      as (_ & _ & _ & _ & _ & _ & _ & -> & _).
    rewrite pre_save_derived_slug. unfold Post.isModified.
    by rewrite Ht, bool_decide_eq_true_2. }
  by rewrite bool_decide_eq_true_2.
Qed.

(** A new comment is stored when its body passes the validators and the
    next identifier is free. *)
Lemma createComment_stored user pid comment now db post :
  blank (Some comment) = false →
  (String.length (JS.trim comment) ≤ 1000)%nat →
  posts db !! pid = Some post → Post.status post = "Published" →
  comments db !! nextId db = None →
  succeeds (createComment user pid (Some comment) None now db).1.
Proof.
  intros Hbody Hlen Hpost Hstatus Hfree. unfold createComment.
  rewrite Hbody, Hpost, Hstatus. simpl.
  unfold Comment_save, Comment.validate. simpl.
  assert (JS.trim comment ≠ "") as Hne.
  { intros Hempty. unfold blank in Hbody. rewrite Hempty in Hbody.
    simpl in Hbody. by rewrite orb_true_r in Hbody. }
  rewrite bool_decide_eq_false_2 by done.
  rewrite bool_decide_eq_false_2 by lia.
  rewrite Hfree. rewrite bool_decide_eq_false_2 by (by intros [? ?]).
  done.
Qed.

(** A blank body on a missing post is a validation failure, not a "not
    found" (against C9). *)
Lemma blank_comment_on_missing_post :
  kind_of (createComment alice 0 (Some "   ") None 1 emptyDB).1
  = Some ValidationError
  ∧ posts emptyDB !! 0 = None.
Proof. vm_compute. done. Qed.

(** C9, amended.  A create request with a blank body fails as a validation
    error, whatever the post is and whether it is stored.  A request whose
    body is not blank fails as "not found" when the post is missing and as
    "invalid state" when the post is not published.  Each of these leaves
    the store as it is.  On a draft post of a store that the handlers can
    produce, the request fails as "invalid state"; once the author or an
    admin has set the status to "Published", which succeeds, a comment of
    at most 1000 code units once trimmed, with no parent or with a parent
    that is a stored comment on the post, is accepted. *)
Theorem comment_needs_published_post :
  (∀ user pid comment parent now db,
      blank comment = true →
      let run := createComment user pid comment parent now db in
      kind_of run.1 = Some ValidationError ∧ run.2 = db)
  ∧ (∀ user pid comment parent now db,
        blank comment = false → posts db !! pid = None →
        let run := createComment user pid comment parent now db in
        kind_of run.1 = Some NotFound ∧ run.2 = db)
  ∧ (∀ user pid comment parent now db post,
        blank comment = false → posts db !! pid = Some post →
        Post.status post ≠ "Published" →
        let run := createComment user pid comment parent now db in
        kind_of run.1 = Some InvalidState ∧ run.2 = db)
  ∧ (∀ user commenter pid comment parent now now' db post,
        reachable db → posts db !! pid = Some post →
        Post.status post = "Draft" →
        Post.author post = id user ∨ role user = "admin" →
        blank (Some comment) = false →
        (String.length (JS.trim comment) ≤ 1000)%nat →
        match parent with
        | Some q => ∃ pc, comments db !! q = Some pc ∧ Comment.post pc = pid
        | None => True
        end →
        let published := updatePost user pid (patch_status "Published") now db in
        kind_of (createComment commenter pid (Some comment) parent now' db).1
        = Some InvalidState
        ∧ succeeds published.1
        ∧ succeeds (createComment commenter pid (Some comment) parent now' published.2).1).
Proof.
  split_and!.
  - intros user pid comment parent now db Hbody run. unfold run.
    by rewrite createComment_blank.
  - intros user pid comment parent now db Hbody Hpost run. unfold run.
    by rewrite createComment_missing_post.
  - intros user pid comment parent now db post Hbody Hpost Hstatus run.
    unfold run. by rewrite (createComment_unpublished _ _ _ _ _ _ post).
  - intros user commenter pid comment parent now now' db post Hdb Hpost Hstatus
      Hright Hbody Hlen Hparent published.
    apply reachable_consistent in Hdb.
    split.
    { rewrite (createComment_unpublished _ _ _ _ _ _ post); try done.
      by rewrite Hstatus. }
    assert (Hden : denied (Post.author post) user = false).
    { unfold denied. destruct Hright as [-> | ->].
      - by rewrite bool_decide_eq_true_2.
      - rewrite (bool_decide_eq_true_2 ("admin" = "admin")) by done.
        apply andb_false_r. }
    assert (Hval : Post.validate (Post.set_status "Published" post) = []).
    { destruct (posts_ok db Hdb pid post Hpost) as (_ & _ & Hval).
      apply validate_nil. apply validate_nil in Hval.
      destruct Hval as (? & ? & ? & ? & ? & ? & ? & ?).
      split_and!; try done. simpl. unfold Post.statuses. right. left. }
    assert (Hrun : published
                   = let d' := Post.pre_save_likes (Some post)
                                 (Post.pre_save_derived (Some post) now
                                    (Post.set_status "Published" post)) in
                     (Json 200 (PostDoc pid d'),
                      set_posts (<[pid:=d']> (posts db)) db)).
    { unfold published, updatePost. rewrite Hpost, Hden.
      change (applyPostBody (patch_status "Published") post)
        with (Post.set_status "Published" post).
      by rewrite Post_save_stored_Saved. }
    pose proof (updatePost_consistent user pid (patch_status "Published") now db Hdb)
      as Hdb'.
    fold published in Hdb'. rewrite Hrun in *. simpl in *.
    split; [done|].
    edestruct (createComment_stores commenter pid comment parent now')
      as (-> & _); try done.
    + simpl. apply lookup_insert_eq.
    + destruct (pre_save_likes_frame (Some post)
                  (Post.pre_save_derived (Some post) now
                     (Post.set_status "Published" post)))
        as (_ & _ & -> & _).
      by destruct (pre_save_derived_frame (Some post) now
                     (Post.set_status "Published" post)) as (_ & _ & -> & _).
Qed.

Lemma comment_needs_published_post_witness :
  kind_of (createComment bob 0 (Some "hello") None 3 draft_db).1 = Some InvalidState
  ∧ succeeds
      (createComment bob 0 (Some "hello") None 3
         (updatePost alice 0 (patch_status "Published") 2 draft_db).2).1.
Proof.
  destruct comment_needs_published_post as (_ & _ & _ & Hdraft).
  destruct (Hdraft alice bob 0 "hello" None 2 3 draft_db draft_post)
    as (Hbefore & _ & Hafter).
  - apply rtc_once. apply step_createPost.
  - vm_compute. reflexivity.
  - reflexivity.
  - left. reflexivity.
  - vm_compute. reflexivity.
  - vm_compute. lia.
  - exact I.
  - split; [exact Hbefore | exact Hafter].
Defined.

(** ** Deleting a comment *)

(** The document that the delete route saves. *)
Lemma deleteComment_success user cid now db r db' :
  deleteComment user cid now db = (r, db') → succeeds r →
  ∃ c,
    comments db !! cid = Some c
    ∧ denied (Comment.userId c) user = false
    ∧ Comment_save (Some c) cid
        (Comment.set_comment deletedPlaceholder
           (Comment.set_deletedAt (Some now) (Comment.set_isDeleted true c)))
        now db
      = Saved
          (Comment.pre_save (Some c) now
             (Comment.set_comment deletedPlaceholder
                (Comment.set_deletedAt (Some now) (Comment.set_isDeleted true c))))
          db'.
Proof.
  unfold deleteComment. intros Hrun Hok.
  destruct (comments db !! cid) as [c|] eqn:Hc; simplify_eq;
    try absurd_success.
  destruct (denied _ _) eqn:Hden; simplify_eq; try absurd_success.
  destruct (Comment_save _ _ _ _ _) eqn:Hsave; simplify_eq; try absurd_success.
  exists c. split_and!; try done.
  pose proof Hsave as Hsave'.
  apply Comment_save_Saved in Hsave' as (_ & -> & _). done.
Qed.

(** The hook on the document that the delete route saves. *)
Lemma Comment_pre_save_delete c now :
  let doc := Comment.set_comment deletedPlaceholder
               (Comment.set_deletedAt (Some now) (Comment.set_isDeleted true c)) in
  Comment.pre_save (Some c) now doc
  = if bool_decide (Comment.comment c = deletedPlaceholder) then doc
    else Comment.set_editedAt (Some now) (Comment.set_isEdited true doc).
Proof.
  unfold Comment.pre_save, Comment.isModified. simpl.
  rewrite (bool_decide_eq_true_2 (Comment.likes c = Comment.likes c)) by done.
  simpl. by case_bool_decide.
Qed.

(** A comment whose text is the placeholder is not marked as edited when
    it is deleted (against C10). *)
Lemma softDelete_of_placeholder_text_not_edited :
  let db1 := (createComment bob 0 (Some "[This comment has been deleted]") None 2 published_db).2 in
  let run := deleteComment bob 1 3 db1 in
  succeeds run.1
  ∧ Comment.isDeleted <$> comments run.2 !! 1 = Some true
  ∧ Comment.isEdited <$> comments run.2 !! 1 = Some false
  ∧ Comment.editedAt <$> comments run.2 !! 1 = Some None.
Proof. vm_compute. done. Qed.

(** The comment that a successful delete leaves in the store. *)
Lemma deleteComment_fields :
  ∀ user cid now db c r db',
    comments db !! cid = Some c →
    deleteComment user cid now db = (r, db') → succeeds r →
    ∃ c',
      comments db' !! cid = Some c'
      ∧ Comment.isDeleted c' = true ∧ Comment.deletedAt c' = Some now
      ∧ Comment.comment c' = deletedPlaceholder
      ∧ (Comment.comment c ≠ deletedPlaceholder →
         Comment.isEdited c' = true ∧ Comment.editedAt c' = Some now)
      ∧ (Comment.comment c = deletedPlaceholder →
         Comment.isEdited c' = Comment.isEdited c
         ∧ Comment.editedAt c' = Comment.editedAt c).
Proof.
  intros user cid now db c r db' Hc Hrun Hok.
  destruct (deleteComment_success _ _ _ _ _ _ Hrun Hok)
    as (c0 & Hc0 & _ & Hsave).
  rewrite Hc in Hc0. injection Hc0 as <-.
  apply Comment_save_Saved in Hsave as (_ & _ & Hcs & _).
  eexists. split; [rewrite Hcs; apply lookup_insert_eq|].
  destruct (Comment_pre_save_frame (Some c) now
              (Comment.set_comment deletedPlaceholder
                 (Comment.set_deletedAt (Some now) (Comment.set_isDeleted true c))))
    as (-> & _ & _ & _ & _ & _ & -> & -> & _).
  rewrite Comment_pre_save_delete.
  split_and!; try done.
  - intros Hne. by rewrite bool_decide_eq_false_2.
  - intros Heq. by rewrite bool_decide_eq_true_2.
Qed.

(** C10, amended.  A successful delete of a comment sets [isDeleted] and
    [deletedAt]; when the text of the comment was not the placeholder
    already, it also sets [isEdited] and sets [editedAt] to the time of the
    deletion, whoever deletes and whether or not the author ever edited
    the comment; when the text was the placeholder already (the comment was
    deleted before, or was written so), [isEdited] and [editedAt] stay as
    they were. *)
Theorem softDelete_marks_edited :
  ∀ user cid now db c r db',
    comments db !! cid = Some c →
    deleteComment user cid now db = (r, db') → succeeds r →
    ∃ c',
      comments db' !! cid = Some c'
      ∧ Comment.isDeleted c' = true ∧ Comment.deletedAt c' = Some now
      ∧ Comment.comment c' = deletedPlaceholder
      ∧ (Comment.comment c ≠ deletedPlaceholder →
         Comment.isEdited c' = true ∧ Comment.editedAt c' = Some now)
      ∧ (Comment.comment c = deletedPlaceholder →
         Comment.isEdited c' = Comment.isEdited c
         ∧ Comment.editedAt c' = Comment.editedAt c).
Proof. exact deleteComment_fields. Qed.

Lemma softDelete_marks_edited_witness :
  let db1 := (createComment bob 0 (Some "hello") None 2 published_db).2 in
  ∃ c', comments (deleteComment bob 1 3 db1).2 !! 1 = Some c'
        ∧ Comment.isEdited c' = true ∧ Comment.editedAt c' = Some 3.
Proof.
  intros db1.
  assert (Hc : comments db1 !! 1
               = Some (Comment.mk "hello" 0 101 None [] [] 0 false None false None 2))
    by (vm_compute; reflexivity).
  assert (Hrun : deleteComment bob 1 3 db1
                 = ((deleteComment bob 1 3 db1).1, (deleteComment bob 1 3 db1).2))
    by apply surjective_pairing.
  assert (Hok : succeeds (deleteComment bob 1 3 db1).1)
    by (vm_compute; reflexivity).
  destruct (softDelete_marks_edited _ _ _ _ _ _ _ Hc Hrun Hok)
    as (c' & Hc' & _ & _ & _ & Hed & _).
  exists c'. split; [exact Hc'|]. apply Hed. discriminate.
Defined.

(** ** Listing the comments of a post *)

(** The comments of a page are stored top-level comments on the post that
    are not deleted. *)
Lemma listComments_entries pid page limit db status cs total e :
  listComments pid page limit db = Json status (CommentPage cs total) →
  e ∈ cs →
  comments db !! e.1.1 = Some e.1.2
  ∧ Comment.post e.1.2 = pid ∧ Comment.isDeleted e.1.2 = false
  ∧ Comment.parentComment e.1.2 = None
  ∧ e.2 = populateReplies (comments db) e.1.2.
Proof.
  unfold listComments. destruct (posts db !! pid); [|done].
  intros [= <- <- <-] He.
  apply list_elem_of_In, in_map_iff in He as (kc & <- & Hkc).
  apply list_elem_of_In in Hkc.
  apply subseteq_take, subseteq_drop in Hkc.
  rewrite merge_sort_Permutation in Hkc.
  apply elem_of_map_to_list' in Hkc.
  apply map_lookup_filter_Some in Hkc as (Hkc & (Hon & Hlive) & Htop).
  done.
Qed.

(** The populated replies are stored comments that are not deleted. *)
Lemma populateReplies_entries (cs : gmap ObjectId Comment.t) c rid r :
  (rid, r) ∈ populateReplies cs c →
  rid ∈ Comment.replies c ∧ cs !! rid = Some r ∧ Comment.isDeleted r = false.
Proof.
  unfold populateReplies. rewrite list_elem_of_omap.
  intros (x & Hx & Hsome).
  destruct (cs !! x) as [r'|] eqn:Hr; [|done].
  destruct (Comment.isDeleted r') eqn:Hdel; [done|].
  by simplify_eq.
Qed.

(** Whatever a list response shows is stored and not deleted. *)
Lemma listed_not_deleted cid pid page limit db :
  listed cid (listComments pid page limit db) →
  ∃ c, comments db !! cid = Some c ∧ Comment.isDeleted c = false.
Proof.
  destruct (listComments pid page limit db) as [status [| | | |cs total]] eqn:Hlist;
    try done.
  intros (e & He & Hcid).
  destruct (listComments_entries _ _ _ _ _ _ _ _ Hlist He)
    as (Hc & _ & Hdel & _ & Hreplies).
  destruct Hcid as [<-|Hin]; [eauto|].
  apply list_elem_of_In, in_map_iff in Hin as ([rid r] & <- & Hr).
  apply list_elem_of_In in Hr. rewrite Hreplies in Hr.
  apply populateReplies_entries in Hr as (_ & Hr & Hdel'). eauto.
Qed.

(** C6.  In a store that the handlers can produce, a successful delete of
    a comment that is not deleted sets [isDeleted] and [deletedAt], puts
    the placeholder in place of the text, leaves the comment in the
    [replies] of its parent, keeps it out of every list response, and
    makes the comment counter of its post one less. *)
Theorem softDelete_effects :
  ∀ user cid now db c r db',
    reachable db → comments db !! cid = Some c →
    Comment.isDeleted c = false →
    deleteComment user cid now db = (r, db') → succeeds r →
    ∃ c' p p',
      comments db' !! cid = Some c'
      ∧ Comment.isDeleted c' = true ∧ Comment.deletedAt c' = Some now
      ∧ Comment.comment c' = deletedPlaceholder
      ∧ (∀ q, Comment.parentComment c = Some q →
           ∃ pc pc', comments db !! q = Some pc ∧ comments db' !! q = Some pc'
                     ∧ cid ∈ Comment.replies pc
                     ∧ Comment.replies pc' = Comment.replies pc)
      ∧ (∀ pid page limit, ¬ listed cid (listComments pid page limit db'))
      ∧ posts db !! Comment.post c = Some p
      ∧ posts db' !! Comment.post c = Some p'
      ∧ Post.commentsCount p = S (Post.commentsCount p').
Proof.
  intros user cid now db c r db' Hdb Hc Hlive Hrun Hok.
  apply reachable_consistent in Hdb.
  destruct (deleteComment_fields _ _ _ _ _ _ _ Hc Hrun Hok)
    as (c' & Hc' & Hdel & Hat & Htext & _).
  destruct (deleteComment_success _ _ _ _ _ _ Hrun Hok)
    as (c0 & Hc0 & _ & Hsave).
  rewrite Hc in Hc0. injection Hc0 as <-.
  apply Comment_save_Saved in Hsave as (_ & _ & Hcs & Hps & _).
  set (doc := Comment.set_comment deletedPlaceholder
                (Comment.set_deletedAt (Some now) (Comment.set_isDeleted true c))) in *.
  destruct (Comment_pre_save_frame (Some c) now doc)
    as (_ & Epost & _ & _ & Ereplies & _ & Edel & _).
  rewrite Hcs, lookup_insert_eq in Hc'. injection Hc' as Hc'.
  rewrite Hc' in *. change (Comment.post doc) with (Comment.post c) in *.
  change (Comment.replies doc) with (Comment.replies c) in *.
  destruct (refs_ok db Hdb cid c Hc) as [p Hp].
  exists c', p, (Post.set_commentsCount (countLive (Comment.post c) (<[cid:=c']> (comments db))) p).
  split_and!; try done.
  - rewrite Hcs. apply lookup_insert_eq.
  - intros q Hq.
    destruct (links_ok db Hdb cid c Hc q Hq) as (pc & Hpc & _ & Hin).
    destruct (decide (q = cid)) as [->|Hne].
    + exists pc, c'. rewrite Hcs, lookup_insert_eq. split_and!; try done.
      rewrite Hc in Hpc. injection Hpc as <-. done.
    + exists pc, pc. rewrite Hcs, lookup_insert_ne by done. done.
  - intros pid page limit Hlisted.
    apply listed_not_deleted in Hlisted as (c2 & Hc2 & Hlive2).
    rewrite Hcs, lookup_insert_eq in Hc2. injection Hc2 as <-. congruence.
  - rewrite Hps, Epost, lookup_alter_eq, Hp. done.
  - simpl. rewrite (counts_ok db Hdb _ p Hp).
    rewrite countLive_insert, (countLive_lookup _ cid c) by done.
    unfold share. rewrite decide_True by done.
    rewrite decide_False; [done|]. rewrite Epost, Hdel. by intros [_ ?].
Qed.

Lemma softDelete_effects_witness :
  let db1 := (createComment bob 0 (Some "hello") None 2 published_db).2 in
  ∃ p p',
    posts db1 !! 0 = Some p ∧ posts (deleteComment bob 1 3 db1).2 !! 0 = Some p'
    ∧ Post.commentsCount p = S (Post.commentsCount p').
Proof.
  intros db1.
  assert (Hdb : reachable db1).
  { eapply rtc_l; [apply step_createPost|].
    apply rtc_once. apply step_createComment. }
  assert (Hc : comments db1 !! 1
               = Some (Comment.mk "hello" 0 101 None [] [] 0 false None false None 2))
    by (vm_compute; reflexivity).
  assert (Hrun : deleteComment bob 1 3 db1
                 = ((deleteComment bob 1 3 db1).1, (deleteComment bob 1 3 db1).2))
    by apply surjective_pairing.
  assert (Hok : succeeds (deleteComment bob 1 3 db1).1)
    by (vm_compute; reflexivity).
  destruct (softDelete_effects _ _ _ _ _ _ _ Hdb Hc eq_refl Hrun Hok)
    as (c' & p & p' & _ & _ & _ & _ & _ & _ & Hp & Hp' & Hcount).
  exists p, p'. split; [exact Hp|]. split; [exact Hp'|exact Hcount].
Defined.

(** ** What a post keeps along a run *)

Lemma post_evolves_refl p : post_evolves p p.
Proof. done. Qed.

Lemma post_evolves_trans p1 p2 p3 :
  post_evolves p1 p2 → post_evolves p2 p3 → post_evolves p1 p3.
Proof.
  intros (Ha & Hc & Hp & Hs) (Ha' & Hc' & Hp' & Hs').
  split_and!; try congruence.
  - intros Hsome. rewrite Hp', Hp; try done. by rewrite Hp.
  - intros Hsome. rewrite Hs', Hs; try done. by rewrite Hs.
Qed.

Lemma hooks_createdAt orig now d :
  Post.createdAt (Post.pre_save_likes orig (Post.pre_save_derived orig now d))
  = Post.createdAt d.
Proof.
  unfold Post.pre_save_likes, Post.pre_save_derived. split_ifs; done.
Qed.

Lemma hooks_evolve o now d :
  Post.author d = Post.author o → Post.createdAt d = Post.createdAt o →
  Post.publishedAt d = Post.publishedAt o → Post.slug d = Post.slug o →
  post_evolves o (Post.pre_save_likes (Some o) (Post.pre_save_derived (Some o) now d)).
Proof.
  intros Ha Hc Hp Hs.
  destruct (pre_save_likes_frame (Some o) (Post.pre_save_derived (Some o) now d))
    as (_ & _ & _ & _ & _ & Ea & _ & Es & _ & Ep & _).
  destruct (pre_save_derived_frame (Some o) now d)
    as (_ & _ & _ & _ & _ & _ & Fa & _).
  unfold post_evolves. rewrite hooks_createdAt, Ea, Fa, Es, Ep.
  rewrite pre_save_derived_slug, pre_save_derived_publishedAt, Hp, Hs.
  split_and!; try done.
  - intros Hsome. rewrite (bool_decide_eq_true_2 _ Hsome). simpl.
    by rewrite andb_false_r.
  - intros ->. simpl. by rewrite andb_false_r.
Qed.

(** A post of the store after a save is the saved one or was there
    before. *)
Lemma Post_save_trace o pid d now db d' db' i p' :
  posts db !! pid = Some o →
  Post.author d = Post.author o → Post.createdAt d = Post.createdAt o →
  Post.publishedAt d = Post.publishedAt o → Post.slug d = Post.slug o →
  Post_save (Some o) pid d now db = Saved d' db' →
  posts db' !! i = Some p' →
  ∃ p, posts db !! i = Some p ∧ post_evolves p p'.
Proof.
  intros Ho Ha Hc Hp Hs Hsave Hi.
  apply Post_save_Saved in Hsave as (_ & -> & Hposts & _).
  rewrite Hposts in Hi. apply lookup_insert_Some in Hi as [[<- <-]|[Hne Hi]].
  - exists o. split; [done|]. by apply hooks_evolve.
  - exists p'. split; [done|]. apply post_evolves_refl.
Qed.

Lemma Comment_save_trace orig cid d now db d' db' i p' :
  Comment_save orig cid d now db = Saved d' db' →
  posts db' !! i = Some p' →
  ∃ p, posts db !! i = Some p ∧ post_evolves p p'.
Proof.
  intros Hsave Hi.
  apply Comment_save_Saved in Hsave as (_ & _ & _ & Hposts & _).
  rewrite Hposts in Hi. apply lookup_alter_Some in Hi as [(_ & p & Hp & ->)|[_ Hi]].
  - exists p. done.
  - exists p'. split; [done|]. apply post_evolves_refl.
Qed.

(** One request: a post of the new store was in the old one, and has
    kept what [post_evolves] says, or it was created under the next
    identifier. *)
Lemma step_post_trace db db' i p' :
  step db db' → posts db' !! i = Some p' →
  (∃ p, posts db !! i = Some p ∧ post_evolves p p')
  ∨ (posts db !! i = None ∧ i = nextId db).
Proof.
  assert (Hsame : posts db !! i = Some p' →
            ∃ p, posts db !! i = Some p ∧ post_evolves p p').
  { intros Hi. exists p'. split; [done|]. apply post_evolves_refl. }
  destruct 1 as [user b now|user pid b now|user pid|user pid now|user pid now
                |user pid comment parent now|user cid comment now|user cid now
                |user cid now].
  - unfold createPost. split_ifs; [auto|].
    destruct (Post_save _ _ _ _ _) eqn:Hsave; simpl; [|auto..].
    apply Post_save_Saved in Hsave as (_ & _ & Hposts & _ & Hnone & _).
    rewrite Hposts. intros [[<- <-]|[Hne Hi]]%lookup_insert_Some; auto.
  - unfold updatePost.
    destruct (posts db !! pid) as [post|] eqn:Hpost; [|auto].
    destruct (denied _ _); [auto|].
    destruct (Post_save _ _ _ _ _) eqn:Hsave; simpl; [|auto..].
    intros Hi. left.
    destruct (applyPostBody_frame b post) as (Hs & _ & _ & _ & Hp & Ha & _).
    eapply (Post_save_trace post pid (applyPostBody b post));
      [done|done| |done|done|exact Hsave|exact Hi].
    unfold applyPostBody.
    destruct (b_title b), (b_content b), (b_tags b), (b_category b),
      (b_coverImage b), (b_status b), (b_seoTitle b), (b_seoDescription b);
      split_ifs; done.
  - unfold deletePost.
    destruct (posts db !! pid) as [post|] eqn:Hpost; [|auto].
    destruct (denied _ _); [auto|]. simpl.
    intros [_ Hi]%lookup_delete_Some. auto.
  - unfold togglePostLike.
    destruct (posts db !! pid) as [post|] eqn:Hpost; [|auto].
    destruct (Post_save _ _ _ _ _) eqn:Hsave; simpl; [|auto..].
    intros Hi. left.
    eapply (Post_save_trace post pid); [done| | | | |exact Hsave|exact Hi]; done.
  - unfold getPost.
    destruct (posts db !! pid) as [post|] eqn:Hpost; [|auto].
    split_ifs; try auto.
    destruct (Post_save _ _ _ _ _) eqn:Hsave; simpl; [|auto..].
    intros Hi. left.
    eapply (Post_save_trace post pid); [done| | | | |exact Hsave|exact Hi]; done.
  - unfold createComment.
    destruct (blank comment); [auto|].
    destruct (posts db !! pid) as [post|] eqn:Hpost; [|auto].
    destruct (negb _); [auto|].
    destruct (match parent with Some _ => _ | None => _ end); [auto|].
    destruct (Comment_save _ _ _ _ _) eqn:Hsave; simpl; [|auto..].
    intros Hi. left. eapply Comment_save_trace; [exact Hsave|].
    by destruct parent.
  - unfold updateComment.
    destruct (blank comment); [auto|].
    destruct (comments db !! cid) as [c|]; [|auto].
    destruct (Comment.isDeleted c); [auto|].
    destruct (negb _); [auto|].
    destruct (Comment_save _ _ _ _ _) eqn:Hsave; simpl; [|auto..].
    intros Hi. left. by eapply Comment_save_trace.
  - unfold deleteComment.
    destruct (comments db !! cid) as [c|]; [|auto].
    destruct (denied _ _); [auto|].
    destruct (Comment_save _ _ _ _ _) eqn:Hsave; simpl; [|auto..].
    intros Hi. left. by eapply Comment_save_trace.
  - unfold toggleCommentLike.
    destruct (comments db !! cid) as [c|]; [|auto].
    destruct (Comment.isDeleted c); [auto|].
    destruct (Comment_save _ _ _ _ _) eqn:Hsave; simpl; [|auto..].
    intros Hi. left. by eapply Comment_save_trace.
Qed.

(** Identifiers are never handed out again. *)
Lemma step_nextId db db' : step db db' → (nextId db ≤ nextId db')%nat.
Proof.
  destruct 1 as [user b now|user pid b now|user pid|user pid now|user pid now
                |user pid comment parent now|user cid comment now|user cid now
                |user cid now].
  - unfold createPost. split_ifs; [done|].
    destruct (Post_save _ _ _ _ _) eqn:Hsave; simpl; [|done..].
    apply Post_save_Saved in Hsave as (_ & _ & _ & _ & _ & -> & _). lia.
  - unfold updatePost. destruct (posts db !! pid); [|done].
    destruct (denied _ _); [done|].
    destruct (Post_save _ _ _ _ _) eqn:Hsave; simpl; [|done..].
    apply Post_save_Saved in Hsave as (_ & _ & _ & _ & ->). done.
  - unfold deletePost. destruct (posts db !! pid); [|done].
    destruct (denied _ _); done.
  - unfold togglePostLike. destruct (posts db !! pid); [|done].
    destruct (Post_save _ _ _ _ _) eqn:Hsave; simpl; [|done..].
    apply Post_save_Saved in Hsave as (_ & _ & _ & _ & ->). done.
  - unfold getPost. destruct (posts db !! pid); [|done].
    split_ifs; try done.
    destruct (Post_save _ _ _ _ _) eqn:Hsave; simpl; [|done..].
    apply Post_save_Saved in Hsave as (_ & _ & _ & _ & ->). done.
  - unfold createComment. destruct (blank comment); [done|].
    destruct (posts db !! pid); [|done].
    destruct (negb _); [done|].
    destruct (match parent with Some _ => _ | None => _ end); [done|].
    destruct (Comment_save _ _ _ _ _) eqn:Hsave; simpl; [|done..].
    apply Comment_save_Saved in Hsave as (_ & _ & _ & _ & _ & Hnext).
    destruct parent; simpl; lia.
  - unfold updateComment. destruct (blank comment); [done|].
    destruct (comments db !! cid) as [c|]; [|done].
    destruct (Comment.isDeleted c); [done|].
    destruct (negb _); [done|].
    destruct (Comment_save _ _ _ _ _) eqn:Hsave; simpl; [|done..].
    apply Comment_save_Saved in Hsave as (_ & _ & _ & _ & ->). done.
  - unfold deleteComment. destruct (comments db !! cid) as [c|]; [|done].
    destruct (denied _ _); [done|].
    destruct (Comment_save _ _ _ _ _) eqn:Hsave; simpl; [|done..].
    apply Comment_save_Saved in Hsave as (_ & _ & _ & _ & ->). done.
  - unfold toggleCommentLike. destruct (comments db !! cid) as [c|]; [|done].
    destruct (Comment.isDeleted c); [done|].
    destruct (Comment_save _ _ _ _ _) eqn:Hsave; simpl; [|done..].
    apply Comment_save_Saved in Hsave as (_ & _ & _ & _ & ->). done.
Qed.

Lemma steps_nextId db db' : rtc step db db' → (nextId db ≤ nextId db')%nat.
Proof.
  induction 1 as [|db db1 db' Hstep _ IH]; [done|].
  apply step_nextId in Hstep. lia.
Qed.

(** Along a run, a post under an identifier that was handed out before
    the run is the post that was there, and has kept what [post_evolves]
    says. *)
Lemma steps_post_trace db db' i p' :
  rtc step db db' → (i < nextId db)%nat → posts db' !! i = Some p' →
  ∃ p, posts db !! i = Some p ∧ post_evolves p p'.
Proof.
  intros Hrun Hlt. revert db' Hrun p'.
  apply (rtc_ind_r
           (fun db' => ∀ p', posts db' !! i = Some p' →
                        ∃ p, posts db !! i = Some p ∧ post_evolves p p')).
  - intros p' Hi. exists p'. split; [done|]. apply post_evolves_refl.
  - intros db1 db' Hrun Hstep IH p' Hi.
    destruct (step_post_trace _ _ _ _ Hstep Hi) as [(p1 & Hp1 & Hev)|[_ ->]].
    + destruct (IH p1 Hp1) as (p & Hp & Hev').
      exists p. split; [done|]. by eapply post_evolves_trans.
    + apply steps_nextId in Hrun. lia.
Qed.

(** ** The publication date *)

(** C7.  A post that is created has the time of the request as its
    publication date when its status is "Published", and none otherwise.
    In a store that the handlers can produce, an update of a post without
    a publication date gives it the time of the request when it leaves the
    post published, and none otherwise.  A publication date, once there,
    is the same after any run of requests, whatever they do to the
    status. *)
Theorem publishedAt_set_once :
  (∀ user b now db r db',
      createPost user b now db = (r, db') → succeeds r →
      ∃ post,
        posts db' !! nextId db = Some post
        ∧ Post.publishedAt post
          = if bool_decide (Post.status post = "Published") then Some now else None)
  ∧ (∀ user pid b now db r db' post,
        reachable db → posts db !! pid = Some post →
        Post.publishedAt post = None →
        updatePost user pid b now db = (r, db') → succeeds r →
        ∃ post',
          posts db' !! pid = Some post'
          ∧ Post.publishedAt post'
            = if bool_decide (Post.status post' = "Published") then Some now else None)
  ∧ (∀ db db' pid post post' t,
        reachable db → rtc step db db' →
        posts db !! pid = Some post → Post.publishedAt post = Some t →
        posts db' !! pid = Some post' →
        Post.publishedAt post' = Some t).
Proof.
  split_and!.
  - intros user b now db r db' Hrun Hok.
    destruct (createPost_success _ _ _ _ _ _ Hrun Hok)
      as (post & Hsave & -> & _ & _).
    apply Post_save_Saved in Hsave as (_ & -> & Hposts & _).
    eexists. rewrite Hposts, lookup_insert_eq. split; [done|].
    set (d := newPost user b now).
    destruct (pre_save_likes_frame None (Post.pre_save_derived None now d))
      as (_ & _ & -> & _ & _ & _ & _ & _ & _ & -> & _).
    destruct (pre_save_derived_frame None now d) as (_ & _ & -> & _).
    rewrite pre_save_derived_publishedAt. simpl.
    by rewrite andb_true_r.
  - intros user pid b now db r db' post Hdb Hpost Hnone Hrun Hok.
    apply reachable_consistent in Hdb.
    destruct (updatePost_success _ _ _ _ _ _ _ Hrun Hok)
      as (post0 & post' & Hpost0 & _ & Hsave & ->).
    rewrite Hpost in Hpost0. injection Hpost0 as <-.
    apply Post_save_Saved in Hsave as (_ & -> & Hposts & _).
    eexists. rewrite Hposts, lookup_insert_eq. split; [done|].
    set (d := applyPostBody b post).
    destruct (pre_save_likes_frame (Some post) (Post.pre_save_derived (Some post) now d))
      as (_ & _ & -> & _ & _ & _ & _ & _ & _ & -> & _).
    destruct (pre_save_derived_frame (Some post) now d) as (_ & _ & -> & _).
    rewrite pre_save_derived_publishedAt. unfold Post.isModified.
    destruct (applyPostBody_frame b post) as (_ & _ & _ & _ & Hp & _).
    fold d in Hp. rewrite Hp, Hnone. simpl. rewrite andb_true_r.
    destruct (bool_decide (Post.status d = "Published")) eqn:Hpub;
      [|by rewrite andb_false_r].
    rewrite andb_true_r. apply bool_decide_eq_true in Hpub.
    rewrite bool_decide_eq_false_2; [done|].
    intros Hsame. rewrite <- Hsame in Hpub.
    destruct (posts_ok db Hdb pid post Hpost) as (_ & Hset & _).
    destruct (Hset Hpub) as [t Ht]. congruence.
  - intros db db' pid post post' t Hdb Hrun Hpost Ht Hpost'.
    apply reachable_consistent in Hdb.
    assert (pid < nextId db)%nat as Hlt by (apply (posts_fresh db Hdb); eauto).
    destruct (steps_post_trace _ _ _ _ Hrun Hlt Hpost')
      as (p & Hp & _ & _ & Hkeep & _).
    pose proof (eq_trans (eq_sym Hp) Hpost) as Heq. injection Heq as ->.
    rewrite Hkeep, Ht; [done|]. rewrite Ht. eauto.
Qed.

(** Published, archived, published again: the publication date is the
    first one. *)
Lemma publishedAt_set_once_witness :
  let db1 := (updatePost alice 0 (patch_status "Archived") 2 published_db).2 in
  let db2 := (updatePost alice 0 (patch_status "Published") 3 db1).2 in
  ∃ post', posts db2 !! 0 = Some post' ∧ Post.publishedAt post' = Some 1.
Proof.
  intros db1 db2.
  assert (Hsome : is_Some (posts db2 !! 0))
    by (vm_compute; eexists; reflexivity).
  destruct Hsome as [post' Hpost'].
  exists post'. split; [exact Hpost'|].
  destruct publishedAt_set_once as (_ & _ & Hkeep).
  eapply (Hkeep published_db db2 0
            (Post.mk "Title" "some content" (Some "some content...") "" 100 []
               "Other" "Published" 0 [] 0 0 1 (Some "title") (Some 1) false
               "" "" 1)).
  - apply rtc_once. apply step_createPost.
  - eapply rtc_l; [apply step_updatePost|]. apply rtc_once. apply step_updatePost.
  - vm_compute. reflexivity.
  - reflexivity.
  - exact Hpost'.
Defined.

(** ** The counters *)

Lemma syncCommentsCount_idempotent pid db :
  syncCommentsCount pid (syncCommentsCount pid db) = syncCommentsCount pid db.
Proof.
  unfold syncCommentsCount. apply DB_eq; try done. simpl.
  rewrite alter_alter_eq. apply alter_ext. done.
Qed.

(** C2.  In every store that the handlers produce from the empty one - by
    creating, updating, liking, viewing or deleting posts and by creating,
    updating, deleting or liking comments - every post has the size of its
    [likes] as its [likesCount] and the number of the comments on it that
    are not deleted as its [commentsCount]; and counting the comments of a
    post a second time changes nothing. *)
Theorem counters_match_collections :
  (∀ db pid post,
      reachable db → posts db !! pid = Some post →
      Post.likesCount post = length (Post.likes post)
      ∧ Post.commentsCount post
        = size (filter (fun kc : ObjectId * Comment.t =>
                          Comment.post kc.2 = pid ∧ Comment.isDeleted kc.2 = false)
                  (comments db)))
  ∧ (∀ pid db,
        syncCommentsCount pid (syncCommentsCount pid db) = syncCommentsCount pid db).
Proof.
  split; [|apply syncCommentsCount_idempotent].
  intros db pid post Hdb Hpost. apply reachable_consistent in Hdb.
  destruct (posts_ok db Hdb pid post Hpost) as (Hlikes & _).
  split; [done|]. apply (counts_ok db Hdb pid post Hpost).
Qed.

Lemma counters_match_collections_witness :
  let db1 := (togglePostLike bob 0 3 (createComment bob 0 (Some "hello") None 2 published_db).2).2 in
  ∃ post, posts db1 !! 0 = Some post
          ∧ Post.likesCount post = length (Post.likes post).
Proof.
  intros db1.
  assert (Hsome : is_Some (posts db1 !! 0))
    by (vm_compute; eexists; reflexivity).
  destruct Hsome as [post Hpost].
  exists post. split; [exact Hpost|].
  destruct counters_match_collections as (Hcount & _).
  apply (Hcount db1 0 post); [|exact Hpost].
  eapply rtc_l; [apply step_createPost|].
  eapply rtc_l; [apply step_createComment|].
  apply rtc_once. apply step_togglePostLike.
Defined.

(** * Further properties *)

(** ** One request as a write to each collection *)

Lemma Post_save_write orig pid d now db d' db' :
  Post_save orig pid d now db = Saved d' db' →
  posts db' = <[pid:=Post_hooks orig now d]> (posts db)
  ∧ Post.validate d = [].
Proof.
  intros Hsave. by apply Post_save_Saved in Hsave as (Hval & -> & Hposts & _).
Qed.

Lemma Comment_save_posts_write orig cid d now db d' db' :
  Comment_save orig cid d now db = Saved d' db' →
  posts_write db (posts db').
Proof.
  intros Hsave. apply Comment_save_Saved in Hsave as (_ & _ & _ & -> & _).
  apply pw_count.
Qed.

(** Every request leaves the post collection as it is, inserts a new
    post, saves a stored one, deletes one, or writes a comment counter. *)
Lemma step_posts_write db db' : step db db' → posts_write db (posts db').
Proof.
  destruct 1 as [user b now|user pid b now|user pid|user pid now|user pid now
                |user pid comment parent now|user cid comment now|user cid now
                |user cid now].
  - unfold createPost.
    destruct (JS.truthy_opt (b_title b)) eqn:Ht; [|apply pw_none].
    destruct (JS.truthy_opt (b_content b)) eqn:Hc; [|apply pw_none]. simpl.
    destruct (Post_save _ _ _ _ _) eqn:Hsave; simpl; [|apply pw_none..].
    pose proof Hsave as Hsave'.
    apply Post_save_Saved in Hsave' as (_ & _ & _ & _ & Hnone & _).
    apply Post_save_write in Hsave as (-> & Hval). by apply pw_create.
  - unfold updatePost.
    destruct (posts db !! pid) as [post|] eqn:Hpost; [|apply pw_none].
    destruct (denied _ _); [apply pw_none|].
    destruct (Post_save _ _ _ _ _) eqn:Hsave; simpl; [|apply pw_none..].
    apply Post_save_write in Hsave as (-> & Hval).
    apply pw_save; [done| |done]. apply edit_body.
  - unfold deletePost.
    destruct (posts db !! pid) as [post|] eqn:Hpost; [|apply pw_none].
    destruct (denied _ _); [apply pw_none|]. simpl. apply pw_delete.
  - unfold togglePostLike.
    destruct (posts db !! pid) as [post|] eqn:Hpost; [|apply pw_none].
    destruct (Post_save _ _ _ _ _) eqn:Hsave; simpl; [|apply pw_none..].
    apply Post_save_write in Hsave as (-> & Hval).
    apply pw_save; [done| |done]. apply edit_likes.
  - unfold getPost.
    destruct (posts db !! pid) as [post|] eqn:Hpost; [|apply pw_none].
    split_ifs; try apply pw_none.
    destruct (Post_save _ _ _ _ _) eqn:Hsave; simpl; [|apply pw_none..].
    apply Post_save_write in Hsave as (-> & Hval).
    apply pw_save; [done| |done]. apply edit_views.
  - unfold createComment.
    destruct (blank comment); [apply pw_none|].
    destruct (posts db !! pid) as [post|] eqn:Hpost; [|apply pw_none].
    destruct (negb _); [apply pw_none|].
    destruct (match parent with Some _ => _ | None => _ end); [apply pw_none|].
    destruct (Comment_save _ _ _ _ _) eqn:Hsave; simpl; [|apply pw_none..].
    apply Comment_save_posts_write in Hsave. by destruct parent.
  - unfold updateComment.
    destruct (blank comment); [apply pw_none|].
    destruct (comments db !! cid) as [c|]; [|apply pw_none].
    destruct (Comment.isDeleted c); [apply pw_none|].
    destruct (negb _); [apply pw_none|].
    destruct (Comment_save _ _ _ _ _) eqn:Hsave; simpl; [|apply pw_none..].
    by eapply Comment_save_posts_write.
  - unfold deleteComment.
    destruct (comments db !! cid) as [c|]; [|apply pw_none].
    destruct (denied _ _); [apply pw_none|].
    destruct (Comment_save _ _ _ _ _) eqn:Hsave; simpl; [|apply pw_none..].
    by eapply Comment_save_posts_write.
  - unfold toggleCommentLike.
    destruct (comments db !! cid) as [c|]; [|apply pw_none].
    destruct (Comment.isDeleted c); [apply pw_none|].
    destruct (Comment_save _ _ _ _ _) eqn:Hsave; simpl; [|apply pw_none..].
    by eapply Comment_save_posts_write.
Qed.

Lemma blank_false_Some comment :
  blank comment = false → ∃ v, comment = Some v.
Proof. destruct comment; [eauto|done]. Qed.

Lemma Comment_save_stored_write o cid d now db d' db' :
  Comment_save (Some o) cid d now db = Saved d' db' →
  comments db' = <[cid:=Comment.pre_save (Some o) now d]> (comments db)
  ∧ Comment.validate d = [].
Proof.
  intros Hsave.
  by apply Comment_save_Saved in Hsave as (Hval & -> & Hcomments & _).
Qed.

(** Every request leaves the comment collection as it is, inserts a new
    comment (and pushes it on its parent), saves a stored one, or removes
    the comments of a post that is deleted. *)
Lemma step_comments_write db db' :
  step db db' → comments_write db (posts db') (comments db').
Proof.
  destruct 1 as [user b now|user pid b now|user pid|user pid now|user pid now
                |user pid comment parent now|user cid comment now|user cid now
                |user cid now].
  - unfold createPost. split_ifs; [apply cw_none|].
    destruct (Post_save _ _ _ _ _) eqn:Hsave; simpl; [|apply cw_none..].
    apply Post_save_Saved in Hsave as (_ & _ & _ & -> & _). apply cw_none.
  - unfold updatePost.
    destruct (posts db !! pid) as [post|] eqn:Hpost; [|apply cw_none].
    destruct (denied _ _); [apply cw_none|].
    destruct (Post_save _ _ _ _ _) eqn:Hsave; simpl; [|apply cw_none..].
    apply Post_save_Saved in Hsave as (_ & _ & _ & -> & _). apply cw_none.
  - unfold deletePost.
    destruct (posts db !! pid) as [post|] eqn:Hpost; [|apply cw_none].
    destruct (denied _ _); [apply cw_none|]. simpl. by eapply cw_cascade.
  - unfold togglePostLike.
    destruct (posts db !! pid) as [post|] eqn:Hpost; [|apply cw_none].
    destruct (Post_save _ _ _ _ _) eqn:Hsave; simpl; [|apply cw_none..].
    apply Post_save_Saved in Hsave as (_ & _ & _ & -> & _). apply cw_none.
  - unfold getPost.
    destruct (posts db !! pid) as [post|] eqn:Hpost; [|apply cw_none].
    split_ifs; try apply cw_none.
    destruct (Post_save _ _ _ _ _) eqn:Hsave; simpl; [|apply cw_none..].
    apply Post_save_Saved in Hsave as (_ & _ & _ & -> & _). apply cw_none.
  - unfold createComment.
    destruct (blank comment) eqn:Hbody; [apply cw_none|].
    destruct (blank_false_Some _ Hbody) as [v ->].
    destruct (posts db !! pid) as [post|] eqn:Hpost; [|apply cw_none].
    destruct (bool_decide (Post.status post = "Published")) eqn:Hstatus;
      [|apply cw_none].
    apply bool_decide_eq_true in Hstatus. simpl.
    destruct parent as [parent|].
    + destruct (invalidParent pid parent db) eqn:Hparent; [apply cw_none|].
      destruct (Comment_save _ _ _ _ _) eqn:Hsave; simpl; [|apply cw_none..].
      apply Comment_save_Saved in Hsave as (Hval & -> & Hcs & _ & Hnone & _).
      rewrite Comment_pre_save_new in Hcs.
      unfold invalidParent in Hparent.
      destruct (comments db !! parent) as [pc|] eqn:Hpc; [|done].
      apply negb_false_iff, bool_decide_eq_true in Hparent.
      rewrite Hcs.
      rewrite (alter_alt_Some _ _ _ pc).
      * by eapply cw_reply.
      * rewrite lookup_insert_ne; [done|]. congruence.
    + destruct (Comment_save _ _ _ _ _) eqn:Hsave; simpl; [|apply cw_none..].
      apply Comment_save_Saved in Hsave as (Hval & -> & Hcs & _ & Hnone & _).
      rewrite Comment_pre_save_new in Hcs. rewrite Hcs. by eapply cw_create.
  - unfold updateComment.
    destruct (blank comment) eqn:Hbody; [apply cw_none|].
    destruct (blank_false_Some _ Hbody) as [v ->].
    destruct (comments db !! cid) as [c|] eqn:Hc; [|apply cw_none].
    destruct (Comment.isDeleted c) eqn:Hdel; [apply cw_none|].
    destruct (bool_decide (Comment.userId c = id user)) eqn:Hown;
      [|apply cw_none].
    apply bool_decide_eq_true in Hown. simpl.
    destruct (Comment_save _ _ _ _ _) eqn:Hsave; simpl; [|apply cw_none..].
    apply Comment_save_stored_write in Hsave as (-> & Hval).
    apply cw_save; [done| |done]. by eapply cedit_text.
  - unfold deleteComment.
    destruct (comments db !! cid) as [c|] eqn:Hc; [|apply cw_none].
    destruct (denied _ _) eqn:Hden; [apply cw_none|].
    destruct (Comment_save _ _ _ _ _) eqn:Hsave; simpl; [|apply cw_none..].
    apply Comment_save_stored_write in Hsave as (-> & Hval).
    apply cw_save; [done| |done]. by eapply cedit_delete.
  - unfold toggleCommentLike.
    destruct (comments db !! cid) as [c|] eqn:Hc; [|apply cw_none].
    destruct (Comment.isDeleted c) eqn:Hdel; [apply cw_none|].
    destruct (Comment_save _ _ _ _ _) eqn:Hsave; simpl; [|apply cw_none..].
    apply Comment_save_stored_write in Hsave as (-> & Hval).
    apply cw_save; [done| |done]. by apply cedit_likes.
Qed.

(** ** Invariants of the stored posts *)

Section PostsInvariant.
Variable Q : Post.t → Prop.
Hypothesis Q_create :
  ∀ user b now,
    JS.truthy_opt (b_title b) = true → JS.truthy_opt (b_content b) = true →
    Post.validate (newPost user b now) = [] →
    Q (Post_hooks None now (newPost user b now)).
Hypothesis Q_save :
  ∀ o d now, Q o → post_edit o d → Post.validate d = [] →
    Q (Post_hooks (Some o) now d).
Hypothesis Q_count : ∀ o n, Q o → Q (Post.set_commentsCount n o).

Lemma posts_write_Forall db ps :
  posts_write db ps →
  map_Forall (fun _ p => Q p) (posts db) → map_Forall (fun _ p => Q p) ps.
Proof.
  intros Hwrite Hall.
  destruct Hwrite as [|user b now Ht Hc Hval Hnone|pid o d now Ho Hedit Hval|pid|pid n].
  - done.
  - apply map_Forall_insert_2; [|done]. by apply Q_create.
  - apply map_Forall_insert_2; [|done]. apply Q_save; [|done..].
    by apply (Hall pid).
  - by apply map_Forall_delete.
  - intros i p. rewrite lookup_alter_Some.
    intros [(_ & p0 & Hp0 & ->)|[_ Hp]]; [|by eapply Hall].
    apply Q_count. by eapply Hall.
Qed.

Lemma reachable_posts_Forall db :
  reachable db → map_Forall (fun _ p => Q p) (posts db).
Proof.
  unfold reachable. revert db.
  apply (rtc_ind_r (fun db => map_Forall (fun _ p => Q p) (posts db))).
  - apply map_Forall_empty.
  - intros db db' _ Hstep IH.
    eapply posts_write_Forall; [|done]. by apply step_posts_write.
Qed.

End PostsInvariant.

(** ** What a stored post keeps *)

Section PostsRelation.
Variable R : Post.t → Post.t → Prop.
Hypothesis R_refl : ∀ p, R p p.
Hypothesis R_trans : ∀ p1 p2 p3, R p1 p2 → R p2 p3 → R p1 p3.
Hypothesis R_save :
  ∀ o d now, post_edit o d → Post.validate d = [] →
    R o (Post_hooks (Some o) now d).
Hypothesis R_count : ∀ o n, R o (Post.set_commentsCount n o).

Lemma posts_write_rel db ps i p' :
  posts_write db ps → ps !! i = Some p' →
  (∃ p, posts db !! i = Some p ∧ R p p')
  ∨ (posts db !! i = None ∧ i = nextId db).
Proof.
  intros Hwrite Hi.
  destruct Hwrite as [|user b now Ht Hc Hval Hnone|pid o d now Ho Hedit Hval|pid|pid n].
  - left. eauto.
  - apply lookup_insert_Some in Hi as [[<- <-]|[Hne Hi]]; [by right|].
    left. eauto.
  - apply lookup_insert_Some in Hi as [[<- <-]|[Hne Hi]]; left; eauto.
  - apply lookup_delete_Some in Hi as [_ Hi]. left. eauto.
  - apply lookup_alter_Some in Hi as [(<- & p & Hp & ->)|[_ Hi]]; left; eauto.
Qed.

Lemma steps_posts_rel db db' i p' :
  rtc step db db' → (i < nextId db)%nat → posts db' !! i = Some p' →
  ∃ p, posts db !! i = Some p ∧ R p p'.
Proof.
  intros Hrun Hlt. revert db' Hrun p'.
  apply (rtc_ind_r
           (fun db' => ∀ p', posts db' !! i = Some p' →
                        ∃ p, posts db !! i = Some p ∧ R p p')).
  - intros p' Hi. eauto.
  - intros db1 db' Hrun Hstep IH p' Hi.
    destruct (posts_write_rel db1 (posts db') i p' (step_posts_write _ _ Hstep) Hi)
      as [(p1 & Hp1 & Hev)|[_ ->]].
    + destruct (IH p1 Hp1) as (p & Hp & Hev'). eauto.
    + apply steps_nextId in Hrun. lia.
Qed.

End PostsRelation.

(** ** Invariants of the stored comments *)

Section CommentsInvariant.
Variable Q : Comment.t → Prop.
Hypothesis Q_create :
  ∀ user pid v parent now,
    blank (Some v) = false →
    Comment.validate (newComment user pid v parent now) = [] →
    Q (newComment user pid v parent now).
Hypothesis Q_save :
  ∀ o d now, Q o → comment_edit o now d → Comment.validate d = [] →
    Q (Comment.pre_save (Some o) now d).
Hypothesis Q_push : ∀ o cid, Q o → Q (push_reply cid o).

Lemma comments_write_Forall db ps cs :
  comments_write db ps cs →
  map_Forall (fun _ c => Q c) (comments db) → map_Forall (fun _ c => Q c) cs.
Proof.
  intros Hwrite Hall.
  destruct Hwrite as [|user pid v now post Hb Hp Hs Hval Hnone
                     |user pid v parent pc now post Hb Hp Hs Hpc Hon Hval Hnone
                     |cid o d now Ho Hedit Hval|pid post Hp Hps].
  - done.
  - apply map_Forall_insert_2; [|done]. by apply Q_create.
  - apply map_Forall_insert_2; [apply Q_push; by apply (Hall parent)|].
    apply map_Forall_insert_2; [|done]. by apply Q_create.
  - apply map_Forall_insert_2; [|done]. apply Q_save; [|done..].
    by apply (Hall cid).
  - intros i c [Hi _]%map_lookup_filter_Some. by eapply Hall.
Qed.

Lemma reachable_comments_Forall db :
  reachable db → map_Forall (fun _ c => Q c) (comments db).
Proof.
  unfold reachable. revert db.
  apply (rtc_ind_r (fun db => map_Forall (fun _ c => Q c) (comments db))).
  - apply map_Forall_empty.
  - intros db db' _ Hstep IH.
    eapply comments_write_Forall; [|done]. by apply step_comments_write.
Qed.

End CommentsInvariant.

(** ** What a stored comment keeps *)

Section CommentsRelation.
Variable R : Comment.t → Comment.t → Prop.
Hypothesis R_refl : ∀ c, R c c.
Hypothesis R_trans : ∀ c1 c2 c3, R c1 c2 → R c2 c3 → R c1 c3.
Hypothesis R_save :
  ∀ o d now, comment_edit o now d → Comment.validate d = [] →
    R o (Comment.pre_save (Some o) now d).
Hypothesis R_push : ∀ o cid, R o (push_reply cid o).

(** A stored comment is still stored after a request, unless the request
    deleted its post. *)
Lemma comments_write_rel db ps cs i c :
  comments_write db ps cs → comments db !! i = Some c →
  (∃ c', cs !! i = Some c' ∧ R c c')
  ∨ (cs !! i = None ∧ is_Some (posts db !! Comment.post c)
     ∧ ps !! Comment.post c = None).
Proof.
  intros Hwrite Hi.
  destruct Hwrite as [|user pid v now post Hb Hp Hs Hval Hnone
                     |user pid v parent pc now post Hb Hp Hs Hpc Hon Hval Hnone
                     |cid o d now Ho Hedit Hval|pid post Hp Hps].
  - left. eauto.
  - left. exists c. rewrite lookup_insert_ne by congruence. eauto.
  - left. destruct (decide (i = parent)) as [->|Hne].
    + rewrite lookup_insert_eq. assert (pc = c) as -> by congruence. eauto.
    + exists c. rewrite lookup_insert_ne by done.
      rewrite lookup_insert_ne by congruence. eauto.
  - left. destruct (decide (i = cid)) as [->|Hne].
    + rewrite lookup_insert_eq. assert (o = c) as -> by congruence. eauto.
    + exists c. rewrite lookup_insert_ne by done. eauto.
  - destruct (decide (Comment.post c = pid)) as [Hon|Hoff].
    + right. split_and!.
      * apply map_lookup_filter_None_2. right. intros c' Hc'.
        assert (c' = c) as -> by congruence. simpl. auto.
      * rewrite Hon, Hp. eauto.
      * rewrite Hps, Hon. apply lookup_delete_eq.
    + left. exists c. split; [|done].
      apply map_lookup_filter_Some. done.
Qed.

Lemma step_comments_rel db db' i c :
  step db db' → comments db !! i = Some c →
  (∃ c', comments db' !! i = Some c' ∧ R c c')
  ∨ (comments db' !! i = None ∧ is_Some (posts db !! Comment.post c)
     ∧ posts db' !! Comment.post c = None).
Proof.
  intros Hstep. apply comments_write_rel. by apply step_comments_write.
Qed.

(** Backwards: a comment of the store after a run, under an identifier
    handed out before the run, was there before the run. *)
Lemma comments_write_back db ps cs i c' :
  comments_write db ps cs → cs !! i = Some c' →
  (∃ c, comments db !! i = Some c ∧ R c c')
  ∨ (comments db !! i = None ∧ i = nextId db).
Proof.
  intros Hwrite Hi.
  destruct Hwrite as [|user pid v now post Hb Hp Hs Hval Hnone
                     |user pid v parent pc now post Hb Hp Hs Hpc Hon Hval Hnone
                     |cid o d now Ho Hedit Hval|pid post Hp Hps].
  - left. eauto.
  - apply lookup_insert_Some in Hi as [[<- <-]|[Hne Hi]]; [by right|].
    left. eauto.
  - apply lookup_insert_Some in Hi as [[<- <-]|[Hne Hi]]; [left; eauto|].
    apply lookup_insert_Some in Hi as [[<- <-]|[Hne' Hi]]; [by right|].
    left. eauto.
  - apply lookup_insert_Some in Hi as [[<- <-]|[Hne Hi]]; left; eauto.
  - apply map_lookup_filter_Some in Hi as [Hi _]. left. eauto.
Qed.

Lemma steps_comments_rel db db' i c' :
  rtc step db db' → (i < nextId db)%nat → comments db' !! i = Some c' →
  ∃ c, comments db !! i = Some c ∧ R c c'.
Proof.
  intros Hrun Hlt. revert db' Hrun c'.
  apply (rtc_ind_r
           (fun db' => ∀ c', comments db' !! i = Some c' →
                        ∃ c, comments db !! i = Some c ∧ R c c')).
  - intros c' Hi. eauto.
  - intros db1 db' Hrun Hstep IH c' Hi.
    destruct (comments_write_back db1 (posts db') (comments db') i c'
                (step_comments_write _ _ Hstep) Hi)
      as [(c1 & Hc1 & Hev)|[_ ->]].
    + destruct (IH c1 Hc1) as (c & Hc & Hev'). eauto.
    + apply steps_nextId in Hrun. lia.
Qed.

End CommentsRelation.

(** ** The hooks on the documents of the handlers *)

Lemma Post_hooks_views o now n :
  Post_hooks (Some o) now (Post.set_views n o) = Post.set_views n o.
Proof.
  unfold Post_hooks. rewrite pre_save_derived_untouched by done.
  unfold Post.pre_save_likes, Post.isModified. simpl.
  by rewrite bool_decide_eq_true_2.
Qed.

Lemma Post_hooks_toggle o now u t :
  Post_hooks (Some o) now
    (Post.set_likes (toggle_likes u t (Post.likes o)) o)
  = Post.set_likesCount (length (toggle_likes u t (Post.likes o)))
      (Post.set_likes (toggle_likes u t (Post.likes o)) o).
Proof.
  unfold Post_hooks. apply Post_hooks_likes.
  apply not_eq_sym, toggle_likes_changes.
Qed.

Lemma applyPostBody_frame2 b p :
  let p' := applyPostBody b p in
  Post.readTime p' = Post.readTime p ∧ Post.featured p' = Post.featured p
  ∧ Post.createdAt p' = Post.createdAt p.
Proof.
  unfold applyPostBody.
  destruct (b_title b), (b_content b), (b_tags b), (b_category b),
    (b_coverImage b), (b_status b), (b_seoTitle b), (b_seoDescription b);
    split_ifs; simpl; done.
Qed.

Lemma Post_hooks_frame orig now d :
  let d' := Post_hooks orig now d in
  Post.title d' = Post.title d ∧ Post.content d' = Post.content d
  ∧ Post.status d' = Post.status d ∧ Post.likes d' = Post.likes d
  ∧ Post.commentsCount d' = Post.commentsCount d
  ∧ Post.author d' = Post.author d ∧ Post.views d' = Post.views d
  ∧ Post.featured d' = Post.featured d
  ∧ Post.createdAt d' = Post.createdAt d.
Proof.
  unfold Post_hooks, Post.pre_save_likes, Post.pre_save_derived.
  split_ifs; simpl; done.
Qed.

Lemma Post_hooks_readTime orig now d :
  Post.readTime (Post_hooks orig now d)
  = if Post.isModified Post.content true orig d
    then Post.computeReadTime (Post.content d)
    else Post.readTime d.
Proof.
  unfold Post_hooks, Post.pre_save_likes, Post.pre_save_derived, Post.isModified.
  destruct orig; simpl; split_ifs; simpl in *; congruence.
Qed.

Lemma Post_hooks_excerpt orig now d :
  Post.excerpt (Post_hooks orig now d)
  = if Post.isModified Post.content true orig d
       && negb (JS.truthy_opt (Post.excerpt d))
    then Some (Post.makeExcerpt (Post.content d))
    else Post.excerpt d.
Proof.
  unfold Post_hooks, Post.pre_save_likes, Post.pre_save_derived, Post.isModified.
  destruct orig; simpl; split_ifs; simpl in *; congruence.
Qed.

Lemma Post_hooks_slug orig now d :
  Post.slug (Post_hooks orig now d)
  = if Post.isModified Post.title true orig d
       && negb (JS.truthy_opt (Post.slug d))
    then Some (Post.slugify (Post.title d))
    else Post.slug d.
Proof.
  unfold Post_hooks.
  destruct (pre_save_likes_frame orig (Post.pre_save_derived orig now d))
    as (_ & _ & _ & _ & _ & _ & _ & -> & _).
  apply pre_save_derived_slug.
Qed.

(** ** The read time is the one of the stored content *)

(** X1: in every store that the handlers produce, the read time of a post
    is the read time computed from its content, and is at least 1. *)
Theorem readTime_in_sync db pid post :
  reachable db → posts db !! pid = Some post →
  Post.readTime post = Post.computeReadTime (Post.content post)
  ∧ (1 ≤ Post.readTime post)%nat.
Proof.
  intros Hdb Hpost.
  assert (Post.readTime post = Post.computeReadTime (Post.content post)) as ->.
  { revert pid post Hpost.
    apply (reachable_posts_Forall
             (fun p => Post.readTime p = Post.computeReadTime (Post.content p)));
      [| | |done].
    - intros user b now _ _ _. rewrite Post_hooks_readTime. simpl.
      by destruct (Post_hooks_frame None now (newPost user b now)) as (_ & -> & _).
    - intros o d now Ho Hedit _. rewrite Post_hooks_readTime.
      destruct (Post_hooks_frame (Some o) now d) as (_ & -> & _).
      unfold Post.isModified. case_bool_decide as Hmod; simpl; [|done].
      rewrite <- Hmod, <- Ho.
      destruct Hedit as [b|u t|]; try done.
      by destruct (applyPostBody_frame2 b o) as (-> & _).
    - done. }
  split; [done|]. apply computeReadTime_pos.
Qed.

Lemma readTime_in_sync_witness :
  Post.readTime draft_post = Post.computeReadTime (Post.content draft_post)
  ∧ (1 ≤ Post.readTime draft_post)%nat.
Proof.
  exact (readTime_in_sync draft_db 0 draft_post draft_db_reachable draft_db_post).
Defined.

(** ** The excerpt *)

Lemma makeExcerpt_truthy content : JS.truthy (Post.makeExcerpt content) = true.
Proof.
  unfold Post.makeExcerpt, JS.truthy.
  destruct (JS.substring0 150 (JS.strip_tags content)); done.
Qed.

Lemma length_makeExcerpt_153 content :
  (3 ≤ String.length (Post.makeExcerpt content) ≤ 153)%nat.
Proof.
  unfold Post.makeExcerpt. rewrite length_append. simpl.
  pose proof (length_substring0 150 (JS.strip_tags content)). lia.
Qed.

(** The excerpt of every stored post was made by the hook. *)
Lemma reachable_excerpt db pid post :
  reachable db → posts db !! pid = Some post →
  ∃ content, Post.excerpt post = Some (Post.makeExcerpt content).
Proof.
  intros Hdb. revert pid post.
  apply (reachable_posts_Forall
           (fun p => ∃ content, Post.excerpt p = Some (Post.makeExcerpt content)));
    [| | |done].
  - intros user b now _ _ _. rewrite Post_hooks_excerpt. simpl. eauto.
  - intros o d now [content Ho] Hedit _. rewrite Post_hooks_excerpt.
    assert (Post.excerpt d = Post.excerpt o) as ->.
    { destruct Hedit as [b|u t|]; try done.
      by destruct (applyPostBody_frame b o) as (_ & _ & _ & _ & _ & _ & -> & _). }
    rewrite Ho. simpl. rewrite makeExcerpt_truthy. simpl.
    rewrite andb_false_r. eauto.
  - done.
Qed.

(** X2: a post that is created gets as its excerpt the first 150 code
    units of its content without the tags, followed by three dots; in a
    store that the handlers produce, every post has such an excerpt, of 3
    to 153 code units, and no run of requests changes it, whatever it does
    to the content. *)
Theorem excerpt_made_once :
  (∀ user b now db r db',
      createPost user b now db = (r, db') → succeeds r →
      ∃ post,
        posts db' !! nextId db = Some post
        ∧ Post.excerpt post
          = Some (JS.substring0 150 (JS.strip_tags (Post.content post)) ++ "..."))
  ∧ (∀ db db' pid post post',
        reachable db → rtc step db db' →
        posts db !! pid = Some post → posts db' !! pid = Some post' →
        Post.excerpt post' = Post.excerpt post
        ∧ ∃ e, Post.excerpt post = Some e
               ∧ (3 ≤ String.length e ≤ 153)%nat).
Proof.
  split.
  - intros user b now db r db' Hrun Hok.
    destruct (createPost_success _ _ _ _ _ _ Hrun Hok)
      as (post & Hsave & -> & _ & _).
    apply Post_save_Saved in Hsave as (_ & -> & Hposts & _).
    eexists. rewrite Hposts, lookup_insert_eq. split; [done|].
    fold (Post_hooks None now (newPost user b now)).
    rewrite Post_hooks_excerpt. simpl.
    by destruct (Post_hooks_frame None now (newPost user b now)) as (_ & -> & _).
  - intros db db' pid post post' Hdb Hrun Hpost Hpost'.
    destruct (reachable_excerpt db pid post Hdb Hpost) as [content He].
    assert (pid < nextId db)%nat as Hlt.
    { apply (posts_fresh db (reachable_consistent db Hdb)). eauto. }
    destruct (steps_posts_rel
                (fun p p' => JS.truthy_opt (Post.excerpt p) = true →
                             Post.excerpt p' = Post.excerpt p))
      with (db := db) (db' := db') (i := pid) (p' := post')
      as (p & Hp & Hkeep); try done.
    + intros p1 p2 p3 H12 H23 Ht. rewrite H23, H12; try done. by rewrite H12.
    + intros o d now Hedit _ Ht. rewrite Post_hooks_excerpt.
      assert (Post.excerpt d = Post.excerpt o) as ->.
      { destruct Hedit as [b|u t|]; try done.
        by destruct (applyPostBody_frame b o) as (_ & _ & _ & _ & _ & _ & -> & _). }
      rewrite Ht. simpl. by rewrite andb_false_r.
    + pose proof (eq_trans (eq_sym Hp) Hpost) as Heq. injection Heq as ->.
      split.
      * apply Hkeep. rewrite He. simpl. apply makeExcerpt_truthy.
      * exists (Post.makeExcerpt content). split; [done|].
        apply length_makeExcerpt_153.
Qed.

Lemma excerpt_made_once_witness :
  let db' := (updatePost alice 0 (mkPostBody None (Some "another content") None None None None None None) 2 draft_db).2 in
  ∃ post', posts db' !! 0 = Some post'
           ∧ Post.excerpt post' = Some "some content...".
Proof.
  intros db'.
  assert (Hsome : is_Some (posts db' !! 0))
    by (vm_compute; eexists; reflexivity).
  destruct Hsome as [post' Hpost'].
  exists post'. split; [exact Hpost'|].
  destruct excerpt_made_once as (_ & Hkeep).
  destruct (Hkeep draft_db db' 0 draft_post post' draft_db_reachable) as (-> & _).
  - apply rtc_once. apply step_updatePost.
  - exact draft_db_post.
  - exact Hpost'.
  - reflexivity.
Defined.

(** ** The shape of a slug *)

Lemma lower_unit_not_upper c : JS.is_upper (JS.lower_unit c) = false.
Proof. each_ascii c. Qed.

Lemma slug_unit_kept c :
  JS.slug_unit c = true → JS.is_upper c = false → JS.is_space c = false →
  is_slug_unit c = true.
Proof. each_ascii c. Qed.

Lemma space_not_hyphen c : JS.is_space c = true → Ascii.eqb c "-" = false.
Proof. each_ascii c. Qed.

Lemma slug_unit_not_hyphen c : JS.slug_unit c = true → Ascii.eqb c "-" = false.
Proof. each_ascii c. Qed.

Lemma all_units_toLowerCase s :
  all_units (fun c => negb (JS.is_upper c)) (JS.toLowerCase s) = true.
Proof.
  induction s as [|c r IH]; simpl; [done|].
  by rewrite lower_unit_not_upper, IH.
Qed.

Lemma all_units_strip s :
  all_units (fun c => negb (JS.is_upper c)) s = true →
  all_units (fun c => JS.slug_unit c && negb (JS.is_upper c)) (JS.strip_non_alnum s)
  = true.
Proof.
  induction s as [|c r IH]; simpl; [done|].
  intros [Hc Hr]%andb_true_iff.
  destruct (JS.slug_unit c) eqn:Hunit; simpl; [|auto].
  by rewrite Hunit, Hc, IH.
Qed.

Lemma all_units_hyphenate in_run s :
  all_units (fun c => JS.slug_unit c && negb (JS.is_upper c)) s = true →
  all_units is_slug_unit (JS.hyphenate_from in_run s) = true.
Proof.
  revert in_run. induction s as [|c r IH]; intros in_run; simpl; [done|].
  intros [[Hunit Hup%negb_true_iff]%andb_true_iff Hr]%andb_true_iff.
  destruct (JS.is_space c) eqn:Hsp.
  - destruct in_run; simpl; auto.
  - simpl. rewrite IH by done. by rewrite slug_unit_kept.
Qed.

Lemma all_units_substring P n m s :
  all_units P s = true → all_units P (substring n m s) = true.
Proof.
  revert n m. induction s as [|c r IH]; intros n m; simpl.
  - by destruct n, m.
  - intros [Hc Hr]%andb_true_iff.
    destruct n as [|n]; [destruct m as [|m]|]; simpl; auto.
    rewrite Hc. simpl. by apply IH.
Qed.

(** A hyphen of [hyphenate] stands for a whole run of whitespace: when
    the text has no hyphen of its own, no two hyphens follow each other. *)
Lemma single_hyphens_hyphenate in_run s :
  all_units (fun c => JS.slug_unit c && negb (JS.is_upper c)) s = true →
  single_hyphens (JS.hyphenate_from in_run s) = true
  ∧ (in_run = true →
     match JS.hyphenate_from in_run s with
     | String c _ => Ascii.eqb c "-" = false
     | EmptyString => True
     end).
Proof.
  revert in_run. induction s as [|c r IH]; intros in_run; simpl; [done|].
  intros [[Hunit _]%andb_true_iff Hr]%andb_true_iff.
  destruct (JS.is_space c) eqn:Hsp.
  - destruct (IH true Hr) as [Hsingle Hfirst]. destruct in_run; [auto|].
    split; [|done]. simpl. rewrite Hsingle.
    specialize (Hfirst eq_refl).
    destruct (JS.hyphenate_from true r); [done|]. by rewrite Hfirst.
  - destruct (IH false Hr) as [Hsingle _].
    split; [|intros _; by apply slug_unit_not_hyphen].
    simpl. rewrite Hsingle, (slug_unit_not_hyphen c Hunit).
    by destruct (JS.hyphenate_from false r).
Qed.

Lemma single_hyphens_prefix m s :
  single_hyphens s = true → single_hyphens (substring 0 m s) = true.
Proof.
  revert m. induction s as [|c r IH]; intros m; simpl; [by destruct m|].
  intros [Hc Hr]%andb_true_iff. destruct m as [|m]; simpl; [done|].
  rewrite (IH m Hr). destruct r as [|c' r']; [by destruct m|].
  destruct m; simpl; [done|]. by rewrite Hc.
Qed.

(** X3: the slug of any title has at most 50 code units, all of them
    lower-case letters, digits or hyphens, and no two hyphens in a row. *)
Theorem slugify_shape title :
  (String.length (Post.slugify title) ≤ 50)%nat
  ∧ all_units is_slug_unit (Post.slugify title) = true
  ∧ single_hyphens (Post.slugify title) = true.
Proof.
  unfold Post.slugify. split_and!.
  - apply length_substring0.
  - apply all_units_substring, all_units_hyphenate, all_units_strip,
      all_units_toLowerCase.
  - apply single_hyphens_prefix.
    apply (single_hyphens_hyphenate false), all_units_strip,
      all_units_toLowerCase.
Qed.

(** X4: in every store that the handlers produce, every post has a slug,
    and it is the slug of some title. *)
Theorem reachable_slug db pid post :
  reachable db → posts db !! pid = Some post →
  ∃ s, Post.slug post = Some s
       ∧ (String.length s ≤ 50)%nat ∧ all_units is_slug_unit s = true.
Proof.
  intros Hdb Hpost.
  assert (∃ title, Post.slug post = Some (Post.slugify title)) as [title ->].
  { revert pid post Hpost.
    apply (reachable_posts_Forall
             (fun p => ∃ title, Post.slug p = Some (Post.slugify title)));
      [| | |done].
    - intros user b now _ _ _. rewrite Post_hooks_slug. simpl. eauto.
    - intros o d now [title Ho] Hedit _. rewrite Post_hooks_slug.
      assert (Post.slug d = Post.slug o) as ->.
      { destruct Hedit as [b|u t|]; try done.
        by destruct (applyPostBody_frame b o) as (-> & _). }
      rewrite Ho. split_ifs; eauto.
    - done. }
  eexists. split_and!; [done|..]; unfold Post.slugify.
  - apply length_substring0.
  - apply all_units_substring, all_units_hyphenate, all_units_strip,
      all_units_toLowerCase.
Qed.

Lemma reachable_slug_witness :
  ∃ s, Post.slug draft_post = Some s
       ∧ (String.length s ≤ 50)%nat ∧ all_units is_slug_unit s = true.
Proof.
  exact (reachable_slug draft_db 0 draft_post draft_db_reachable draft_db_post).
Defined.

(** ** One like entry for each user *)



Lemma find_like_None_likers u ls : find_like u ls = None ↔ u ∉ likers ls.
Proof.
  unfold find_like, likers. induction ls as [|l ls IH]; simpl.
  - split; [intros _; apply not_elem_of_nil|done].
  - rewrite not_elem_of_cons. case_bool_decide as Hl; [|rewrite IH]; naive_solver.
Qed.

Lemma likers_remove_like u ls x :
  x ∈ likers (remove_like u ls) ↔ x ∈ likers ls ∧ x ≠ u.
Proof.
  unfold remove_like, likers. induction ls as [|l ls IH]; simpl.
  - rewrite elem_of_nil. naive_solver.
  - case_bool_decide as Hl; simpl; rewrite ?elem_of_cons, IH; naive_solver.
Qed.

Lemma NoDup_likers_remove u ls :
  NoDup (likers ls) → NoDup (likers (remove_like u ls)).
Proof.
  unfold remove_like, likers. induction ls as [|l ls IH]; simpl; [done|].
  intros [Hl Hls]%NoDup_cons. case_bool_decide; simpl; [auto|].
  apply NoDup_cons. split; [|auto].
  intros Hin. apply Hl. by apply (likers_remove_like u ls) in Hin as [? _].
Qed.

Lemma NoDup_likers_push u now ls :
  find_like u ls = None → NoDup (likers ls) → NoDup (likers (push_like u now ls)).
Proof.
  intros Habs%find_like_None_likers Hls. unfold push_like, likers.
  rewrite map_app. simpl. apply NoDup_app. split_and!; [done| |apply NoDup_singleton].
  intros x Hx ->%list_elem_of_singleton. done.
Qed.

Lemma NoDup_likers_toggle u now ls :
  NoDup (likers ls) → NoDup (likers (toggle_likes u now ls)).
Proof.
  intros Hls. unfold toggle_likes. destruct (find_like u ls) eqn:Hf.
  - by apply NoDup_likers_remove.
  - by apply NoDup_likers_push.
Qed.

Lemma length_remove_like u ls :
  NoDup (likers ls) → is_Some (find_like u ls) →
  S (length (remove_like u ls)) = length ls.
Proof.
  unfold remove_like, find_like, likers.
  induction ls as [|l ls IH]; simpl; [by intros _ [? ?]|].
  intros [Hl Hls]%NoDup_cons Hsome. case_bool_decide as Hu; simpl.
  - f_equal. fold (remove_like u ls). rewrite remove_like_absent; [done|].
    apply find_like_None_likers. by rewrite <- Hu.
  - f_equal. auto.
Qed.

Lemma reachable_post_likes_NoDup db pid post :
  reachable db → posts db !! pid = Some post →
  NoDup (likers (Post.likes post)).
Proof.
  intros Hdb. revert pid post.
  apply (reachable_posts_Forall (fun p => NoDup (likers (Post.likes p))));
    [| | |done].
  - intros user b now _ _ _.
    destruct (Post_hooks_frame None now (newPost user b now))
      as (_ & _ & _ & -> & _). apply NoDup_nil_2.
  - intros o d now Ho Hedit _.
    destruct (Post_hooks_frame (Some o) now d) as (_ & _ & _ & -> & _).
    destruct Hedit as [b|u t|]; simpl; try done.
    + by destruct (applyPostBody_frame b o) as (_ & -> & _).
    + by apply NoDup_likers_toggle.
  - done.
Qed.

(** X5: in every store that the handlers produce, no user has two like
    entries on a post or on a comment, and the like counter of a comment
    is the size of its likes. *)
Theorem likes_unique db :
  reachable db →
  (∀ pid post, posts db !! pid = Some post → NoDup (likers (Post.likes post)))
  ∧ (∀ cid c, comments db !! cid = Some c →
       NoDup (likers (Comment.likes c))
       ∧ Comment.likesCount c = length (Comment.likes c)).
Proof.
  intros Hdb. split.
  - intros pid post. by apply reachable_post_likes_NoDup.
  - intros cid c Hc. split.
    + revert cid c Hc.
      apply (reachable_comments_Forall (fun c => NoDup (likers (Comment.likes c))));
        [| | |done].
      * intros. apply NoDup_nil_2.
      * intros o d now Ho Hedit _.
        destruct (Comment_pre_save_frame (Some o) now d)
          as (_ & _ & _ & _ & _ & -> & _).
        destruct Hedit; simpl; try done. by apply NoDup_likers_toggle.
      * done.
    + by destruct (comments_ok db (reachable_consistent db Hdb) cid c Hc).
Qed.

Lemma likes_unique_witness :
  let db := (togglePostLike bob 0 2 draft_db).2 in
  ∃ post, posts db !! 0 = Some post ∧ NoDup (likers (Post.likes post)).
Proof.
  intros db.
  assert (Hsome : is_Some (posts db !! 0))
    by (vm_compute; eexists; reflexivity).
  destruct Hsome as [post Hpost].
  exists post. split; [exact Hpost|].
  apply (proj1 (likes_unique db
                  (rtc_r _ _ _ draft_db_reachable (step_togglePostLike _ bob 0 2)))
           0 post Hpost).
Defined.

(** ** Reading a post *)

(** X6: the read route on a stored post of a store that the handlers
    produce.  A post that is not published is shown to its author and to
    admins and is "not found" for everybody else; a published post is
    shown to everybody; the view is counted, by adding one to [views] and
    changing nothing else, when the post is published and the reader is
    not its author. *)
Theorem getPost_views user pid now db post :
  reachable db → posts db !! pid = Some post →
  let run := getPost user pid now db in
  let owner :=
    match user with
    | Some u => bool_decide (id u = Post.author post)
    | None => false
    end in
  let admin :=
    match user with
    | Some u => bool_decide (role u = "admin")
    | None => false
    end in
  let counted := Post.set_views (Post.views post + 1) post in
  if bool_decide (Post.status post = "Published")
  then if owner then run = (Json 200 (PostDoc pid post), db)
       else run = (Json 200 (PostDoc pid counted),
                   set_posts (<[pid:=counted]> (posts db)) db)
  else if owner || admin then run = (Json 200 (PostDoc pid post), db)
       else run = (Json 404 (Info "Post not found"), db).
Proof.
  intros Hdb Hpost run owner admin counted.
  destruct (posts_ok db (reachable_consistent db Hdb) pid post Hpost)
    as (_ & _ & Hval).
  assert (Hsave : Post_save (Some post) pid counted now db
                  = Saved counted (set_posts (<[pid:=counted]> (posts db)) db)).
  { rewrite Post_save_stored_Saved by done.
    fold (Post_hooks (Some post) now counted). unfold counted.
    by rewrite Post_hooks_views. }
  unfold counted in *. clear counted.
  unfold run, getPost. rewrite Hpost.
  destruct (bool_decide (Post.status post = "Published")) eqn:Hpub; simpl.
  - destruct user as [u|]; simpl.
    + unfold owner. destruct (bool_decide (id u = Post.author post)); simpl;
        [done|]. by rewrite Hsave.
    + by rewrite Hsave.
  - destruct user as [u|]; simpl; [|done].
    unfold denied, owner, admin.
    rewrite (bool_decide_ext (Post.author post = id u) (id u = Post.author post))
      by done.
    destruct (bool_decide (id u = Post.author post)),
      (bool_decide (role u = "admin")); done.
Qed.

Lemma getPost_views_witness :
  getPost (Some bob) 0 2 published_db
  = (Json 200 (PostDoc 0 (Post.set_views 1 published_post)),
     set_posts (<[0:=Post.set_views 1 published_post]> (posts published_db))
       published_db).
Proof.
  exact (getPost_views (Some bob) 0 2 published_db published_post
           published_db_reachable published_db_post).
Defined.

(** ** What a post keeps *)

Lemma reachable_not_featured db pid post :
  reachable db → posts db !! pid = Some post → Post.featured post = false.
Proof.
  intros Hdb. revert pid post.
  apply (reachable_posts_Forall (fun p => Post.featured p = false));
    [| | |done].
  - intros user b now _ _ _.
    by destruct (Post_hooks_frame None now (newPost user b now))
      as (_ & _ & _ & _ & _ & _ & _ & -> & _).
  - intros o d now Ho Hedit _.
    destruct (Post_hooks_frame (Some o) now d)
      as (_ & _ & _ & _ & _ & _ & _ & -> & _).
    destruct Hedit as [b|u t|]; simpl; try done.
    by destruct (applyPostBody_frame2 b o) as (_ & -> & _).
  - done.
Qed.

(** X7: along any run of requests a stored post keeps its author and its
    creation date, its [views] never go down, and it is never
    featured. *)
Theorem post_kept_along_run db db' pid post post' :
  reachable db → rtc step db db' →
  posts db !! pid = Some post → posts db' !! pid = Some post' →
  Post.author post' = Post.author post
  ∧ Post.createdAt post' = Post.createdAt post
  ∧ (Post.views post ≤ Post.views post')%nat
  ∧ Post.featured post' = false.
Proof.
  intros Hdb Hrun Hpost Hpost'.
  assert (pid < nextId db)%nat as Hlt.
  { apply (posts_fresh db (reachable_consistent db Hdb)). eauto. }
  destruct (steps_posts_rel
              (fun p p' => Post.author p' = Post.author p
                           ∧ Post.createdAt p' = Post.createdAt p
                           ∧ (Post.views p ≤ Post.views p')%nat))
    with (db := db) (db' := db') (i := pid) (p' := post')
    as (p & Hp & Hkeep); try done.
  - intros p1 p2 p3 (? & ? & ?) (? & ? & ?). split_and!; [congruence..|lia].
  - intros o d now Hedit _.
    destruct (Post_hooks_frame (Some o) now d)
      as (_ & _ & _ & _ & _ & -> & -> & _ & ->).
    destruct Hedit as [b|u t|]; simpl; try done; [|split_and!; [done..|lia]].
    destruct (applyPostBody_frame b o) as (_ & _ & _ & _ & _ & -> & _ & ->).
    by destruct (applyPostBody_frame2 b o) as (_ & _ & ->).
  - pose proof (eq_trans (eq_sym Hp) Hpost) as Heq. injection Heq as ->.
    destruct Hkeep as (Ha & Hc & Hv). split_and!; try done.
    assert (Hdb' : reachable db') by (unfold reachable; by etrans).
    by apply (reachable_not_featured db' pid).
Qed.

Lemma post_kept_along_run_witness :
  let db' := (getPost (Some bob) 0 2 published_db).2 in
  ∃ post', posts db' !! 0 = Some post'
           ∧ (Post.views published_post ≤ Post.views post')%nat.
Proof.
  intros db'.
  assert (Hsome : is_Some (posts db' !! 0))
    by (vm_compute; eexists; reflexivity).
  destruct Hsome as [post' Hpost'].
  exists post'. split; [exact Hpost'|].
  apply (post_kept_along_run published_db db' 0 published_post post'
           published_db_reachable (rtc_once _ _ (step_getPost _ (Some bob) 0 2))
           published_db_post Hpost').
Defined.

(** X8: no handler features a post: in every store that the handlers
    produce the featured posts are none. *)
Theorem featuredPosts_empty db : reachable db → featuredPosts db = [].
Proof.
  intros Hdb. unfold featuredPosts.
  assert (filter featured_on (posts db) = ∅) as ->.
  { apply map_empty. intros i. apply map_lookup_filter_None_2.
    destruct (posts db !! i) as [p|] eqn:Hp; [right|by left].
    intros p' [= <-] [_ Hf]. simpl in Hf.
    pose proof (reachable_not_featured db i p Hdb Hp) as Hnot. congruence. }
  by rewrite map_to_list_empty.
Qed.

Lemma featuredPosts_empty_witness : featuredPosts published_db = [].
Proof. exact (featuredPosts_empty published_db published_db_reachable). Defined.

(** ** What a comment keeps *)

Lemma comment_evolves_refl c : comment_evolves c c.
Proof. unfold comment_evolves. split_and!; done. Qed.

Lemma comment_evolves_trans c1 c2 c3 :
  comment_evolves c1 c2 → comment_evolves c2 c3 → comment_evolves c1 c3.
Proof.
  intros (Hp & Hu & Hq & Hc & Hr & Hd) (Hp' & Hu' & Hq' & Hc' & Hr' & Hd').
  unfold comment_evolves. split_and!; try congruence.
  - by etrans.
  - intros Hdel Htext. destruct (Hd Hdel Htext) as (H1 & H2 & H3 & H4 & H5 & H6).
    destruct (Hd' H1 H2) as (? & ? & ? & ? & ? & ?).
    split_and!; congruence.
Qed.

Lemma comment_evolves_save o d now :
  comment_edit o now d → comment_evolves o (Comment.pre_save (Some o) now d).
Proof.
  intros Hedit. unfold comment_evolves.
  destruct (Comment_pre_save_frame (Some o) now d)
    as (Et & Ep & Eu & Eq & Er & El & Ed & _ & Ec).
  rewrite Ep, Eu, Eq, Er, Ec.
  destruct Hedit as [user v Hdel _ _|user _|u Hdel]; simpl;
    (split_and!; [done..|]); try (intros; congruence).
  intros _ Htext. rewrite Comment_pre_save_delete.
  by rewrite bool_decide_eq_true_2.
Qed.

Lemma comment_evolves_push o cid : comment_evolves o (push_reply cid o).
Proof.
  unfold comment_evolves, push_reply. simpl. split_and!; try done.
  by apply prefix_app_r.
Qed.

(** A deleted comment shows the placeholder and has a deletion date; a
    comment that is not deleted has none. *)
Lemma reachable_deleted db cid c :
  reachable db → comments db !! cid = Some c →
  if Comment.isDeleted c
  then Comment.comment c = deletedPlaceholder ∧ is_Some (Comment.deletedAt c)
  else Comment.deletedAt c = None.
Proof.
  intros Hdb. revert cid c.
  apply (reachable_comments_Forall
           (fun c => if Comment.isDeleted c
                     then Comment.comment c = deletedPlaceholder
                          ∧ is_Some (Comment.deletedAt c)
                     else Comment.deletedAt c = None));
    [| | |done].
  - done.
  - intros o d now Ho Hedit _.
    destruct (Comment_pre_save_frame (Some o) now d)
      as (-> & _ & _ & _ & _ & _ & -> & -> & _).
    destruct Hedit as [user v Hdel _ _|user _|u Hdel]; simpl.
    + by rewrite Hdel in *.
    + eauto.
    + done.
  - done.
Qed.

(** X9: along any run of requests a stored comment that is still stored
    has kept its post, its author, its parent and its creation date, and
    its replies have only grown at the end; if it was deleted, it still
    is, with the placeholder as its text and with the likes, the like
    counter and the edit mark it had. *)
Theorem comment_kept_along_run db db' cid c c' :
  reachable db → rtc step db db' →
  comments db !! cid = Some c → comments db' !! cid = Some c' →
  Comment.post c' = Comment.post c
  ∧ Comment.userId c' = Comment.userId c
  ∧ Comment.parentComment c' = Comment.parentComment c
  ∧ Comment.createdAt c' = Comment.createdAt c
  ∧ Comment.replies c `prefix_of` Comment.replies c'
  ∧ (Comment.isDeleted c = true →
     Comment.isDeleted c' = true
     ∧ Comment.comment c' = deletedPlaceholder
     ∧ Comment.comment c = deletedPlaceholder
     ∧ Comment.likes c' = Comment.likes c
     ∧ Comment.likesCount c' = Comment.likesCount c
     ∧ Comment.isEdited c' = Comment.isEdited c
     ∧ Comment.editedAt c' = Comment.editedAt c).
Proof.
  intros Hdb Hrun Hc Hc'.
  assert (cid < nextId db)%nat as Hlt.
  { apply (comments_fresh db (reachable_consistent db Hdb)). eauto. }
  destruct (steps_comments_rel comment_evolves comment_evolves_refl
              comment_evolves_trans)
    with (db := db) (db' := db') (i := cid) (c' := c')
    as (c0 & Hc0 & Hkeep); try done.
  - intros o d now Hedit _. by apply comment_evolves_save.
  - apply comment_evolves_push.
  - pose proof (eq_trans (eq_sym Hc0) Hc) as Heq. injection Heq as ->.
    destruct Hkeep as (Hp & Hu & Hq & Hcr & Hr & Hd).
    split_and!; try done.
    intros Hdel. pose proof (reachable_deleted db cid c Hdb Hc) as Htext.
    rewrite Hdel in Htext. destruct Htext as [Htext _].
    destruct (Hd Hdel Htext) as (? & ? & ? & ? & ? & ?). done.
Qed.

Lemma comment_kept_along_run_witness :
  let db := (deleteComment bob 1 4 thread_db).2 in
  let db' := (deleteComment root 1 5 db).2 in
  ∃ c c', comments db !! 1 = Some c ∧ comments db' !! 1 = Some c'
          ∧ Comment.editedAt c' = Comment.editedAt c
          ∧ Comment.replies c `prefix_of` Comment.replies c'.
Proof.
  intros db db'.
  assert (Hc : is_Some (comments db !! 1))
    by (vm_compute; eexists; reflexivity).
  assert (Hc' : is_Some (comments db' !! 1))
    by (vm_compute; eexists; reflexivity).
  destruct Hc as [c Hc], Hc' as [c' Hc'].
  assert (Hdel : Comment.isDeleted c = true).
  { vm_compute in Hc. injection Hc as <-. reflexivity. }
  exists c, c'. split; [exact Hc|]. split; [exact Hc'|].
  destruct (comment_kept_along_run db db' 1 c c'
              (rtc_r _ _ _ thread_db_reachable (step_deleteComment _ bob 1 4))
              (rtc_once _ _ (step_deleteComment _ root 1 5)) Hc Hc')
    as (_ & _ & _ & _ & Hr & Hfrozen).
  destruct (Hfrozen Hdel) as (_ & _ & _ & _ & _ & _ & He).
  split; [exact He | exact Hr].
Defined.

(** X10: no request removes a comment on its own: after any run a stored
    comment is still stored, or it is gone together with its post. *)
Theorem comment_removed_with_post db db' cid c :
  reachable db → rtc step db db' → comments db !! cid = Some c →
  is_Some (comments db' !! cid)
  ∨ (comments db' !! cid = None ∧ posts db' !! Comment.post c = None).
Proof.
  intros Hdb Hrun Hc.
  pose proof (reachable_consistent db Hdb) as Hcons.
  assert (cid < nextId db)%nat as Hlt by (apply (comments_fresh db Hcons); eauto).
  assert (Comment.post c < nextId db)%nat as Hlt'.
  { apply (posts_fresh db Hcons). by apply (refs_ok db Hcons cid c). }
  assert ((∃ c', comments db' !! cid = Some c' ∧ Comment.post c' = Comment.post c)
          ∨ (comments db' !! cid = None ∧ posts db' !! Comment.post c = None))
    as [(c' & Hc' & _)|Hgone]; [|eauto..].
  revert db' Hrun.
  apply (rtc_ind_r
           (fun db' =>
              (∃ c', comments db' !! cid = Some c' ∧ Comment.post c' = Comment.post c)
              ∨ (comments db' !! cid = None ∧ posts db' !! Comment.post c = None))).
  - left. eauto.
  - intros db1 db' Hrun Hstep [(c1 & Hc1 & Hpost1)|[Hnone Hnopost]].
    + destruct (step_comments_rel comment_evolves comment_evolves_refl
                  (fun o d now Hedit _ => comment_evolves_save o d now Hedit)
                  comment_evolves_push db1 db' cid c1 Hstep Hc1)
        as [(c' & Hc' & Hev)|(Hgone & _ & Hnopost)].
      * left. exists c'. split; [done|]. destruct Hev as (-> & _). done.
      * right. by rewrite <- Hpost1.
    + right. pose proof (steps_nextId _ _ Hrun) as Hmono. split.
      * destruct (comments db' !! cid) as [c'|] eqn:Hc'; [|done].
        destruct (comments_write_back (fun _ _ => True) (fun _ => I)
                    (fun _ _ _ _ _ => I) (fun _ _ => I)
                    db1 (posts db') (comments db') cid c'
                    (step_comments_write _ _ Hstep) Hc')
          as [(c1 & Hc1 & _)|[_ ->]]; [congruence|lia].
      * destruct (posts db' !! Comment.post c) as [p'|] eqn:Hp'; [|done].
        destruct (posts_write_rel (fun _ _ => True) (fun _ => I)
                    (fun _ _ _ _ _ => I) (fun _ _ => I)
                    db1 (posts db') (Comment.post c) p'
                    (step_posts_write _ _ Hstep) Hp')
          as [(p1 & Hp1 & _)|[_ Heq]]; [congruence|lia].
Qed.

Lemma comment_removed_with_post_witness :
  let db' := (deletePost alice 0 thread_db).2 in
  comments db' !! 1 = None ∧ posts db' !! 0 = None.
Proof.
  intros db'.
  assert (Hc : comments thread_db !! 1
               = Some (Comment.mk "first" 0 101 None [2] [] 0 false None false None 2))
    by (vm_compute; reflexivity).
  destruct (comment_removed_with_post thread_db db' 1 _ thread_db_reachable
              (rtc_once _ _ (step_deletePost _ alice 0)) Hc)
    as [Hstill|Hgone].
  - vm_compute in Hstill. destruct Hstill as [c' Hc']. discriminate Hc'.
  - exact Hgone.
Defined.

(** ** Trimmed texts *)

Lemma trimStart_no_leading s : no_leading_space (JS.trimStart s) = true.
Proof.
  induction s as [|c r IH]; simpl; [done|].
  destruct (JS.is_space c) eqn:Hc; [done|]. simpl. by rewrite Hc.
Qed.

Lemma trimStart_id s : no_leading_space s = true → JS.trimStart s = s.
Proof.
  destruct s as [|c r]; simpl; [done|]. by intros ->%negb_true_iff.
Qed.

Lemma trimEnd_no_leading s :
  no_leading_space s = true → no_leading_space (JS.trimEnd s) = true.
Proof.
  destruct s as [|c r]; simpl; [done|]. intros Hc.
  destruct (JS.trimEnd r); [|exact Hc].
  apply negb_true_iff in Hc. rewrite Hc. simpl. by rewrite Hc.
Qed.

Lemma trimEnd_idempotent s : JS.trimEnd (JS.trimEnd s) = JS.trimEnd s.
Proof.
  induction s as [|c r IH]; simpl; [done|].
  destruct (JS.trimEnd r) as [|c' t] eqn:Ht.
  - destruct (JS.is_space c) eqn:Hc; simpl; [done|]. by rewrite Hc.
  - change (JS.trimEnd (String c (String c' t))) with
      (match JS.trimEnd (String c' t) with
       | EmptyString => if JS.is_space c then EmptyString else String c ""
       | r' => String c r'
       end).
    by rewrite IH.
Qed.

Lemma trimEnd_no_trailing s : ends_with_space (JS.trimEnd s) = false.
Proof.
  induction s as [|c r IH]; simpl; [done|].
  destruct (JS.trimEnd r) as [|c' t] eqn:Ht.
  - destruct (JS.is_space c) eqn:Hc; simpl; done.
  - done.
Qed.

Lemma trim_idempotent s : JS.trim (JS.trim s) = JS.trim s.
Proof.
  unfold JS.trim.
  rewrite (trimStart_id (JS.trimEnd (JS.trimStart s))).
  - apply trimEnd_idempotent.
  - apply trimEnd_no_leading, trimStart_no_leading.
Qed.

(** X11: [trim] leaves a text that neither starts nor ends with whitespace,
    and trimming a second time changes nothing. *)
Theorem trim_trimmed s :
  JS.trim (JS.trim s) = JS.trim s
  ∧ no_leading_space (JS.trim s) = true
  ∧ ends_with_space (JS.trim s) = false.
Proof.
  split_and!; [apply trim_idempotent|unfold JS.trim..].
  - apply trimEnd_no_leading, trimStart_no_leading.
  - apply trimEnd_no_trailing.
Qed.

(** X12: in every store that the handlers produce, the title of a post is
    trimmed, not empty and of at most 200 code units, its content has at
    least 10, and its status is one of the three; the text of a comment is
    trimmed, not empty and of at most 1000 code units. *)
Theorem stored_documents_valid db :
  reachable db →
  (∀ pid post, posts db !! pid = Some post →
     JS.trim (Post.title post) = Post.title post
     ∧ Post.title post ≠ ""
     ∧ (String.length (Post.title post) ≤ 200)%nat
     ∧ (10 ≤ String.length (Post.content post))%nat
     ∧ Post.status post ∈ ["Draft"; "Published"; "Archived"])
  ∧ (∀ cid c, comments db !! cid = Some c →
       JS.trim (Comment.comment c) = Comment.comment c
       ∧ Comment.comment c ≠ ""
       ∧ (String.length (Comment.comment c) ≤ 1000)%nat).
Proof.
  intros Hdb. pose proof (reachable_consistent db Hdb) as Hcons. split.
  - intros pid post Hpost. split.
    2:{ destruct (posts_ok db Hcons pid post Hpost) as (_ & _ & Hval).
        by apply validate_nil in Hval as (Ht & Ht' & _ & Hc & _ & Hs & _). }
    revert pid post Hpost.
    apply (reachable_posts_Forall
             (fun p => JS.trim (Post.title p) = Post.title p)); [| | |done].
    + intros user b now _ _ _.
      destruct (Post_hooks_frame None now (newPost user b now)) as (-> & _).
      simpl. apply trim_idempotent.
    + intros o d now Ho Hedit _.
      destruct (Post_hooks_frame (Some o) now d) as (-> & _).
      destruct Hedit as [b|u t|]; simpl; try done.
      unfold applyPostBody.
      destruct (b_title b) as [v|], (b_content b), (b_tags b), (b_category b),
        (b_coverImage b), (b_status b), (b_seoTitle b), (b_seoDescription b);
        split_ifs; simpl; try done; apply trim_idempotent.
    + done.
  - intros cid c Hc. split.
    2:{ destruct (comments_ok db Hcons cid c Hc) as (_ & Hval).
        unfold Comment.validate in Hval.
        repeat case_bool_decide; try done. split; [done|lia]. }
    revert cid c Hc.
    apply (reachable_comments_Forall
             (fun c => JS.trim (Comment.comment c) = Comment.comment c));
      [| | |done].
    + intros. simpl. apply trim_idempotent.
    + intros o d now Ho Hedit _.
      destruct (Comment_pre_save_frame (Some o) now d) as (-> & _).
      destruct Hedit as [user v Hdel _ _|user _|u Hdel]; simpl; try done.
      apply trim_idempotent.
    + done.
Qed.

Lemma stored_documents_valid_witness :
  JS.trim (Post.title draft_post) = Post.title draft_post
  ∧ Post.title draft_post ≠ "".
Proof.
  destruct (proj1 (stored_documents_valid draft_db draft_db_reachable)
              0 draft_post draft_db_post) as (Ht & Hne & _).
  split; [exact Ht | exact Hne].
Defined.

(** ** Failed requests *)

(** X13: a request that is answered with a failure leaves both collections
    as they were.  This holds for every handler that writes. *)
Theorem failed_request_changes_nothing :
  (∀ user b now db,
      ¬ succeeds (createPost user b now db).1 → (createPost user b now db).2 = db)
  ∧ (∀ user pid b now db,
        ¬ succeeds (updatePost user pid b now db).1 →
        (updatePost user pid b now db).2 = db)
  ∧ (∀ user pid db,
        ¬ succeeds (deletePost user pid db).1 → (deletePost user pid db).2 = db)
  ∧ (∀ user pid now db,
        ¬ succeeds (togglePostLike user pid now db).1 →
        (togglePostLike user pid now db).2 = db)
  ∧ (∀ user pid now db,
        ¬ succeeds (getPost user pid now db).1 → (getPost user pid now db).2 = db)
  ∧ (∀ user pid comment parent now db,
        ¬ succeeds (createComment user pid comment parent now db).1 →
        (createComment user pid comment parent now db).2 = db)
  ∧ (∀ user cid comment now db,
        ¬ succeeds (updateComment user cid comment now db).1 →
        (updateComment user cid comment now db).2 = db)
  ∧ (∀ user cid now db,
        ¬ succeeds (deleteComment user cid now db).1 →
        (deleteComment user cid now db).2 = db)
  ∧ (∀ user cid now db,
        ¬ succeeds (toggleCommentLike user cid now db).1 →
        (toggleCommentLike user cid now db).2 = db).
Proof.
  split_and!.
  - intros user b now db. unfold createPost. split_ifs; [done|].
    destruct (Post_save _ _ _ _ _); simpl; try done; intros H; by destruct H.
  - intros user pid b now db. unfold updatePost.
    destruct (posts db !! pid); [|done].
    destruct (denied _ _); [done|].
    destruct (Post_save _ _ _ _ _); simpl; try done; intros H; by destruct H.
  - intros user pid db. unfold deletePost.
    destruct (posts db !! pid); [|done].
    destruct (denied _ _); [done|]. simpl. intros H. by destruct H.
  - intros user pid now db. unfold togglePostLike.
    destruct (posts db !! pid); [|done].
    destruct (Post_save _ _ _ _ _); simpl; try done; intros H; by destruct H.
  - intros user pid now db. unfold getPost.
    destruct (posts db !! pid); [|done]. split_ifs; try done.
    destruct (Post_save _ _ _ _ _); simpl; try done; intros H; by destruct H.
  - intros user pid comment parent now db. unfold createComment.
    destruct (blank comment); [done|].
    destruct (posts db !! pid); [|done].
    destruct (negb _); [done|].
    destruct (match parent with Some _ => _ | None => _ end); [done|].
    destruct (Comment_save _ _ _ _ _); simpl; try done; intros H; by destruct H.
  - intros user cid comment now db. unfold updateComment.
    destruct (blank comment); [done|].
    destruct (comments db !! cid) as [c|]; [|done].
    destruct (Comment.isDeleted c); [done|].
    destruct (negb _); [done|].
    destruct (Comment_save _ _ _ _ _); simpl; try done; intros H; by destruct H.
  - intros user cid now db. unfold deleteComment.
    destruct (comments db !! cid) as [c|]; [|done].
    destruct (denied _ _); [done|].
    destruct (Comment_save _ _ _ _ _); simpl; try done; intros H; by destruct H.
  - intros user cid now db. unfold toggleCommentLike.
    destruct (comments db !! cid) as [c|]; [|done].
    destruct (Comment.isDeleted c); [done|].
    destruct (Comment_save _ _ _ _ _); simpl; try done; intros H; by destruct H.
Qed.

Lemma failed_request_changes_nothing_witness :
  (updatePost bob 0 (patch_title "Mine") 2 draft_db).2 = draft_db.
Proof.
  destruct failed_request_changes_nothing as (_ & Hupdate & _).
  apply Hupdate. vm_compute. discriminate.
Defined.

(** ** References between the documents *)

(** X14: in every store that the handlers produce, the post of every
    comment is stored, and the parent of every reply is a stored comment
    on the same post that has the reply among its replies. *)
Theorem references_resolve db cid c :
  reachable db → comments db !! cid = Some c →
  is_Some (posts db !! Comment.post c)
  ∧ (∀ q, Comment.parentComment c = Some q →
       ∃ pc, comments db !! q = Some pc
             ∧ Comment.post pc = Comment.post c
             ∧ cid ∈ Comment.replies pc).
Proof.
  intros Hdb Hc. pose proof (reachable_consistent db Hdb) as Hcons.
  split; [by apply (refs_ok db Hcons cid c)|].
  by apply (links_ok db Hcons cid c).
Qed.

Lemma references_resolve_witness :
  ∃ pc, comments thread_db !! 1 = Some pc ∧ 2 ∈ Comment.replies pc.
Proof.
  destruct (references_resolve thread_db 2 _ thread_db_reachable thread_db_reply)
    as (_ & Hparent).
  destruct (Hparent 1 eq_refl) as (pc & Hpc & _ & Hin).
  exists pc. split; [exact Hpc | exact Hin].
Defined.

(** ** Who may write *)

Lemma Comment_save_delete_Saved c cid now db :
  ∃ db',
    Comment_save (Some c) cid
      (Comment.set_comment deletedPlaceholder
         (Comment.set_deletedAt (Some now) (Comment.set_isDeleted true c)))
      now db
    = Saved
        (Comment.pre_save (Some c) now
           (Comment.set_comment deletedPlaceholder
              (Comment.set_deletedAt (Some now) (Comment.set_isDeleted true c))))
        db'.
Proof. unfold Comment_save. simpl. eauto. Qed.

(** X15: a user who is neither the author of a post nor an admin is refused
    ("forbidden") by the update and delete routes of the post.  An edit of
    a comment with a blank text is refused as a validation error before
    the comment is looked up, whoever asks and whatever the comment.  With
    a text that is not blank, the text of a comment that is not deleted
    can be changed by its author only: anybody else, an admin included,
    is refused ("forbidden"); a comment can be deleted by its author and
    by an admin, and by nobody else.  A deleted comment can be neither
    edited (with a text that is not blank) nor liked ("invalid state"),
    and this is answered before the author is looked at. *)
Theorem authorization_rules :
  (∀ user pid b now db post,
      posts db !! pid = Some post →
      Post.author post ≠ id user → role user ≠ "admin" →
      kind_of (updatePost user pid b now db).1 = Some Forbidden
      ∧ kind_of (deletePost user pid db).1 = Some Forbidden)
  ∧ (∀ user cid v now db c,
        comments db !! cid = Some c → blank (Some v) = false →
        Comment.isDeleted c = false → Comment.userId c ≠ id user →
        kind_of (updateComment user cid (Some v) now db).1 = Some Forbidden)
  ∧ (∀ user cid now db c,
        comments db !! cid = Some c →
        if bool_decide (Comment.userId c = id user ∨ role user = "admin")
        then succeeds (deleteComment user cid now db).1
        else kind_of (deleteComment user cid now db).1 = Some Forbidden)
  ∧ (∀ user cid v now db c,
        comments db !! cid = Some c → blank (Some v) = false →
        Comment.isDeleted c = true →
        kind_of (updateComment user cid (Some v) now db).1 = Some InvalidState
        ∧ kind_of (toggleCommentLike user cid now db).1 = Some InvalidState)
  ∧ (∀ user cid body now db,
        blank body = true →
        kind_of (updateComment user cid body now db).1 = Some ValidationError
        ∧ (updateComment user cid body now db).2 = db)
  ∧ (∀ user cid now db c,
        comments db !! cid = Some c → Comment.isDeleted c = true →
        kind_of (toggleCommentLike user cid now db).1 = Some InvalidState).
Proof.
  split_and!.
  - intros user pid b now db post Hpost Hauthor Hrole.
    assert (denied (Post.author post) user = true) as Hden.
    { unfold denied. by rewrite !bool_decide_eq_false_2. }
    unfold updatePost, deletePost. by rewrite Hpost, Hden.
  - intros user cid v now db c Hc Hbody Hlive Howner.
    unfold updateComment. rewrite Hbody, Hc, Hlive.
    by rewrite bool_decide_eq_false_2.
  - intros user cid now db c Hc. unfold deleteComment. rewrite Hc.
    unfold denied. case_bool_decide as Hmay.
    + assert (negb (bool_decide (Comment.userId c = id user))
              && negb (bool_decide (role user = "admin")) = false) as ->.
      { destruct Hmay as [Hu|Hr];
          [rewrite (bool_decide_eq_true_2 _ Hu)|rewrite (bool_decide_eq_true_2 _ Hr)];
          simpl; [done|apply andb_false_r]. }
      destruct (Comment_save_delete_Saved c cid now db) as [db' ->]. done.
    + assert (Comment.userId c ≠ id user ∧ role user ≠ "admin") as [Hu Hr]
        by naive_solver.
      by rewrite !bool_decide_eq_false_2.
  - intros user cid v now db c Hc Hbody Hdel.
    unfold updateComment, toggleCommentLike. by rewrite Hbody, Hc, Hdel.
  - intros user cid body now db Hbody. unfold updateComment.
    by rewrite Hbody.
  - intros user cid now db c Hc Hdel. unfold toggleCommentLike.
    by rewrite Hc, Hdel.
Qed.

Lemma authorization_rules_witness :
  kind_of (updateComment root 1 (Some "edited by admin") 4 thread_db).1
  = Some Forbidden
  ∧ succeeds (deleteComment root 1 4 thread_db).1.
Proof.
  destruct authorization_rules as (_ & Hedit & Hdelete & _ & _ & _).
  assert (Hc : comments thread_db !! 1
               = Some (Comment.mk "first" 0 101 None [2] [] 0 false None false None 2))
    by (vm_compute; reflexivity).
  split.
  - apply (Hedit root 1 "edited by admin" 4 thread_db _ Hc);
      [reflexivity|reflexivity|discriminate].
  - exact (Hdelete root 1 4 thread_db _ Hc).
Defined.

(** ** Creating a post under a slug that is taken *)

(** X16: when another stored post has the slug that the title of a new post
    gives, the create route answers 500 "Server error creating post" and
    stores nothing, although the request has passed every validator. *)
Theorem createPost_slug_taken user b now db i p :
  JS.truthy_opt (b_title b) = true → JS.truthy_opt (b_content b) = true →
  Post.validate (newPost user b now) = [] →
  posts db !! i = Some p →
  Post.slug p = Some (Post.slugify (JS.trim (default "" (b_title b)))) →
  createPost user b now db = (Json 500 (Info "Server error creating post"), db).
Proof.
  intros Ht Hc Hval Hp Hslug. unfold createPost, Post_save.
  rewrite Ht, Hc, Hval. simpl.
  fold (Post_hooks None now (newPost user b now)).
  rewrite Post_hooks_slug. simpl.
  destruct (decide (i = nextId db)) as [->|Hne].
  - rewrite Hp. by rewrite (bool_decide_eq_true_2 (is_Some (Some p))).
  - rewrite (bool_decide_eq_true_2 (map_Exists _ _)); [by rewrite orb_true_r|].
    exists i, p. done.
Qed.

Lemma createPost_slug_taken_witness :
  createPost bob (post_body "title" "other content" None) 2 draft_db
  = (Json 500 (Info "Server error creating post"), draft_db).
Proof.
  apply (createPost_slug_taken bob (post_body "title" "other content" None) 2
           draft_db 0 draft_post);
    [reflexivity|reflexivity|reflexivity|exact draft_db_post|reflexivity].
Defined.

(** ** Creating and editing a comment *)

(** X17: in a store that the handlers produce, a comment of at most 1000
    code units on a published post, with no parent or with a parent that
    is a comment on that post, is stored under a new identifier with its
    text trimmed, not edited, not deleted and without likes or replies;
    the comment counter of the post goes up by one; the parent, if there
    is one, has the new identifier added at the end of its replies. *)
Theorem createComment_effects user pid v parent now db post :
  reachable db → blank (Some v) = false →
  (String.length (JS.trim v) ≤ 1000)%nat →
  posts db !! pid = Some post → Post.status post = "Published" →
  match parent with
  | Some q => ∃ pc, comments db !! q = Some pc ∧ Comment.post pc = pid
  | None => True
  end →
  let run := createComment user pid (Some v) parent now db in
  let cid := nextId db in
  let doc := Comment.mk (JS.trim v) pid (id user) parent [] [] 0 false None
               false None now in
  run.1 = Json 201 (CommentDoc cid doc)
  ∧ comments db !! cid = None
  ∧ comments run.2 !! cid = Some doc
  ∧ posts run.2 !! pid
    = Some (Post.set_commentsCount (S (Post.commentsCount post)) post)
  ∧ (∀ q pc, parent = Some q → comments db !! q = Some pc →
       comments run.2 !! q
       = Some (Comment.set_replies (Comment.replies pc ++ [cid]) pc)).
Proof.
  intros Hdb. apply createComment_stores. by apply reachable_consistent.
Qed.

Lemma createComment_effects_witness :
  let run := createComment alice 0 (Some " a reply ") (Some 1) 4 thread_db in
  comments run.2 !! 3
  = Some (Comment.mk "a reply" 0 100 (Some 1) [] [] 0 false None false None 4)
  ∧ comments run.2 !! 1
    = Some (Comment.mk "first" 0 101 None [2; 3] [] 0 false None false None 2).
Proof.
  intros run.
  assert (Hpost : is_Some (posts thread_db !! 0))
    by (vm_compute; eexists; reflexivity).
  destruct Hpost as [post Hpost].
  assert (Hstatus : Post.status post = "Published").
  { vm_compute in Hpost. injection Hpost as <-. reflexivity. }
  assert (Hc : comments thread_db !! 1
               = Some (Comment.mk "first" 0 101 None [2] [] 0 false None false None 2))
    by (vm_compute; reflexivity).
  assert (Hlen : (String.length (JS.trim " a reply ") ≤ 1000)%nat)
    by (vm_compute; lia).
  assert (Hpar : ∃ pc, comments thread_db !! 1 = Some pc ∧ Comment.post pc = 0)
    by (eexists; split; [exact Hc|reflexivity]).
  destruct (createComment_effects alice 0 " a reply " (Some 1) 4 thread_db post
              thread_db_reachable eq_refl Hlen Hpost Hstatus Hpar)
    as (_ & _ & Hnew & _ & Hparent).
  split; [exact Hnew|]. exact (Hparent 1 _ eq_refl Hc).
Defined.

(** X18: in a store that the handlers produce, when the author of a comment
    that is not deleted sends a new text of at most 1000 code units, the
    trimmed text is stored; the comment is marked as edited, with the time
    of the request, when the trimmed text differs from the stored one, and
    is left as it is when it does not; the posts stay as they are. *)
Theorem updateComment_effects user cid v now db c :
  reachable db → comments db !! cid = Some c →
  Comment.isDeleted c = false → Comment.userId c = id user →
  blank (Some v) = false → (String.length (JS.trim v) ≤ 1000)%nat →
  let run := updateComment user cid (Some v) now db in
  let c' :=
    if bool_decide (Comment.comment c = JS.trim v) then c
    else Comment.set_editedAt (Some now)
           (Comment.set_isEdited true (Comment.set_comment (JS.trim v) c)) in
  run.1 = Json 200 (CommentDoc cid c')
  ∧ comments run.2 = <[cid:=c']> (comments db)
  ∧ posts run.2 = posts db.
Proof.
  intros Hdb Hc Hlive Hown Hbody Hlen run c'.
  pose proof (reachable_consistent db Hdb) as Hcons.
  assert (Hne : JS.trim v ≠ "").
  { intros Hempty. unfold blank in Hbody. rewrite Hempty in Hbody.
    simpl in Hbody. by rewrite orb_true_r in Hbody. }
  assert (Hhook : Comment.pre_save (Some c) now (Comment.set_comment (JS.trim v) c) = c').
  { unfold Comment.pre_save, Comment.isModified, c'. simpl.
    rewrite (bool_decide_eq_true_2 (Comment.likes c = Comment.likes c)) by done.
    simpl. case_bool_decide as Hsame; simpl; [|done].
    destruct c; simpl in *. by subst. }
  assert (Hrun : run = (Json 200 (CommentDoc cid c'),
                        syncCommentsCount (Comment.post c')
                          (set_comments (<[cid:=c']> (comments db)) db))).
  { unfold run, updateComment. rewrite Hbody, Hc, Hlive. simpl.
    rewrite (bool_decide_eq_true_2 _ Hown). simpl.
    unfold Comment_save, Comment.validate. simpl.
    rewrite bool_decide_eq_false_2 by done.
    rewrite bool_decide_eq_false_2 by lia.
    by rewrite Hhook. }
  rewrite Hrun. simpl. split_and!; try done.
  assert (Hsame : Comment.post c' = Comment.post c
                  ∧ Comment.isDeleted c' = Comment.isDeleted c).
  { unfold c'. by case_bool_decide. }
  destruct Hsame as [Hpost Hdel]. rewrite Hpost.
  apply alter_id. intros p Hp.
  rewrite (countLive_same_share _ cid c) by (done || by apply share_eq).
  rewrite <- (counts_ok db Hcons _ p Hp). by destruct p.
Qed.

Lemma updateComment_effects_witness :
  (updateComment bob 1 (Some " first ") 5 thread_db).1
  = Json 200
      (CommentDoc 1 (Comment.mk "first" 0 101 None [2] [] 0 false None false None 2)).
Proof.
  assert (Hc : comments thread_db !! 1
               = Some (Comment.mk "first" 0 101 None [2] [] 0 false None false None 2))
    by (vm_compute; reflexivity).
  assert (Hlen : (String.length (JS.trim " first ") ≤ 1000)%nat)
    by (vm_compute; lia).
  exact (proj1 (updateComment_effects bob 1 " first " 5 thread_db _
                  thread_db_reachable Hc eq_refl eq_refl eq_refl Hlen)).
Defined.

(** ** The answer of the like route *)

(** X19: in a store that the handlers produce, the like route of a post
    answers "Post liked", with the like counter one more, when the user
    had no like entry, and adds an entry with the time of the request at
    the end; it answers "Post unliked", with the like counter one less,
    when the user had one, and removes it.  The counter of the answer is
    the stored one. *)
Theorem togglePostLike_answer user pid now db post :
  reachable db → posts db !! pid = Some post →
  let run := togglePostLike user pid now db in
  ∃ post',
    posts run.2 = <[pid:=post']> (posts db)
    ∧ comments run.2 = comments db
    ∧ Post.likesCount post' = length (Post.likes post')
    ∧ match find_like (id user) (Post.likes post) with
      | None =>
          run.1 = Json 200 (LikeResult "Post liked" (S (Post.likesCount post)) true)
          ∧ Post.likes post' = (Post.likes post ++ [Like.mk (id user) now])%list
          ∧ Post.likesCount post' = S (Post.likesCount post)
      | Some _ =>
          run.1 = Json 200 (LikeResult "Post unliked" (Post.likesCount post') false)
          ∧ Post.likes post' = remove_like (id user) (Post.likes post)
          ∧ S (Post.likesCount post') = Post.likesCount post
          ∧ find_like (id user) (Post.likes post') = None
      end.
Proof.
  intros Hdb Hpost run.
  pose proof (reachable_consistent db Hdb) as Hcons.
  destruct (posts_ok db Hcons pid post Hpost) as (Hcount & _ & Hval).
  pose proof (reachable_post_likes_NoDup db pid post Hdb Hpost) as Huniq.
  set (ls := toggle_likes (id user) now (Post.likes post)).
  set (post' := Post.set_likesCount (length ls) (Post.set_likes ls post)).
  assert (Hsave : Post_save (Some post) pid (Post.set_likes ls post) now db
                  = Saved post' (set_posts (<[pid:=post']> (posts db)) db)).
  { rewrite Post_save_stored_Saved by done.
    fold (Post_hooks (Some post) now (Post.set_likes ls post)).
    unfold ls. by rewrite Post_hooks_toggle. }
  exists post'. unfold run, togglePostLike. rewrite Hpost. fold ls.
  rewrite Hsave. simpl. split_and!; try done.
  unfold ls, toggle_likes.
  destruct (find_like (id user) (Post.likes post)) as [l|] eqn:Hfind; simpl.
  - assert (S (length (remove_like (id user) (Post.likes post)))
            = Post.likesCount post) as Hless.
    { rewrite Hcount. apply length_remove_like; [done|]. rewrite Hfind. eauto. }
    split_and!; try done. apply find_like_remove.
  - unfold push_like. rewrite length_app. simpl.
    rewrite <- Hcount, Nat.add_1_r. by split_and!.
Qed.

Lemma togglePostLike_answer_witness :
  (togglePostLike bob 0 2 draft_db).1
  = Json 200 (LikeResult "Post liked" 1 true).
Proof.
  destruct (togglePostLike_answer bob 0 2 draft_db draft_post
              draft_db_reachable draft_db_post)
    as (post' & _ & _ & _ & Hanswer).
  exact (proj1 Hanswer).
Defined.

(** ** Pages of comments *)

#[local] Instance newer_first_transitive : Transitive newer_first.
Proof. unfold newer_first. intros a b c ??. lia. Qed.

#[local] Instance newer_first_total : Total newer_first.
Proof. unfold newer_first. intros a b. lia. Qed.

Lemma ceil_div_bounds n d :
  (0 < d)%nat → (n ≤ JS.ceil_div n d * d ∧ JS.ceil_div n d * d < n + d)%nat.
Proof.
  intros Hd. unfold JS.ceil_div.
  pose proof (Nat.div_mod_eq n d) as Hdiv.
  pose proof (Nat.mod_upper_bound n d ltac:(lia)) as Hmod.
  destruct (n mod d =? 0)%nat eqn:Hz.
  - apply Nat.eqb_eq in Hz. nia.
  - apply Nat.eqb_neq in Hz. nia.
Qed.

Lemma ceil_div_lt page n d :
  (0 < d)%nat → (page < JS.ceil_div n d ↔ page * d < n)%nat.
Proof.
  intros Hd. destruct (ceil_div_bounds n d Hd) as [Hlo Hhi]. split; intros H.
  - destruct (decide (page * d < n)%nat); [done|].
    assert (S page ≤ JS.ceil_div n d)%nat as Hle by lia.
    apply (Nat.mul_le_mono_r _ _ d) in Hle. simpl in Hle. lia.
  - destruct (decide (page < JS.ceil_div n d)%nat); [done|].
    assert (JS.ceil_div n d ≤ page)%nat as Hle by lia.
    apply (Nat.mul_le_mono_r _ _ d) in Hle. lia.
Qed.

Lemma or_nat_pos n d : (0 < d)%nat → (0 < or_nat n d)%nat.
Proof. unfold or_nat. destruct (n =? 0)%nat eqn:Hn; [done|]. apply Nat.eqb_neq in Hn. lia. Qed.

(** X20: for a page and a limit whose product with the next page is a
    safe integer, and a count of comments that is one, so that the code
    computes with these very numbers: a page of the comments of a post
    that exists has [min limit (total - skip)] entries, where [total]
    counts the top-level comments of the post that are not deleted; its
    entries are distinct and ordered from the newest to the oldest;
    [hasNext] holds exactly when the next page has an entry, [hasPrev]
    exactly when the page is not the first, and [totalPages] pages are
    the fewest that hold [total] entries; the numbers of the pagination
    object and the number of skipped comments are safe integers. *)
Theorem listComments_page pid q_page q_limit db post :
  posts db !! pid = Some post →
  safe_integer (S (or_nat q_page 1) * or_nat q_limit 20) →
  safe_integer (length (map_to_list (filter (top_level_on pid) (comments db)))) →
  let page := or_nat q_page 1 in
  let limit := or_nat q_limit 20 in
  ∃ cs total pg,
    listComments pid q_page q_limit db = Json 200 (CommentPage cs total)
    ∧ listComments_pagination pid q_page q_limit db = Some pg
    ∧ length cs = (limit `min` (total - (page - 1) * limit))%nat
    ∧ NoDup (List.map (fun e => e.1.1) cs)
    ∧ StronglySorted newer_first (List.map fst cs)
    ∧ currentPage pg = page ∧ totalItems pg = total
    ∧ (hasNext pg = true ↔
         ∃ cs', listComments pid (S page) limit db
                = Json 200 (CommentPage cs' total) ∧ cs' ≠ [])
    ∧ (hasPrev pg = true ↔ (1 < page)%nat)
    ∧ (total ≤ totalPages pg * limit < total + limit)%nat
    ∧ safe_integer (currentPage pg) ∧ safe_integer (totalPages pg)
    ∧ safe_integer (totalItems pg) ∧ safe_integer ((page - 1) * limit).
Proof.
  intros Hpost Hsafe Htotal page limit. fold page limit in Hsafe.
  assert (Hlimit : (0 < limit)%nat) by (apply or_nat_pos; lia).
  assert (Hpage : (0 < page)%nat) by (apply or_nat_pos; lia).
  set (found := map_to_list (filter (top_level_on pid) (comments db))).
  set (sorted := merge_sort newer_first found).
  assert (Hlen : length sorted = length found)
    by (unfold sorted; by rewrite merge_sort_Permutation).
  eexists _, (length found), _.
  unfold listComments, listComments_pagination. rewrite Hpost.
  fold page limit found sorted.
  split; [reflexivity|]. split; [reflexivity|].
  rewrite !length_map, length_take, length_drop, Hlen. split; [done|].
  rewrite !map_map. simpl. rewrite map_id. split_and!; try done.
  - apply (sublist_NoDup _ (sorted.*1)).
    + unfold sorted.
      rewrite merge_sort_Permutation. apply NoDup_fst_map_to_list.
    + apply (fmap_sublist (fun kc : ObjectId * Comment.t => kc.1)).
      etrans; [apply sublist_take|apply sublist_drop].
  - assert (Hs : StronglySorted newer_first sorted)
      by apply (StronglySorted_merge_sort _).
    rewrite <- (take_drop ((page - 1) * limit) sorted) in Hs.
    apply StronglySorted_app_1_r in Hs.
    rewrite <- (take_drop limit (drop _ sorted)) in Hs.
    by apply StronglySorted_app_1_l in Hs.
  - simpl. rewrite Nat.ltb_lt, (ceil_div_lt _ _ _ Hlimit).
    assert (or_nat limit 20 = limit) as ->.
    { unfold or_nat at 1. destruct (limit =? 0)%nat eqn:Hz; [|done].
      apply Nat.eqb_eq in Hz. lia. }
    rewrite Nat.sub_0_r.
    split.
    + intros Hmore. eexists. split; [reflexivity|].
      intros Hnil. apply (f_equal length) in Hnil.
      rewrite length_map, length_take, length_drop, Hlen in Hnil.
      simpl in Hnil. lia.
    + intros (cs' & [= <-] & Hne).
      destruct (decide (page * limit < length found)%nat); [done|].
      exfalso. apply Hne.
      rewrite drop_ge by lia. by rewrite take_nil.
  - simpl. apply Nat.ltb_lt.
  - simpl. by apply ceil_div_bounds.
  - simpl. by apply ceil_div_bounds.
  - simpl. unfold safe_integer in *. nia.
  - simpl. unfold safe_integer in *. fold found in Htotal.
    destruct (ceil_div_bounds (length found) limit Hlimit) as [_ Hhi].
    assert (JS.ceil_div (length found) limit ≤ length found)%nat by nia.
    lia.
  - unfold safe_integer in *. nia.
Qed.

Lemma listComments_page_witness :
  ∃ cs, listComments 0 0 0 thread_db = Json 200 (CommentPage cs 1)
        ∧ length cs = 1%nat.
Proof.
  assert (Hsome : ∃ p, posts thread_db !! 0 = Some p)
    by (vm_compute; eexists; reflexivity).
  destruct Hsome as [p Hp].
  assert (Hsafe : safe_integer (S (or_nat 0 1) * or_nat 0 20))
    by (vm_compute; discriminate).
  assert (Htotal : safe_integer
                     (length (map_to_list
                                (filter (top_level_on 0) (comments thread_db)))))
    by (vm_compute; discriminate).
  destruct (listComments_page 0 0 0 thread_db p Hp Hsafe Htotal)
    as (cs & total & pg & Hlist & _ & Hlen & _).
  assert (Hrun : ∃ cs0, listComments 0 0 0 thread_db = Json 200 (CommentPage cs0 1))
    by (vm_compute; eexists; reflexivity).
  destruct Hrun as [cs0 Hrun].
  pose proof (eq_trans (eq_sym Hlist) Hrun) as Heq.
  injection Heq as -> ->.
  exists cs0. split; [exact Hrun|]. exact Hlen.
Defined.

(** ** Tags in excerpts *)

Lemma has_gt_false_no_tag s : JS.has_gt s = false → no_tag s = true.
Proof.
  induction s as [|c r IH]; [done|]. simpl.
  destruct (Ascii.eqb c ">") eqn:Hc; [done|]. intros Hr.
  rewrite Hr, (IH Hr). by destruct (Ascii.eqb c "<").
Qed.

Lemma has_gt_strip_tags b s :
  JS.has_gt (JS.strip_tags_from b s) = true → JS.has_gt s = true.
Proof.
  revert b. induction s as [|c r IH]; intros b; [done|]. simpl.
  destruct (Ascii.eqb c ">") eqn:Hgt; [done|].
  destruct b.
  - apply IH.
  - destruct (Ascii.eqb c "<") eqn:Hlt.
    + destruct (JS.has_gt r) eqn:Hr; [done|]. simpl. by rewrite Hgt, Hr.
    + simpl. rewrite Hgt. apply IH.
Qed.

Lemma no_tag_strip_tags b s : no_tag (JS.strip_tags_from b s) = true.
Proof.
  revert b. induction s as [|c r IH]; intros b; [done|]. simpl.
  destruct b.
  - destruct (Ascii.eqb c ">"); apply IH.
  - destruct (Ascii.eqb c "<") eqn:Hlt.
    + destruct (JS.has_gt r) eqn:Hr; [apply IH|].
      simpl. rewrite Hlt, Hr. simpl. by apply has_gt_false_no_tag.
    + simpl. by rewrite Hlt, IH.
Qed.

Lemma strip_tags_no_tag s : no_tag s = true → JS.strip_tags_from false s = s.
Proof.
  induction s as [|c r IH]; [done|]. simpl.
  intros [Hc Hr]%andb_true_iff.
  destruct (Ascii.eqb c "<").
  - apply negb_true_iff in Hc. by rewrite Hc.
  - by rewrite (IH Hr).
Qed.

Lemma has_gt_substring n s :
  JS.has_gt (substring 0 n s) = true → JS.has_gt s = true.
Proof.
  revert n. induction s as [|c r IH]; intros [|n]; try done. simpl.
  destruct (Ascii.eqb c ">"); [done|]. apply IH.
Qed.

Lemma no_tag_substring n s : no_tag s = true → no_tag (substring 0 n s) = true.
Proof.
  revert n. induction s as [|c r IH]; intros [|n]; try done. simpl.
  intros [Hc Hr]%andb_true_iff. rewrite (IH n Hr), andb_true_r.
  destruct (Ascii.eqb c "<"); [|done].
  apply negb_true_iff in Hc. apply negb_true_iff.
  destruct (JS.has_gt (substring 0 n r)) eqn:Hsub; [|done].
  apply has_gt_substring in Hsub. congruence.
Qed.

Lemma has_gt_app s t : JS.has_gt (s ++ t) = JS.has_gt s || JS.has_gt t.
Proof.
  induction s as [|c r IH]; [done|]. simpl.
  by destruct (Ascii.eqb c ">").
Qed.

Lemma no_tag_app s t :
  no_tag s = true → no_tag t = true → JS.has_gt t = false →
  no_tag (s ++ t) = true.
Proof.
  intros Hs Ht Hgt. induction s as [|c r IH]; [done|]. simpl in *.
  apply andb_true_iff in Hs as [Hc Hr].
  rewrite (IH Hr), andb_true_r, has_gt_app, Hgt, orb_false_r.
  done.
Qed.

(** X21: what the excerpt hook makes of a content has no tag left, that
    is no ["<"] with a [">"] after it; stripping the tags of a text twice
    gives what stripping them once gives, and a text without a [">"] is
    left as it is. *)
Theorem makeExcerpt_no_tag content :
  no_tag (Post.makeExcerpt content) = true
  ∧ JS.strip_tags (JS.strip_tags content) = JS.strip_tags content
  ∧ (JS.has_gt content = false → JS.strip_tags content = content).
Proof.
  unfold Post.makeExcerpt, JS.substring0, JS.strip_tags. split_and!.
  - apply no_tag_app; [|done..].
    apply no_tag_substring, no_tag_strip_tags.
  - apply strip_tags_no_tag, no_tag_strip_tags.
  - intros Hgt. by apply strip_tags_no_tag, has_gt_false_no_tag.
Qed.

(** ** Statistics of a user *)

Lemma size_filter_insert {A} (P : ObjectId * A → Prop)
    `{!∀ x, Decision (P x)} (m : gmap ObjectId A) i x :
  m !! i = None →
  size (filter P (<[i:=x]> m))
  = ((if decide (P (i, x)) then 1 else 0) + size (filter P m))%nat.
Proof.
  intros Hi. destruct (decide (P (i, x))) as [HP|HP].
  - rewrite map_filter_insert_True by done.
    rewrite map_size_insert_None; [done|].
    apply map_lookup_filter_None_2. by left.
  - rewrite map_filter_insert_False by done.
    by rewrite delete_id.
Qed.

(** X22: in every store that the handlers produce, the statistics of a
    user count each of the user's posts once: the total is the published
    ones, the drafts and the archived ones together, so the total is the
    published ones and the drafts exactly when the user has archived
    nothing. *)
Theorem userStats_total user db :
  reachable db →
  let s := userStats user db in
  let archived :=
    size (filter (by_author_status (id user) "Archived") (posts db)) in
  stats_total s = (stats_published s + stats_drafts s + archived)%nat
  ∧ (stats_total s = (stats_published s + stats_drafts s)%nat
     ↔ archived = 0%nat).
Proof.
  intros Hdb. simpl.
  assert (Hsum : size (filter (by_author (id user)) (posts db))
    = (size (filter (by_author_status (id user) "Published") (posts db))
       + size (filter (by_author_status (id user) "Draft") (posts db))
       + size (filter (by_author_status (id user) "Archived") (posts db)))%nat).
  { assert (Hstatus : map_Forall
              (fun _ p => Post.status p ∈ ["Draft"; "Published"; "Archived"])
              (posts db)).
    { intros pid p Hp.
      destruct (posts_ok db (reachable_consistent db Hdb) pid p Hp)
        as (_ & _ & Hval).
      by apply validate_nil in Hval as (_ & _ & _ & _ & _ & Hs & _). }
    induction (posts db) as [|i p m Hi _ IH] using map_first_key_ind; [done|].
    apply map_Forall_insert in Hstatus as [Hp Hm]; [|done].
    rewrite !size_filter_insert by done. rewrite (IH Hm).
    unfold by_author_status, by_author. simpl.
    rewrite !elem_of_cons, elem_of_nil in Hp.
    destruct Hp as [Hs|[Hs|[Hs|[]]]];
      repeat case_decide; try lia; exfalso; naive_solver congruence. }
  split; [done|]. lia.
Qed.

Lemma userStats_total_witness :
  stats_total (userStats alice published_db) = 1%nat.
Proof.
  assert (Hp : stats_published (userStats alice published_db) = 1%nat)
    by (vm_compute; reflexivity).
  assert (Hd : stats_drafts (userStats alice published_db) = 0%nat)
    by (vm_compute; reflexivity).
  assert (Ha : size (filter (by_author_status (id alice) "Archived")
                       (posts published_db)) = 0%nat)
    by (vm_compute; reflexivity).
  pose proof (proj1 (userStats_total alice published_db published_db_reachable))
    as Hsum.
  rewrite Hp, Hd, Ha in Hsum. exact Hsum.
Defined.
